(* ===== verification/_CoqProject ===== *)
-Q . S2P
Prelude.v
JsValue.v
Collaborators.v
Joiner.v
Exclusion.v
Suffix.v
Shortcut.v
Parser.v
Semantics.v
Walk.v
Depth.v
Variants.v
Meaning.v
Composition.v
