(* ===== verification/Prelude.v ===== *)
(** * Keystone query parser: a verification development

    The program.  Two near-identical copies of one JavaScript function,
    [queryParser], compile a nested Keystone filter object into the
    three-part intermediate form that the MongoDB join builder turns into
    an aggregation pipeline:
    - [src/packages/mongo-join-builder/lib/query-parser.js] (variant 1);
    - [src/packages/adapter-mongoose/lib/query-parser.js] (variant 2).
    Both files hold three functions: [joinTerms] (lines 7-8 / 6-7),
    [flattenQueries] (10-17 / 9-16) and [queryParser] (19-95 / 18-91).
    [queryParser] walks the entries of the filter object and dispatches on
    each key: [AND]/[OR] (recursion into an array of filters), the
    modifier keys ([$search], [$orderBy], ... to the modifier tokenizer),
    [id], relationship keys (an object value: the relationship tokenizer,
    then either the "shortcut" that rewrites an identity-only filter into
    a direct comparison on the foreign key, or a recursive parse of the
    related filter as a relationship branch) and scalar leaves (the simple
    tokenizer).  The per-key results are merged by [flattenQueries] with
    [$and], and the to-many relationship fields not referenced are listed
    in [excludeFields].  The two variants differ in the modifier key list,
    in how the unique-id generator reaches the relationship tokenizer, and
    in how the shortcut splits the key into field and quantifier suffix
    ([String.prototype.replace] in variant 1, a regular-expression
    [split] in variant 2).

    The library (under the logical root of this directory), in the order
    of [_CoqProject]:
    - [Prelude] (this file): the result type of JavaScript evaluation
      ([Ok] or a thrown exception), a state-and-error monad [stM] for code
      that also threads the unique-id generator, their notations (scope
      [kjs_scope]), monadic maps over lists and the lemmas on them, the
      development's tactics and its hint database [kjs], and a small
      program logic for the monad ([spost] with one rule per
      combinator, cost and totality rules for the monadic maps).
    - [JsValue]: JavaScript values ([jsval]: objects as association lists
      in property order, arrays, strings, numbers as [Z]), [getType] and
      truthiness, property access, [ToString], paths and their
      [join('.')], and the exceptions the code throws.
    - [Collaborators]: the interfaces of what the two files import but do
      not define: the list adapter (field adapters, the simple and
      modifier tokenizers, the ObjectId constructor), the unique-id
      generator [getUID] (a state-passing generator, like [cuid]'s
      counter), the relationship tokenizers of the two packages, and the
      typeclass [QueryVariant] that states what a variant supplies to the
      shared parser.  A sample adapter and a counter generator serve the
      concrete runs.
    - [Joiner]: the output records ([ParseResult], [RelEntry], the per-key
      [Partial]), [joinTerms], [flattenQueries] and their laws: the 0/1/N
      tie-break, that merged match terms are never falsy placeholders,
      idempotence of flattening, order of the pipeline; the copy of
      the two functions in [adapter-mongoose] ([AdapterMongooseJoiner]),
      equal to the first, so that one walk serves both files.
    - [Exclusion]: the [excludeFields] computation of lines 25-27 and
      88-93 ([toManyPaths], [includeFieldsOf], [excludeFieldsOf]), reading
      [field] of the JavaScript object built for each relationship entry,
      and the spec's contract [excludeFieldsSpec] for comparison.
    - [Suffix]: the two key splitters: [replaceFirst]
      ([key.replace(field, '')]) and [splitSuffix]
      ([key.split(/(\_some|\_every|\_none)+$/gm)]) with the regular
      expression's greedy matching, backtracking and multiline [$]
      written out; their round trips.
    - [Shortcut]: the identity shortcut of both variants (lines 55-74 and
      49-70) and its table of cases.
    - [Parser]: [queryParser] as one function [queryParserWith] over a
      [QueryVariant] (section [Walk]: [parseEntry] is the callback of
      lines 28-86, [finishResult] lines 87-94), and its two instances in
      the modules [MongoJoinBuilder] and [AdapterMongoose], each with its
      [queryParser]; the theorems on the whole walk are proved against
      the interface and its laws ([QueryVariantLaws]), which both
      instances discharge.
    - [Semantics]: MongoDB's matching of the shortcut's comparisons on a
      document ([mongoMatch]), the reference meaning of the quantified
      relationship filters the shortcut replaces ([joinMatch]), and which
      cells of the table are equivalent.

    - [Walk]: invariants of every run, for any variant, proved by one
      invariant rule ([walk_post]) over the relationship entries a run
      produces between two generator states, and by induction on the
      filter ([JsValue.jsval_obj_ind]); the interface [FreshTokens]
      (in [Collaborators]) states what the generator promises.
    - [Depth]: the depth of the tree of relationship branches
      ([resultDepth]) against the nesting of relationship keys
      ([relDepth]), by the same program logic.
    - [Variants]: where the two copies part: [$sortBy] is a field
      predicate in one and a pipeline stage in the other.
    - [Meaning]: what a compiled filter means: MongoDB's reading of the
      match terms the code builds ([evalTerm]; an absent term is no
      [$match] stage, [matchSem]), the logical meaning of filters
      ([filterSem]: a mapping and [AND] are conjunctions, [OR] a
      disjunction, modifiers constrain nothing, relationship entries
      what a parameter says), the fragment of filters whose relationship
      entries a parameter admits ([inFragment]), the [OR] proviso
      ([orSafe]) and what the code makes of an [OR] without it.
    - [Composition]: [Meaning] instantiated for [adapter-mongoose] with
      the relationship entries the shortcut rewrites on sound cells
      ([soundIdEntry]), read with the join semantics of [Semantics];
      and the unsound cells reached by the parser.

    What the theorems show.
    - The walk (Parser, C1-C4, C15, C26-C29): flat filters, [AND]/[OR],
      relationship branches and shortcuts compile to the terms, pipeline,
      branches and generator state the code produces, for any variant
      satisfying the laws; non-objects fail with the message of line 21,
      non-array [AND]/[OR] values with the [TypeError] of [.map], and the
      exceptions of the tokenizers and of the relationship step (which
      runs before the shortcut) propagate unchanged; the include hint
      changes nothing but the [excludeFields] of its own level.
    - Every run (Walk, C5-C9): both files' parsers return a result on
      well-shaped filters when their collaborators (tokenizers,
      [ObjectId]) throw nothing, their own shortcuts included; every level of a
      result is well formed; the correlation tokens of all branches are
      pairwise distinct, and in pre-order they were issued at strictly
      increasing counter values (a branch's token before those of its
      own filter, sibling keys in entry order); the generator is called
      at most once per relationship key.
    - What a filter compiles to (Meaning, Composition, C10-C13): on
      filters whose relationship keys the shortcut rewrites soundly (or
      without relationship keys), the compiled match term selects a document
      exactly when the filter holds of it, and is absent exactly when the
      filter constrains nothing, as long as every [OR] has alternatives
      that each constrain something (a refinement, proved level by level
      from the meaning of [flattenQueries]); without that proviso an
      [OR] means the disjunction of its alternatives that constrain
      something, and no constraint when none does (C12): [{ OR: [] }]
      constrains nothing, and an alternative that constrains nothing is
      dropped before the [$or] join instead of making it hold.  Two orders
      of a filter's keys select the same documents.  For
      [adapter-mongoose], with the relationship keys that are identity
      filters on sound cells of the shortcut's table read as the join
      reads them, the walk's refinement and the shortcut's compose into
      one end-to-end theorem (C11).
    - Depth (Depth, C14): the tree of relationship branches is no deeper
      than the nesting of relationship keys in the filter.
    - The shortcut (Semantics, Shortcut, Composition, C16-C21, C30): on
      the cells where
      the rewrite is sound, both variants' comparisons select a document
      exactly when the relationship filter holds of its related records
      (a refinement of the join); the other cells the code rewrites have
      counterexample documents, and [adapter-mongoose]'s parser reaches
      every one of them (C19); the
      code's tables differ from the spec's at [id_not] with [_some]
      (variant 1's ['some'] typo) and [_none]; the variants agree
      elsewhere; a non-array [id_in] makes the shortcut throw.
    - The two copies (Variants, C22): for every adapter,
      [mongo-join-builder] compiles [$sortBy] as a field predicate and
      [adapter-mongoose] as a pipeline stage.
    - Field exclusion (Exclusion, C23-C25): the code's [excludeFields] is
      the to-many fields minus the hint, independent of the branches;
      every to-many field a branch traverses is excluded, which the
      spec's contract retains.
    - The joiner (Joiner, C31-C34) and the key splitters (Suffix, C35,
      C36): tie-break, well-formed match terms (never a combinator of
      fewer than two terms), idempotence and order of merging; the split
      of [field ++ suffix], and the greedy split of every field name
      ending in a quantifier token.

    Modelling choices.  JavaScript values are a closed inductive type;
    numbers are integers ([Z]), so NaN and fractions are not modelled
    (no key of the parser depends on them).  Objects are lists of
    (key, value) pairs in the order [Object.entries] yields them.  Strings
    are Rocq strings of 8-bit characters; keys are GraphQL names, which
    are ASCII.  A thrown exception is a value of [result]; every [throw]
    and every [TypeError] of the code (for instance [value.map] on a
    non-array) is a constructor of [exn]; so is the [TypeError] of a
    property read on [undefined] or [null] ([js_read], at
    [relationshipInfo.field]), while reads on values the code knows to
    be objects use [js_get].  The collaborators that live in
    other files of the repository (tokenizers, [getType], [flatten], the
    ObjectId constructor) are modelled from their documented interface and
    marked so in the manifest.  The recursion of the parser is structural
    on the filter object (no fuel is needed: the function is total), and
    the regular expression matcher is structural on the key; there are
    no machine-width integers in the code (array indices are [nat]).

    Not modelled: the tokenizers' own translation of leaf conditions and
    modifiers (they are parameters), [cuid]'s time- and randomness-based
    tokens (a state-passing generator stands for it), the pipeline
    assembly that consumes the output (only the meaning of its [$match]
    stage is modelled, in [Meaning]), the meaning of relationship keys
    in a compiled filter (their terms come from the relationship
    tokenizer, a parameter; the shortcut's terms are judged in
    [Semantics]), and the network and database
    layers.  The walk is a terminating function without interaction, so
    its only progress property is that it returns ([Walk], C5); there is
    no liveness property to state. *)

From Stdlib Require Import String ZArith Lia Sorted.
From stdpp Require Import base list strings.

(** stdpp makes [String.append] opaque to [simpl]; the string functions
    of this development are proved by computation, so it unfolds again. *)
Arguments String.append : simpl nomatch.

Declare Scope kjs_scope.
Delimit Scope kjs_scope with kjs.

(** ** Results of evaluation: a value or a thrown exception *)

Inductive result (E A : Type) : Type :=
| Ok (a : A)
| Throw (e : E).
Arguments Ok {E A} a.
Arguments Throw {E A} e.

Definition rbind {E A B} (r : result E A) (k : A -> result E B) : result E B :=
  match r with
  | Ok a => k a
  | Throw e => Throw e
  end.

(** [xs.map(f)] where [f] may throw: evaluated left to right, the first
    exception escapes. *)
Fixpoint rmapM {E A B} (f : A -> result E B) (l : list A) : result E (list B) :=
  match l with
  | [] => Ok []
  | x :: r => rbind (f x) (fun y => rbind (rmapM f r) (fun ys => Ok (y :: ys)))
  end.

(** ** State and errors: code that threads the unique-id generator *)

Definition stM (St E A : Type) : Type := St -> result E (A * St).

Definition sret {St E A} (a : A) : stM St E A := fun s => Ok (a, s).

Definition sbind {St E A B} (m : stM St E A) (k : A -> stM St E B) : stM St E B :=
  fun s => match m s with
           | Ok (a, s') => k a s'
           | Throw e => Throw e
           end.

Definition sthrow {St E A} (e : E) : stM St E A := fun _ => Throw e.

(** A computation that does not touch the state. *)
Definition slift {St E A} (r : result E A) : stM St E A :=
  fun s => match r with
           | Ok a => Ok (a, s)
           | Throw e => Throw e
           end.

Notation "'let!' x ':=' r 'in' k" := (rbind r (fun x => k))
  (at level 65, x name, r at next level, right associativity) : kjs_scope.
Notation "'let*' x ':=' m 'in' k" := (sbind m (fun x => k))
  (at level 65, x name, m at next level, right associativity) : kjs_scope.

Open Scope kjs_scope.

(** [xs.map(f)] for an [f] that threads the state. *)
Fixpoint smapM {St E A B} (f : A -> stM St E B) (l : list A) : stM St E (list B) :=
  match l with
  | [] => sret []
  | x :: r => let* y := f x in let* ys := smapM f r in sret (y :: ys)
  end.

(** [xs.map((x, index) => f(index, x))], indices counted from [i]. *)
Fixpoint smapiM {St E A B} (f : nat -> A -> stM St E B) (i : nat) (l : list A)
  : stM St E (list B) :=
  match l with
  | [] => sret []
  | x :: r => let* y := f i x in let* ys := smapiM f (S i) r in sret (y :: ys)
  end.

(** ** Tactics and hints *)

Create HintDb kjs.
Create Rewrite HintDb kjs_rw.

Ltac invc H := inversion H; subst; clear H.

(** Split a hypothesis [sbind m k s = r] (or [rbind]) on the outcome of [m]. *)
Ltac split_bind :=
  repeat match goal with
  | H : context [match ?m with Ok _ => _ | Throw _ => _ end] |- _ =>
      let E := fresh "E" in destruct m as [[? ?]|?] eqn:E; try discriminate H
  | H : context [match ?m with Ok _ => _ | Throw _ => _ end] |- _ =>
      let E := fresh "E" in destruct m as [?|?] eqn:E; try discriminate H
  end.

(** ** Lemmas on the monads *)

Section Monads.
Context {St E : Type}.

Lemma sbind_ok {A B} (m : stM St E A) (k : A -> stM St E B) s a s' :
  m s = Ok (a, s') -> sbind m k s = k a s'.
Proof. intros H. unfold sbind. by rewrite H. Qed.

Lemma sbind_throw {A B} (m : stM St E A) (k : A -> stM St E B) s e :
  m s = Throw e -> sbind m k s = Throw e.
Proof. intros H. unfold sbind. by rewrite H. Qed.

Lemma sbind_inv {A B} (m : stM St E A) (k : A -> stM St E B) s b s'' :
  sbind m k s = Ok (b, s'') -> exists a s', m s = Ok (a, s') /\ k a s' = Ok (b, s'').
Proof.
  unfold sbind. destruct (m s) as [[a s']|e]; [eauto | discriminate].
Qed.

Lemma slift_ok {A} (r : result E A) s a : r = Ok a -> slift (St:=St) r s = Ok (a, s).
Proof. intros ->. reflexivity. Qed.

(** A map whose steps leave the state alone and succeed. *)
Lemma smapM_pure {A B} (f : A -> stM St E B) (g : A -> B) l s :
  (forall x, In x l -> f x s = Ok (g x, s)) -> smapM f l s = Ok (map g l, s).
Proof.
  induction l as [|x l IH]; intros Hf; [reflexivity|]. simpl.
  rewrite (sbind_ok _ _ _ (g x) s) by (apply Hf; left; reflexivity).
  rewrite (sbind_ok _ _ _ (map g l) s) by (apply IH; intros; apply Hf; right; done).
  reflexivity.
Qed.

Lemma smapM_length {A B} (f : A -> stM St E B) l s ys s' :
  smapM f l s = Ok (ys, s') -> length ys = length l.
Proof.
  revert s ys. induction l as [|x l IH]; simpl; intros s ys H.
  - by invc H.
  - apply sbind_inv in H as (y & s1 & _ & H).
    apply sbind_inv in H as (ys' & s2 & H & H'). invc H'. simpl. f_equal. eauto.
Qed.

(** The first step that throws is the exception of the whole map. *)
Lemma smapM_app_throw {A B} (f : A -> stM St E B) l1 x l2 s ys s1 e :
  smapM f l1 s = Ok (ys, s1) -> f x s1 = Throw e -> smapM f (l1 ++ x :: l2) s = Throw e.
Proof.
  revert s ys. induction l1 as [|y l1 IH]; simpl; intros s ys H1 Hx.
  - invc H1. by apply sbind_throw.
  - apply sbind_inv in H1 as (z & s2 & Hy & H1).
    apply sbind_inv in H1 as (zs & s3 & Hl1 & H1). invc H1.
    rewrite (sbind_ok _ _ _ _ _ Hy). by erewrite sbind_throw by eauto.
Qed.

Lemma smapiM_pure {A B} (f : nat -> A -> stM St E B) (g : nat -> A -> B) i l s :
  (forall j x, nth_error l j = Some x -> f (i + j) x s = Ok (g (i + j) x, s)) ->
  smapiM f i l s = Ok (zip_with g (seq i (length l)) l, s).
Proof.
  revert i. induction l as [|x l IH]; intros i Hf; [reflexivity|]. simpl.
  rewrite (sbind_ok _ _ _ (g i x) s).
  2: { rewrite <- (Nat.add_0_r i). by apply Hf. }
  rewrite (sbind_ok _ _ _ (zip_with g (seq (S i) (length l)) l) s); [reflexivity|].
  apply IH. intros j y Hj. replace (S i + j) with (i + S j) by lia. by apply (Hf (S j)).
Qed.

Lemma rmapM_pure {A B} (f : A -> result E B) (g : A -> B) l :
  (forall x, In x l -> f x = Ok (g x)) -> rmapM f l = Ok (map g l).
Proof.
  induction l as [|x l IH]; intros Hf; [reflexivity|]. simpl.
  rewrite Hf by (left; done). simpl. rewrite IH by (intros; apply Hf; right; done).
  reflexivity.
Qed.
Lemma rmapM_Forall {A B} (f : A -> result E B) (P : B -> Prop) l ys :
  rmapM f l = Ok ys -> (forall x y, In x l -> f x = Ok y -> P y) -> Forall P ys.
Proof.
  revert ys. induction l as [|x l IH]; simpl; intros ys H Hf; [by invc H|].
  destruct (f x) as [y|] eqn:Ex; [|discriminate]. simpl in H.
  destruct (rmapM f l) as [ys'|]; [|discriminate]. simpl in H. invc H.
  constructor; [by eapply Hf; [left|]|]. apply IH; [done|]. intros; eapply Hf; [right|]; eauto.
Qed.
End Monads.

#[export] Hint Resolve sbind_ok sbind_throw slift_ok : kjs.

(** ** Postconditions of stateful computations

    [spost m Q]: every successful run of [m] from [s], with value [a] and
    final state [s'], satisfies [Q s a s'].  The rules below, one per
    combinator, prove the invariants of the walk without unfolding the
    monad. *)

Definition spost {St E A} (m : stM St E A) (Q : St -> A -> St -> Prop) : Prop :=
  forall s a s', m s = Ok (a, s') -> Q s a s'.

Section Post.
Context {St E : Type}.

Lemma spost_ret {A} (a : A) (Q : St -> A -> St -> Prop) :
  (forall s, Q s a s) -> spost (E:=E) (sret a) Q.
Proof. intros HQ s b s' H. invc H. apply HQ. Qed.

Lemma spost_throw {A} (e : E) (Q : St -> A -> St -> Prop) : spost (sthrow e) Q.
Proof. intros s a s' H. discriminate H. Qed.

(** The sequencing rule: the postcondition of [m] is the precondition of
    the continuation. *)
Lemma spost_bind {A B} (m : stM St E A) (k : A -> stM St E B) (R : St -> A -> St -> Prop)
    (Q : St -> B -> St -> Prop) :
  spost m R ->
  (forall s a s1, R s a s1 -> forall b s2, k a s1 = Ok (b, s2) -> Q s b s2) ->
  spost (sbind m k) Q.
Proof.
  intros Hm Hk s b s2 H. apply sbind_inv in H as (a & s1 & H1 & H2). eapply Hk; eauto.
Qed.

(** The rule of the monadic map: a property [R] of each step composes
    into [Q] of the whole run. *)
Lemma spost_smapM {A B} (f : A -> stM St E B) (R : St -> B -> St -> Prop)
    (Q : St -> list B -> St -> Prop) (l : list A) :
  (forall x, In x l -> spost (f x) R) ->
  (forall s, Q s [] s) ->
  (forall s b s1 bs s2, R s b s1 -> Q s1 bs s2 -> Q s (b :: bs) s2) ->
  spost (smapM f l) Q.
Proof.
  intros Hf Hnil Hcons. induction l as [|x l IH]; simpl; [by apply spost_ret|].
  apply (spost_bind _ _ R); [by apply Hf; left|]. intros s y s1 Hy ys s2 H.
  apply sbind_inv in H as (ys' & s3 & H1 & H2). invc H2.
  eapply Hcons; [done|]. apply IH; [intros; apply Hf; by right|done].
Qed.

Lemma spost_smapiM {A B} (f : nat -> A -> stM St E B) (R : St -> B -> St -> Prop)
    (Q : St -> list B -> St -> Prop) (i : nat) (l : list A) :
  (forall n x, In x l -> spost (f n x) R) ->
  (forall s, Q s [] s) ->
  (forall s b s1 bs s2, R s b s1 -> Q s1 bs s2 -> Q s (b :: bs) s2) ->
  spost (smapiM f i l) Q.
Proof.
  intros Hf Hnil Hcons. revert i. induction l as [|x l IH]; intros i; simpl; [by apply spost_ret|].
  apply (spost_bind _ _ R); [by apply Hf; left|]. intros s y s1 Hy ys s2 H.
  apply sbind_inv in H as (ys' & s3 & H1 & H2). invc H2.
  eapply Hcons; [done|]. eapply IH; [intros; apply Hf; by right|done].
Qed.

(** The cost rule of the monadic map: if each step moves a measure [m]
    of the state up by at most [c x], the map moves it by at most the
    sum. *)
Lemma spost_smapM_cost {A B} (f : A -> stM St E B) (m : St -> nat) (c : A -> nat) (l : list A) :
  (forall x, In x l -> spost (f x) (fun s _ s' => m s <= m s' <= m s + c x)) ->
  spost (smapM f l) (fun s _ s' => m s <= m s' <= m s + list_sum (map c l)).
Proof.
  intros Hf. induction l as [|x l IH]; simpl; [apply spost_ret; intros; lia|].
  intros s ys s2 H. apply sbind_inv in H as (y & s1 & H1 & H).
  apply sbind_inv in H as (ys' & s3 & H2 & H). invc H.
  apply Hf in H1; [|by left]. apply IH in H2; [|intros; apply Hf; by right]. lia.
Qed.

Lemma spost_smapiM_cost {A B} (f : nat -> A -> stM St E B) (m : St -> nat) (c : A -> nat) i (l : list A) :
  (forall n x, In x l -> spost (f n x) (fun s _ s' => m s <= m s' <= m s + c x)) ->
  spost (smapiM f i l) (fun s _ s' => m s <= m s' <= m s + list_sum (map c l)).
Proof.
  intros Hf. revert i. induction l as [|x l IH]; intros i; simpl; [apply spost_ret; intros; lia|].
  intros s ys s2 H. apply sbind_inv in H as (y & s1 & H1 & H).
  apply sbind_inv in H as (ys' & s3 & H2 & H). invc H.
  apply Hf in H1; [|by left]. apply IH in H2; [|intros; apply Hf; by right]. lia.
Qed.

(** A map whose every step returns a value returns one. *)
Lemma smapM_total {A B} (f : A -> stM St E B) (l : list A) :
  (forall x s, In x l -> exists b s', f x s = Ok (b, s')) ->
  forall s, exists bs s', smapM f l s = Ok (bs, s').
Proof.
  intros Hf. induction l as [|x l IH]; intros s; simpl; [eauto|].
  destruct (Hf x s) as (b & s1 & H1); [by left|].
  destruct (IH (fun y s' Hy => Hf y s' (or_intror Hy)) s1) as (bs & s2 & H2).
  exists (b :: bs), s2. by rewrite (sbind_ok _ _ _ _ _ H1), (sbind_ok _ _ _ _ _ H2).
Qed.

Lemma smapiM_total {A B} (f : nat -> A -> stM St E B) i (l : list A) :
  (forall n x s, In x l -> exists b s', f n x s = Ok (b, s')) ->
  forall s, exists bs s', smapiM f i l s = Ok (bs, s').
Proof.
  intros Hf. revert i. induction l as [|x l IH]; intros i s; simpl; [eauto|].
  destruct (Hf i x s) as (b & s1 & H1); [by left|].
  destruct (IH (fun n y s' Hy => Hf n y s' (or_intror Hy)) (S i) s1) as (bs & s2 & H2).
  exists (b :: bs), s2. by rewrite (sbind_ok _ _ _ _ _ H1), (sbind_ok _ _ _ _ _ H2).
Qed.

(** Each value a successful map returns was returned by a step on the
    element at the same position. *)
Lemma smapM_Forall2 {A B} (f : A -> stM St E B) (l : list A) s bs s' :
  smapM f l s = Ok (bs, s') -> Forall2 (fun a b => exists s1 s2, f a s1 = Ok (b, s2)) l bs.
Proof.
  revert s bs. induction l as [|x l IH]; simpl; intros s bs H.
  - invc H. constructor.
  - apply sbind_inv in H as (b & s1 & H1 & H). apply sbind_inv in H as (bs' & s2 & H2 & H). invc H.
    constructor; [eauto | by eapply IH].
Qed.

Lemma smapiM_Forall2 {A B} (f : nat -> A -> stM St E B) i (l : list A) s bs s' :
  smapiM f i l s = Ok (bs, s') -> Forall2 (fun a b => exists n s1 s2, f n a s1 = Ok (b, s2)) l bs.
Proof.
  revert i s bs. induction l as [|x l IH]; simpl; intros i s bs H.
  - invc H. constructor.
  - apply sbind_inv in H as (b & s1 & H1 & H). apply sbind_inv in H as (bs' & s2 & H2 & H). invc H.
    constructor; [eauto | by eapply IH].
Qed.

(** Maps whose steps agree on the elements of the list agree. *)
Lemma smapM_ext {A B} (f g : A -> stM St E B) (l : list A) :
  (forall x s, In x l -> f x s = g x s) -> forall s, smapM f l s = smapM g l s.
Proof.
  intros Hfg. induction l as [|x l IH]; intros s; simpl; [reflexivity|].
  unfold sbind at 1 3. rewrite Hfg by (left; done).
  destruct (g x s) as [[y s1]|e]; [|reflexivity].
  unfold sbind. rewrite IH; [reflexivity|]. intros; apply Hfg; by right.
Qed.

Lemma smapiM_ext {A B} (f g : nat -> A -> stM St E B) i (l : list A) :
  (forall n x s, In x l -> f n x s = g n x s) -> forall s, smapiM f i l s = smapiM g i l s.
Proof.
  intros Hfg. revert i. induction l as [|x l IH]; intros i s; simpl; [reflexivity|].
  unfold sbind at 1 3. rewrite Hfg by (left; done).
  destruct (g i x s) as [[y s1]|e]; [|reflexivity].
  unfold sbind. rewrite IH; [reflexivity|]. intros; apply Hfg; by right.
Qed.
End Post.

(** ** Shared lemmas on lists *)

Lemma filter_concat {A} (p : A -> bool) (ls : list (list A)) :
  List.filter p (concat ls) = concat (map (List.filter p) ls).
Proof.
  induction ls as [|l ls IH]; [reflexivity|]. simpl. by rewrite List.filter_app, IH.
Qed.

Lemma filter_idem {A} (p : A -> bool) (l : list A) :
  List.filter p (List.filter p l) = List.filter p l.
Proof.
  induction l as [|x l IH]; [reflexivity|]. simpl.
  destruct (p x) eqn:Hp; simpl; [rewrite Hp|]; by rewrite IH.
Qed.

Lemma concat_map_singleton {A} (l : list A) : concat (map (fun x => [x]) l) = l.
Proof. induction l as [|x l IH]; [reflexivity|]. simpl. by rewrite IH. Qed.

Lemma existsb_ext_In {A} (f g : A -> bool) (l : list A) :
  (forall x, In x l -> f x = g x) -> existsb f l = existsb g l.
Proof.
  induction l as [|x l IH]; intros H; [reflexivity|]. cbn.
  rewrite H by (left; done). f_equal. apply IH. intros; apply H; by right.
Qed.

(** The first element of a list on which [f] yields a value. *)
Fixpoint firstSome {A B} (f : A -> option B) (l : list A) : option B :=
  match l with
  | [] => None
  | x :: l' => match f x with Some b => Some b | None => firstSome f l' end
  end.

Lemma firstSome_Some {A B} (f : A -> option B) (l : list A) b :
  firstSome f l = Some b -> exists x, In x l /\ f x = Some b.
Proof.
  induction l as [|x l IH]; cbn; [discriminate|].
  destruct (f x) as [b'|] eqn:Hx; [intros [= <-]; eauto|]. intros H. destruct (IH H) as (y & ? & ?). eauto.
Qed.

(** Strictly ordered lists: concatenation and distinctness. *)
Lemma StronglySorted_app {A} (R : A -> A -> Prop) (l1 l2 : list A) :
  StronglySorted R l1 -> StronglySorted R l2 -> (forall x y, In x l1 -> In y l2 -> R x y) ->
  StronglySorted R (l1 ++ l2).
Proof.
  induction 1 as [|x l1 _ IH Hx]; intros H2 Hxy; [done|]. cbn. constructor.
  - apply IH; [done|]. intros; apply Hxy; [by right | done].
  - apply List.Forall_app. split; [done|]. apply List.Forall_forall. intros y Hy. apply Hxy; [by left | done].
Qed.

Lemma StronglySorted_NoDup {A} (R : A -> A -> Prop) (l : list A) :
  (forall x, ~ R x x) -> StronglySorted R l -> NoDup l.
Proof.
  intros Hirr. induction 1 as [|x l _ IH Hx]; constructor; [|done].
  intros Hin%list_elem_of_In. exact (Hirr x (proj1 (List.Forall_forall _ _) Hx x Hin)).
Qed.

Lemma in_le_list_max (x : nat) (l : list nat) : In x l -> x <= list_max l.
Proof.
  intros Hin. pose proof (proj1 (list_max_le l (list_max l)) (le_n _)) as H.
  exact (proj1 (List.Forall_forall _ l) H x Hin).
Qed.

Lemma list_max_map_le {A} (f : A -> nat) (l : list A) n :
  (forall x, In x l -> f x <= n) -> list_max (map f l) <= n.
Proof.
  intros H. apply list_max_le, List.Forall_forall. intros y (x & <- & Hx)%in_map_iff. by apply H.
Qed.

#[export] Hint Rewrite @filter_idem @concat_map_singleton @app_nil_r : kjs_rw.
