(* ===== verification/JsValue.v ===== *)
(** * JavaScript values, as the query parser sees them

    [jsval] is the closed universe of values that flow through
    [queryParser]: the filter object, its keys' values, the tokenizers'
    outputs and the parse results.  Objects are lists of (key, value)
    pairs in the order [Object.entries] enumerates them.  The file also
    holds the small runtime the code relies on: [getType] of
    [@keystonejs/utils], truthiness (the [if (x)] and [filter(x => x)]
    tests), property access, [ToString], [Array.prototype.includes] on a
    string needle, the path segments of [pathSoFar] with their
    [join('.')], and the exceptions thrown while parsing. *)

From Stdlib Require Import String Ascii ZArith DecimalString DecimalNat.
From stdpp Require Import base list strings.
From S2P Require Import Prelude.

Open Scope string_scope.

(** ** Values *)

Unset Elimination Schemes.
Inductive jsval : Type :=
| JUndefined
| JNull
| JBool (b : bool)
| JNum (n : Z)
| JStr (s : string)
| JArr (xs : list jsval)
| JObj (props : list (string * jsval)).
Set Elimination Schemes.

(** The structural induction principle through the nested lists: a
    property of every element of an array, and of every value of an
    object, gives the property of the container. *)
Section JsvalInd.
Variable P : jsval -> Prop.
Hypothesis HUndef : P JUndefined.
Hypothesis HNull : P JNull.
Hypothesis HBool : forall b, P (JBool b).
Hypothesis HNum : forall n, P (JNum n).
Hypothesis HStr : forall s, P (JStr s).
Hypothesis HArr : forall xs, Forall P xs -> P (JArr xs).
Hypothesis HObj : forall ps, Forall (fun kv => P kv.2) ps -> P (JObj ps).

Fixpoint jsval_ind (v : jsval) : P v :=
  match v with
  | JUndefined => HUndef
  | JNull => HNull
  | JBool b => HBool b
  | JNum n => HNum n
  | JStr s => HStr s
  | JArr xs =>
      HArr xs
        ((fix elems (l : list jsval) : Forall P l :=
            match l with
            | [] => Forall_nil_2 P
            | y :: l' => Forall_cons_2 P y l' (jsval_ind y) (elems l')
            end) xs)
  | JObj ps =>
      HObj ps
        ((fix fields (l : list (string * jsval)) : Forall (fun kv => P kv.2) l :=
            match l with
            | [] => Forall_nil_2 _
            | kv :: l' => Forall_cons_2 (fun kv => P kv.2) kv l' (jsval_ind kv.2) (fields l')
            end) ps)
  end.
End JsvalInd.

(** The induction the filter walk needs: the walk recurses into the
    values of an object and into the elements of an array value of an
    object, and fails on anything that is not an object. *)
Lemma jsval_obj_ind (P : jsval -> Prop) :
  (forall v, (forall ps, v <> JObj ps) -> P v) ->
  (forall ps, Forall (fun kv => P kv.2 /\ forall qs, kv.2 = JArr qs -> Forall P qs) ps -> P (JObj ps)) ->
  forall v, P v.
Proof.
  intros Hother Hobj v.
  enough (H : P v /\ forall qs, v = JArr qs -> Forall P qs) by apply H.
  induction v as [| | | | | xs IH | ps IH] using jsval_ind;
    try (split; [apply Hother; discriminate | discriminate]).
  - split; [apply Hother; discriminate|]. intros qs [= <-].
    eapply Forall_impl; [exact IH | by intros ? []].
  - split; [by apply Hobj | discriminate].
Qed.

(** Structural equality, the equality of BSON values in the database. *)
Fixpoint jsval_eqb (x y : jsval) : bool :=
  match x, y with
  | JUndefined, JUndefined | JNull, JNull => true
  | JBool a, JBool b => Bool.eqb a b
  | JNum a, JNum b => Z.eqb a b
  | JStr a, JStr b => String.eqb a b
  | JArr xs, JArr ys =>
      (fix elems (l1 l2 : list jsval) : bool :=
         match l1, l2 with
         | [], [] => true
         | a :: l1', b :: l2' => jsval_eqb a b && elems l1' l2'
         | _, _ => false
         end) xs ys
  | JObj ps, JObj qs =>
      (fix fields (l1 l2 : list (string * jsval)) : bool :=
         match l1, l2 with
         | [], [] => true
         | (k1, a) :: l1', (k2, b) :: l2' => String.eqb k1 k2 && jsval_eqb a b && fields l1' l2'
         | _, _ => false
         end) ps qs
  | _, _ => false
  end.

Lemma jsval_eqb_eq x y : jsval_eqb x y = true <-> x = y.
Proof.
  revert y. induction x as [| | b | n | s | xs IH | ps IH] using jsval_ind;
    intros [| | b' | n' | s' | ys | qs]; simpl; try (split; congruence).
  - rewrite Bool.eqb_true_iff. split; congruence.
  - rewrite Z.eqb_eq. split; congruence.
  - rewrite String.eqb_eq. split; congruence.
  - revert ys. induction IH as [|x xs Hx _ IHxs]; intros [|y ys]; try (split; congruence).
    rewrite andb_true_iff, Hx, IHxs. split; [intros [-> Hl]; congruence | intros Hl; by invc Hl].
  - revert qs. induction IH as [|[k x] ps Hx _ IHps]; intros [|[k' y] qs]; try (split; congruence).
    simpl in Hx. rewrite !andb_true_iff, String.eqb_eq, Hx, IHps.
    split; [intros [[-> ->] Hl]; congruence | intros Hl; by invc Hl].
Qed.

#[export] Instance jsval_eq_dec : EqDecision jsval.
Proof.
  intros x y. destruct (jsval_eqb x y) eqn:E.
  - left. by apply jsval_eqb_eq.
  - right. intros H. apply jsval_eqb_eq in H. congruence.
Defined.

(** ** The runtime of [@keystonejs/utils] and of the language *)

(** [getType]: [Object.prototype.toString.call(x)] without its brackets. *)
Definition getType (v : jsval) : string :=
  match v with
  | JUndefined => "Undefined"
  | JNull => "Null"
  | JBool _ => "Boolean"
  | JNum _ => "Number"
  | JStr _ => "String"
  | JArr _ => "Array"
  | JObj _ => "Object"
  end.

(** ToBoolean: [undefined], [null], [false], [0] and [""] are falsy. *)
Definition truthy (v : jsval) : bool :=
  match v with
  | JUndefined | JNull => false
  | JBool b => b
  | JNum n => negb (Z.eqb n 0)
  | JStr s => negb (String.eqb s "")
  | JArr _ | JObj _ => true
  end.

(** Own property [k] of an object's entries; [undefined] when absent. *)
Fixpoint prop_lookup (ps : list (string * jsval)) (k : string) : jsval :=
  match ps with
  | [] => JUndefined
  | (k', v) :: ps' => if String.eqb k' k then v else prop_lookup ps' k
  end.

(** [v[k]] for the keys the parser reads ([id], [id_in], [field], ...):
    none of them is a property of a primitive's or an array's prototype,
    so on a non-object the read gives [undefined]. *)
Definition js_get (v : jsval) (k : string) : jsval :=
  match v with
  | JObj ps => prop_lookup ps k
  | _ => JUndefined
  end.

(** [Object.keys(v).length]. *)
Definition key_count (v : jsval) : nat :=
  match v with
  | JObj ps => length ps
  | _ => 0
  end.

Definition nat_to_string (n : nat) : string :=
  NilEmpty.string_of_uint (Nat.to_uint n).

(** Whether a string contains the character [c]. *)
Fixpoint hasChar (c : ascii) (s : string) : bool :=
  match s with
  | EmptyString => false
  | String x s' => Ascii.eqb x c || hasChar c s'
  end.

Lemma hasChar_sep c a b : hasChar c (a ++ String c b) = true.
Proof. induction a as [|x a IH]; cbn; [by rewrite Ascii.eqb_refl | by rewrite IH, orb_true_r]. Qed.

(** The part after the last separator [c] determines itself: if
    [a ++ c ++ b = a' ++ c ++ b'] and neither [b] nor [b'] contains [c],
    then [b = b']. *)
Lemma sep_suffix_inj c a b a' b' :
  hasChar c b = false -> hasChar c b' = false -> a ++ String c b = a' ++ String c b' -> b = b'.
Proof.
  revert a'. induction a as [|x a IH]; intros [|y a'] Hb Hb' H; cbn in H.
  - by injection H.
  - injection H as <- ->. by rewrite hasChar_sep in Hb.
  - injection H as -> <-. by rewrite hasChar_sep in Hb'.
  - injection H as _ H. eauto.
Qed.

Lemma nat_to_string_no_underscore n : hasChar "_" (nat_to_string n) = false.
Proof. unfold nat_to_string. induction (Nat.to_uint n); cbn; auto. Qed.

Lemma nat_to_string_inj n m : nat_to_string n = nat_to_string m -> n = m.
Proof.
  unfold nat_to_string. intros H. apply (f_equal NilEmpty.uint_of_string) in H.
  rewrite !NilEmpty.usu in H. injection H as H.
  by rewrite <- (DecimalNat.Unsigned.of_to n), <- (DecimalNat.Unsigned.of_to m), H.
Qed.

Definition Z_to_string (n : Z) : string :=
  NilEmpty.string_of_int (Z.to_int n).

(** ToString; arrays are joined with [","], their [undefined] and [null]
    elements printing as the empty string. *)
Fixpoint js_to_string (v : jsval) : string :=
  match v with
  | JUndefined => "undefined"
  | JNull => "null"
  | JBool true => "true"
  | JBool false => "false"
  | JNum n => Z_to_string n
  | JStr s => s
  | JArr xs =>
      String.concat ","
        (map (fun x => match x with JUndefined | JNull => "" | _ => js_to_string x end) xs)
  | JObj _ => "[object Object]"
  end.

(** [xs.includes(s)] for a string [s]: SameValueZero holds between [s] and
    an element exactly when the element is the same string. *)
Definition includes_str (xs : list jsval) (s : string) : bool :=
  existsb (fun x => match x with JStr s' => String.eqb s' s | _ => false end) xs.

(** ** Paths and exceptions *)

(** An element of [pathSoFar]: a key, or the index pushed by [AND]/[OR]. *)
Inductive seg : Type :=
| PKey (k : string)
| PIdx (i : nat).

Definition seg_to_string (g : seg) : string :=
  match g with
  | PKey k => k
  | PIdx i => nat_to_string i
  end.

(** [pathSoFar.join('.')]. *)
Definition path_join (p : list seg) : string :=
  String.concat "." (map seg_to_string p).

(** What evaluation can throw. *)
Inductive exn : Type :=
| EQueryType (got : string) (path : list seg)
    (** [new Error(`Expected an Object for query, got ${getType(query)} at path ${pathSoFar.join('.')}`)] *)
| ETypeError (msg : string)
    (** a [TypeError] of the engine, e.g. calling [map] on a non-array *)
| EExternal (thrown : jsval)
    (** a value thrown by a collaborator (a tokenizer, [ObjectId]) *).

Definition exn_message (e : exn) : string :=
  match e with
  | EQueryType got p => "Expected an Object for query, got " ++ got ++ " at path " ++ path_join p
  | ETypeError msg => msg
  | EExternal v => js_to_string v
  end.

Abbreviation jsres := (result exn).

(** [v.k] where a property read on [undefined] or [null] throws the
    engine's [TypeError]. *)
Definition js_read (v : jsval) (k : string) : jsres jsval :=
  match v with
  | JUndefined => Throw (ETypeError ("Cannot read properties of undefined (reading '" ++ k ++ "')"))
  | JNull => Throw (ETypeError ("Cannot read properties of null (reading '" ++ k ++ "')"))
  | _ => Ok (js_get v k)
  end.


(** ** Lemmas *)

Lemma js_read_ok v k : v <> JUndefined -> v <> JNull -> js_read v k = Ok (js_get v k).
Proof. by destruct v. Qed.

Lemma js_read_get v k f : js_get v k = JStr f -> js_read v k = Ok (JStr f).
Proof. destruct v; cbn; intros H; try discriminate H; by rewrite H. Qed.

Lemma getType_object v : getType v = "Object" <-> exists ps, v = JObj ps.
Proof. destruct v; simpl; split; intros H; try discriminate; try (destruct H; discriminate); eauto. Qed.

Lemma truthy_false_cases v :
  truthy v = false <->
  v = JUndefined \/ v = JNull \/ v = JBool false \/ v = JNum 0 \/ v = JStr "".
Proof.
  split.
  - destruct v as [| |[]|n|s| |]; simpl; intros H; try discriminate; auto 6.
    + apply negb_false_iff, Z.eqb_eq in H. subst. auto 6.
    + apply negb_false_iff, String.eqb_eq in H. subst. auto 6.
  - intros [->|[->|[->|[->| ->]]]]; reflexivity.
Qed.

Lemma js_get_JObj ps k : js_get (JObj ps) k = prop_lookup ps k.
Proof. reflexivity. Qed.

Lemma includes_str_spec xs s : includes_str xs s = true <-> In (JStr s) xs.
Proof.
  unfold includes_str. rewrite existsb_exists. split.
  - intros [[| | | | s' | |] [Hin Hs]]; try discriminate.
    apply String.eqb_eq in Hs. by subst.
  - intros Hin. exists (JStr s). split; [done | apply String.eqb_refl].
Qed.

#[export] Hint Rewrite js_get_JObj : kjs_rw.
