(* ===== verification/Collaborators.v ===== *)
(** * The collaborators of [queryParser] and the variant interface

    Both [query-parser.js] files call functions defined elsewhere in the
    repository: [getType] and [flatten] of [@keystonejs/utils] (modelled in
    [JsValue] and [Joiner]), the tokenizers of [./tokenizers], the
    [listAdapter] (its [fieldAdapters] and [mongoose.Types.ObjectId]) and
    the unique-id generator ([cuid] by default).  They are not under
    [src/]; this file states the interface the parser relies on, as
    classes whose instances are the concrete adapters.

    [QueryVariant] is the interface between the shared walk of
    [queryParser] ([Parser]) and what differs between the two files: the
    list of modifier keys, how the relationship tokenizer obtains its
    unique id, and the identity shortcut.  [QueryVariantLaws] states what
    the walk's theorems need from a variant; [Parser] proves both
    instances satisfy it.

    The sample adapter at the end (a [User] list with a to-one [author]
    and to-many [posts], [tags], [friends]) and the counter generator are
    the fixtures of the concrete runs. *)

From Stdlib Require Import String ZArith.
From stdpp Require Import base list strings.
From S2P Require Import Prelude JsValue.

Open Scope string_scope.

(** ** The list adapter *)

(** What lines 25-27 read of a field adapter: [isRelationship],
    [field.config.many] and [dbPath]. *)
Record FieldAdapter : Type := mkFieldAdapter {
  isRelationship : bool;
  fieldMany : bool;
  dbPath : string
}.

Class ListAdapter : Type := {
  fieldAdapters : list FieldAdapter;
  (** [simpleTokenizer(listAdapter, query, key, path)] *)
  simpleTokenizer : jsval -> string -> list seg -> jsres jsval;
  (** [modifierTokenizer(listAdapter, query, key, path)] *)
  modifierTokenizer : jsval -> string -> list seg -> jsres jsval;
  (** [listAdapter.mongoose.Types.ObjectId(x)] *)
  objectId : jsval -> jsres jsval
}.

(** ** The unique-id generator and the relationship tokenizers *)

(** [getUID(key)]: a generator with internal state [St] (the counter of
    [cuid]); each call returns a fresh token and the next state. *)
Class UidGen (St : Type) : Type := {
  getUID : string -> St -> string * St
}.

(** Variant 1 ([mongo-join-builder]):
    [relationshipTokenizer(listAdapter, key, path, getUID(key))] returns
    [{ matchTerm, relationshipInfo }]. *)
Class RelTokenizer1 : Type := {
  relationshipTokenizer1 : string -> list seg -> string -> jsres (jsval * jsval)
}.

(** Variant 2 ([adapter-mongoose]):
    [relationshipTokenizer(listAdapter, key, path, getUID)] receives the
    generator itself, so it threads the generator's state. *)
Class RelTokenizer2 (St : Type) : Type := {
  relationshipTokenizer2 : string -> list seg -> stM St exn (jsval * jsval)
}.

(** ** The interface between the walk and a variant *)

Class QueryVariant (St : Type) : Type := {
  (** the test of line 37 (variant 1) / 36 (variant 2) *)
  isModifierKey : string -> bool;
  (** obtain [{ matchTerm, relationshipInfo }] for a relationship key *)
  relationshipStep : string -> list seg -> stM St exn (jsval * jsval);
  (** the identity shortcut: key, [relationshipInfo], value; [Ok None]
      when no direct comparison is produced *)
  relationshipShortcut : string -> jsval -> jsval -> jsres (option jsval)
}.

(** What the walk's theorems use of a variant: the shortcut is never
    taken for a filter with other than one key, nor for one without a
    truthy identity predicate. *)
Class QueryVariantLaws (St : Type) (V : QueryVariant St) : Prop := {
  shortcut_needs_one_key : forall key info value,
    key_count value <> 1 -> relationshipShortcut key info value = Ok None;
  shortcut_needs_identity : forall key info value,
    truthy (js_get value "id") = false -> truthy (js_get value "id_not") = false ->
    truthy (js_get value "id_in") = false -> truthy (js_get value "id_not_in") = false ->
    relationshipShortcut key info value = Ok None
}.

(** What the parser needs of the generator and the relationship
    tokenizer together for the correlation tokens to be unique: each
    relationship step advances a counter [stamp] of the generator by one
    and records, as [relationshipInfo.uniqueField], a token [token key s]
    of the state it started from; tokens of different counter values
    differ ([cuid]'s promise). *)
Class FreshTokens (St : Type) (V : QueryVariant St) : Type := {
  stamp : St -> nat;
  token : string -> St -> jsval;
  step_fresh : forall key path s mt info s',
    relationshipStep key path s = Ok ((mt, info), s') ->
    stamp s' = S (stamp s) /\ js_get info "uniqueField" = token key s;
  token_inj : forall k1 s1 k2 s2, token k1 s1 = token k2 s2 -> stamp s1 = stamp s2
}.

(** ** Fixtures for concrete runs *)

Definition sampleFieldAdapters : list FieldAdapter :=
  [ mkFieldAdapter false false "name";
    mkFieldAdapter true false "author";
    mkFieldAdapter true true "posts";
    mkFieldAdapter true true "tags";
    mkFieldAdapter true true "friends" ].

(** The first relationship field whose [dbPath] starts the key, as
    [findFieldAdapterForQuerySegment] does for suffixed keys. *)
Definition sampleRelField (key : string) : option string :=
  match List.find (fun fa => isRelationship fa && String.prefix (dbPath fa) key) sampleFieldAdapters with
  | Some fa => Some (dbPath fa)
  | None => None
  end.

Definition sampleObjectId (v : jsval) : jsres jsval :=
  match v with
  | JStr s => Ok (JObj [("$oid", JStr s)])
  | _ => Throw (EExternal (JStr "Argument passed in must be a string of 24 hex characters"))
  end.

#[export] Instance sampleAdapter : ListAdapter := {
  fieldAdapters := sampleFieldAdapters;
  simpleTokenizer := fun q key _ => Ok (JObj [(key, JObj [("$eq", js_get q key)])]);
  modifierTokenizer := fun q key _ => Ok (JObj [(key, js_get q key)]);
  objectId := sampleObjectId
}.

(** An adapter whose simple tokenizer, like the real one, refuses a key
    that names no field of the list; passed explicitly. *)
Definition strictSimpleTokenizer (q : jsval) (key : string) (_ : list seg) : jsres jsval :=
  if existsb (fun fa => String.eqb (dbPath fa) key) sampleFieldAdapters || String.eqb key "id"
  then Ok (JObj [(key, JObj [("$eq", js_get q key)])])
  else Throw (EExternal (JStr ("Unknown field " ++ key))).

Definition strictAdapter : ListAdapter := {|
  fieldAdapters := sampleFieldAdapters;
  simpleTokenizer := strictSimpleTokenizer;
  modifierTokenizer := fun q key _ => Ok (JObj [(key, js_get q key)]);
  objectId := sampleObjectId
|}.

(** A counter generator: the [n]-th token is the key and [n]. *)
#[export] Instance counterUid : UidGen nat := {
  getUID := fun key n => (key ++ "_" ++ nat_to_string n, S n)
}.

Definition sampleRelTokens (field uid : string) : jsval * jsval :=
  (JObj [("$expr", JObj [("$gt", JArr [JObj [("$size", JStr ("$" ++ uid))]; JNum 0])])],
   JObj [("field", JStr field); ("uniqueField", JStr uid)]).

(** The relationship tokenizer refuses a key that names no relationship
    field of the list. *)
Definition sampleRelTokenize (key uid : string) : jsres (jsval * jsval) :=
  match sampleRelField key with
  | Some field => Ok (sampleRelTokens field uid)
  | None => Throw (EExternal (JStr ("Unknown relationship field " ++ key)))
  end.

#[export] Instance sampleRelTokenizer1 : RelTokenizer1 := {
  relationshipTokenizer1 := fun key _ uid => sampleRelTokenize key uid
}.

#[export] Instance sampleRelTokenizer2 : RelTokenizer2 nat := {
  relationshipTokenizer2 := fun key _ s =>
    let '(uid, s') := getUID key s in
    match sampleRelTokenize key uid with
    | Ok tok => Ok (tok, s')
    | Throw e => Throw e
    end
}.
