(* ===== verification/Joiner.v ===== *)
(** * The parse result and the term joiner

    [ParseResult] is the object [queryParser] returns
    ([{ ...flatQueries, excludeFields }], lines 91-94 of variant 1);
    [RelEntry] is an element of its [relationships] array
    ([{ relationshipInfo, ...queryParser(...) }], line 80); [Partial] is
    what each key of the filter contributes before the merge (the objects
    returned inside [Object.entries(query).map], lines 28-86), with the
    absent fields read as [q.matchTerm] = [undefined] and
    [q.postJoinPipeline || []] = [[]].

    [joinTerms] and [flattenQueries] (lines 7-17) merge the partial
    results.  Their laws: the 0/1/N tie-break, a merged match term is
    [undefined] or truthy (never a falsy placeholder), flattening is
    idempotent, and nesting merges keeps the pipeline and the
    relationship branches in order. *)

From Stdlib Require Import String ZArith.
From stdpp Require Import base list strings.
From S2P Require Import Prelude JsValue.

Open Scope string_scope.

(** ** Results *)

Inductive ParseResult : Type := mkParseResult {
  matchTerm : jsval;
  postJoinPipeline : list jsval;
  relationships : list RelEntry;
  excludeFields : list string
}
with RelEntry : Type := mkRelEntry {
  relationshipInfo : jsval;
  relResult : ParseResult
}.

Record Partial : Type := mkPartial {
  pMatchTerm : jsval;
  pPipeline : list jsval;
  pRelationships : list RelEntry
}.

(** The JavaScript objects the code builds for a result and for a
    relationship entry, with their keys in creation order: the spread
    [{ relationshipInfo, ...sub }] puts [relationshipInfo] first, then the
    keys of [sub]. *)
Fixpoint result_props (r : ParseResult) : list (string * jsval) :=
  match r with
  | mkParseResult m pipe rels excl =>
      [("matchTerm", m); ("postJoinPipeline", JArr pipe);
       ("relationships", JArr (map entry_js rels)); ("excludeFields", JArr (map JStr excl))]
  end
with entry_js (e : RelEntry) : jsval :=
  match e with
  | mkRelEntry info sub => JObj (("relationshipInfo", info) :: result_props sub)
  end.

Definition result_js (r : ParseResult) : jsval := JObj (result_props r).

(** ** The joiner *)

(** [flatten] of [@keystonejs/utils]: [Array.prototype.concat(...arr)],
    one level. *)
Definition flatten {A} (ls : list (list A)) : list A := concat ls.

(** Lines 7-8: [matchTerms.length > 1 ? { [joinOp]: matchTerms } : matchTerms[0]]. *)
Definition joinTerms (matchTerms : list jsval) (joinOp : string) : jsval :=
  if (1 <? List.length matchTerms)%nat then JObj [(joinOp, JArr matchTerms)]
  else hd JUndefined matchTerms.

(** Lines 10-17. *)
Definition flattenQueries (parsedQueries : list Partial) (joinOp : string) : Partial :=
  {| pMatchTerm := joinTerms (List.filter truthy (map pMatchTerm parsedQueries)) joinOp;
     pPipeline := List.filter truthy (flatten (map pPipeline parsedQueries));
     pRelationships := flatten (map pRelationships parsedQueries) |}.

(** The copy of lines 6-16 of [adapter-mongoose/lib/query-parser.js].
    It has the same text; the shared walk of [Parser] uses the
    definitions above for both variants, which [joiner_copies_agree]
    justifies. *)
Module AdapterMongooseJoiner.
Definition joinTerms (matchTerms : list jsval) (joinOp : string) : jsval :=
  if (1 <? List.length matchTerms)%nat then JObj [(joinOp, JArr matchTerms)]
  else hd JUndefined matchTerms.

Definition flattenQueries (parsedQueries : list Partial) (joinOp : string) : Partial :=
  {| pMatchTerm := joinTerms (List.filter truthy (map pMatchTerm parsedQueries)) joinOp;
     pPipeline := List.filter truthy (flatten (map pPipeline parsedQueries));
     pRelationships := flatten (map pRelationships parsedQueries) |}.
End AdapterMongooseJoiner.

(** ** Helper lemmas *)
Lemma joiner_copies_agree (qs : list Partial) (op : string) :
  AdapterMongooseJoiner.flattenQueries qs op = flattenQueries qs op.
Proof. reflexivity. Qed.


Lemma joinTerms_nil op : joinTerms [] op = JUndefined.
Proof. reflexivity. Qed.

Lemma joinTerms_single t op : joinTerms [t] op = t.
Proof. reflexivity. Qed.

Lemma joinTerms_many t1 t2 ts op :
  joinTerms (t1 :: t2 :: ts) op = JObj [(op, JArr (t1 :: t2 :: ts))].
Proof. reflexivity. Qed.

#[export] Hint Rewrite joinTerms_nil joinTerms_single joinTerms_many : kjs_rw.

(** Joining truthy terms gives [undefined] or a truthy value. *)
Lemma joinTerms_truthy ts op :
  Forall (fun t => truthy t = true) ts ->
  truthy (joinTerms ts op) = false -> joinTerms ts op = JUndefined.
Proof.
  intros Hts. destruct ts as [|t [|t' ts]]; unfold joinTerms; simpl; intros H; [done | | discriminate].
  apply Forall_inv in Hts. simpl in *. congruence.
Qed.

Lemma filter_truthy_all (l : list jsval) : Forall (fun t => truthy t = true) (List.filter truthy l).
Proof. apply List.Forall_forall. intros x Hx. by apply filter_In in Hx as [_ ?]. Qed.

Lemma joinTerms_cons_defined t ts op :
  truthy t = true -> joinTerms (t :: ts) op <> JUndefined.
Proof. intros Ht. destruct ts; unfold joinTerms; simpl; [intros ->|]; discriminate. Qed.

(** The terms of a single merged result, filtered again, are itself. *)
Lemma filter_truthy_single ts op :
  Forall (fun t => truthy t = true) ts ->
  joinTerms (List.filter truthy [joinTerms ts op]) op = joinTerms ts op.
Proof.
  intros Hts. simpl. destruct (truthy (joinTerms ts op)) eqn:E; [reflexivity|].
  by rewrite (joinTerms_truthy ts op Hts E).
Qed.

(** A partial result as a merge leaves it: its match term is [undefined]
    or truthy, and its stages are truthy. *)
Definition normalized (p : Partial) : Prop :=
  (truthy (pMatchTerm p) = false -> pMatchTerm p = JUndefined) /\
  Forall (fun t => truthy t = true) (pPipeline p).

Lemma flattenQueries_normalized qs op : normalized (flattenQueries qs op).
Proof. split; [apply joinTerms_truthy, filter_truthy_all | apply filter_truthy_all]. Qed.

Lemma filter_truthy_id (l : list jsval) :
  Forall (fun t => truthy t = true) l -> List.filter truthy l = l.
Proof. induction 1 as [|x l Hx _ IH]; [done|]. simpl. by rewrite Hx, IH. Qed.

(** Merging a single normalized partial result gives it back. *)
Lemma flattenQueries_single p op : normalized p -> flattenQueries [p] op = p.
Proof.
  intros [Hm Hp]. destruct p as [m pipe rels]. unfold flattenQueries, flatten; cbn.
  rewrite !app_nil_r, filter_truthy_id by done. f_equal.
  destruct (truthy m) eqn:E; [reflexivity|]. cbn in Hm. by rewrite Hm.
Qed.

(** ** Properties *)

(** C31: the tie-break of [joinTerms]: no term gives [undefined], one term
    is returned unwrapped, two or more are wrapped as [{ op: terms }]. *)
Theorem joinTerms_tiebreak (ts : list jsval) (op : string) :
  (ts = [] -> joinTerms ts op = JUndefined) /\
  (forall t, ts = [t] -> joinTerms ts op = t) /\
  (2 <= length ts -> joinTerms ts op = JObj [(op, JArr ts)]).
Proof.
  split; [intros ->; reflexivity|]. split; [intros t ->; reflexivity|].
  intros Hlen. unfold joinTerms. destruct (Nat.ltb_spec 1 (length ts)); [done | lia].
Qed.

(** C32: the match term of a merge is [undefined] or truthy; it is
    [undefined] exactly when no partial result had a truthy term (a falsy
    term, [null], [false], [0], [""], never survives a merge); and it is
    a combinator [{ op': ts }] only as the wrapping of at least two
    truthy terms with the merge's operator, or as one of the parts' own
    terms passed through (spec: never a combinator of 0 or 1 terms). *)
Theorem flattenQueries_matchTerm_wf (qs : list Partial) (op : string) :
  let m := pMatchTerm (flattenQueries qs op) in
  (truthy m = false -> m = JUndefined) /\
  (m = JUndefined <-> Forall (fun q => truthy (pMatchTerm q) = false) qs) /\
  (forall op' ts, m = JObj [(op', JArr ts)] ->
     (op' = op /\ 2 <= length ts /\ ts = List.filter truthy (map pMatchTerm qs)) \/ In m (map pMatchTerm qs)).
Proof.
  simpl. split; [|split].
  - apply joinTerms_truthy, filter_truthy_all.
  - induction qs as [|q qs IH]; simpl; [split; auto|].
    destruct (truthy (pMatchTerm q)) eqn:Hq.
    + split; [intros H; by apply joinTerms_cons_defined in H | intros Hf; invc Hf; congruence].
    + rewrite Forall_cons. tauto.
  - intros op' ts Hm. destruct (List.filter truthy (map pMatchTerm qs)) as [|t [|t2 ts']] eqn:E.
    + discriminate Hm.
    + right. rewrite Hm. cbn in Hm. rewrite <- Hm.
      assert (Ht : In t (List.filter truthy (map pMatchTerm qs))) by (rewrite E; by left).
      by apply filter_In in Ht as [? _].
    + left. rewrite joinTerms_many in Hm. injection Hm as -> <-. cbn. split; [done|]. split; [lia | done].
Qed.

(** C33: flattening is idempotent: merging the single result of a merge
    (whatever the operator) gives that result back. *)
Theorem flattenQueries_idempotent (qs : list Partial) (op op' : string) :
  flattenQueries [flattenQueries qs op] op' = flattenQueries qs op.
Proof. apply flattenQueries_single, flattenQueries_normalized. Qed.

(** C34: merging keeps the pipeline stages and the relationship
    branches of the parts in the order of the parts: a merge of
    [qs1 ++ qs2] lists those of [qs1]'s merge, then those of [qs2]'s; a
    single part contributes its truthy stages and its branches as they
    are; so nested merges list the same stages and branches as one merge
    of all the parts (only the match term is nested). *)
Theorem flattenQueries_order (qs1 qs2 : list Partial) (p : Partial) (op1 op2 op : string) :
  pPipeline (flattenQueries (qs1 ++ qs2) op) =
    (pPipeline (flattenQueries qs1 op) ++ pPipeline (flattenQueries qs2 op))%list /\
  pRelationships (flattenQueries (qs1 ++ qs2) op) =
    (pRelationships (flattenQueries qs1 op) ++ pRelationships (flattenQueries qs2 op))%list /\
  pPipeline (flattenQueries [p] op) = List.filter truthy (pPipeline p) /\
  pRelationships (flattenQueries [p] op) = pRelationships p /\
  pPipeline (flattenQueries [flattenQueries qs1 op1; flattenQueries qs2 op2] op) =
    pPipeline (flattenQueries (qs1 ++ qs2) op) /\
  pRelationships (flattenQueries [flattenQueries qs1 op1; flattenQueries qs2 op2] op) =
    pRelationships (flattenQueries (qs1 ++ qs2) op).
Proof.
  unfold flattenQueries, flatten. cbn [pPipeline pRelationships map concat].
  rewrite !app_nil_r, !map_app, !concat_app, !List.filter_app, !filter_idem.
  repeat split; reflexivity.
Qed.
