(* ===== verification/Exclusion.v ===== *)
(** * The field exclusion of [queryParser]

    Lines 25-27 (variant 1; 24-26 in variant 2) list the [dbPath] of every
    to-many relationship field of the list adapter; lines 88-93 (84-89)
    drop from that list the fields named in [includeFields] and return the
    rest as [excludeFields].  [includeFields] is
    [flatQueries.relationships.map(({ field }) => field)] plus the
    [include] argument when it is truthy.

    The elements of [relationships] are the objects
    [{ relationshipInfo, ...queryParser(...) }] ([Joiner.entry_js]); none
    has a key [field], so every element maps to [undefined] and only the
    [include] argument can keep a field out of [excludeFields].  The
    theorems below state what the code computes, set it against the
    contract of the spec (section 4.4: the branch fields are retained)
    and show the two differ. *)

From Stdlib Require Import String ZArith.
From stdpp Require Import base list strings.
From S2P Require Import Prelude JsValue Collaborators Joiner.

Open Scope string_scope.

(** ** The computation *)

(** Lines 25-27: [fieldAdapters.filter(({ isRelationship, field }) =>
    isRelationship && field.config.many).map(({ dbPath }) => dbPath)]. *)
Definition toManyPaths (fas : list FieldAdapter) : list string :=
  map dbPath (List.filter (fun fa => isRelationship fa && fieldMany fa) fas).

(** Lines 88-89. *)
Definition includeFieldsOf (rels : list RelEntry) (include : jsval) : list jsval :=
  map (fun e => js_get (entry_js e) "field") rels ++ (if truthy include then [include] else []).

(** Line 93: [excludeFields.filter(field => !includeFields.includes(field))]. *)
Definition excludeFieldsOf (fas : list FieldAdapter) (rels : list RelEntry) (include : jsval)
  : list string :=
  List.filter (fun f => negb (includes_str (includeFieldsOf rels include) f)) (toManyPaths fas).

(** ** The contract of the spec (section 4.4) *)

(** The field a relationship branch traverses, [relationshipInfo.field]. *)
Definition branchField (e : RelEntry) : jsval := js_get (relationshipInfo e) "field".

(** [allToManyFields - (branchFields + {includeHint})]. *)
Definition excludeFieldsSpec (fas : list FieldAdapter) (rels : list RelEntry) (include : jsval)
  : list string :=
  List.filter
    (fun f => negb (includes_str (map branchField rels ++ [include]) f))
    (toManyPaths fas).

(** ** Lemmas *)

(** The object of a relationship entry has no key [field]. *)
Lemma entry_field_undefined e : js_get (entry_js e) "field" = JUndefined.
Proof. destruct e as [info [m pipe rels excl]]. reflexivity. Qed.

Lemma includes_str_undefined_prefix (rels : list RelEntry) (xs : list jsval) f :
  includes_str (map (fun e => js_get (entry_js e) "field") rels ++ xs) f = includes_str xs f.
Proof.
  induction rels as [|e rels IH]; [reflexivity|]. simpl. by rewrite entry_field_undefined.
Qed.

Lemma includes_str_hint (include : jsval) f :
  includes_str (if truthy include then [include] else []) f = true <->
  include = JStr f /\ f <> "".
Proof.
  destruct (truthy include) eqn:Ht; simpl.
  - rewrite orb_false_r. destruct include as [| | | | s | |]; try (split; [discriminate | intros [? _]; discriminate]).
    rewrite String.eqb_eq. simpl in Ht. apply negb_true_iff, String.eqb_neq in Ht.
    split; [intros ->; done | intros [Heq _]; congruence].
  - split; [discriminate|]. intros [-> Hf]. simpl in Ht.
    apply negb_false_iff, String.eqb_eq in Ht. congruence.
Qed.

(** [includeFields.includes(f)] holds exactly for the (non-empty)
    string hint. *)
Lemma includeFields_includes (rels : list RelEntry) (include : jsval) f :
  includes_str (includeFieldsOf rels include) f = bool_decide (include = JStr f /\ f <> "").
Proof.
  unfold includeFieldsOf. rewrite includes_str_undefined_prefix.
  destruct (includes_str _ f) eqn:E1; destruct (bool_decide _) eqn:E2; try reflexivity; exfalso.
  - apply includes_str_hint in E1. apply bool_decide_eq_false in E2. tauto.
  - apply bool_decide_eq_true, includes_str_hint in E2. congruence.
Qed.

(** ** Properties *)

(** C23: what the code computes: [excludeFields] is the list of to-many
    fields without the [include] hint; the relationship branches of the
    level play no part (every [({ field }) => field] gives [undefined]). *)
Theorem excludeFields_ignores_branches (fas : list FieldAdapter) (rels : list RelEntry)
  (include : jsval) :
  excludeFieldsOf fas rels include =
  List.filter (fun f => negb (bool_decide (include = JStr f /\ f <> ""))) (toManyPaths fas).
Proof.
  unfold excludeFieldsOf. apply List.filter_ext. intros f. by rewrite includeFields_includes.
Qed.

(** C25: membership in [excludeFields]: a field is excluded exactly when it
    is a to-many relationship field that the (non-empty) [include] hint
    does not name; in particular a to-one or non-relationship field is
    never excluded, and the hint is always kept. *)
Theorem excludeFields_member (fas : list FieldAdapter) (rels : list RelEntry) (include : jsval)
  (f : string) :
  In f (excludeFieldsOf fas rels include) <->
  (exists fa, In fa fas /\ isRelationship fa = true /\ fieldMany fa = true /\ dbPath fa = f) /\
  (include = JStr f -> f = "").
Proof.
  unfold excludeFieldsOf. rewrite filter_In, includeFields_includes, negb_true_iff, bool_decide_eq_false.
  unfold toManyPaths. rewrite in_map_iff.
  split.
  - intros [[fa [<- Hin]] Hhint]. apply filter_In in Hin as [Hin Hb].
    apply andb_true_iff in Hb as [Hr Hm]. split; [eauto 6|].
    intros Heq. destruct (decide (dbPath fa = "")); [done|]. exfalso. tauto.
  - intros [[fa (Hin & Hr & Hm & <-)] Hhint]. split.
    + exists fa. split; [done|]. apply filter_In. by rewrite Hr, Hm.
    + intros [Heq Hne]. by apply Hne, Hhint.
Qed.

(** C24: the code does not meet the contract of the spec: every to-many
    field traversed by a relationship branch of the level (its
    [relationshipInfo.field]) and not named by the [include] hint is
    excluded by the code, while the spec retains it. *)
Theorem excludeFields_keeps_branch_field (fas : list FieldAdapter) (rels : list RelEntry)
  (include : jsval) (f : string) (e : RelEntry) :
  In f (toManyPaths fas) -> In e rels -> branchField e = JStr f -> include <> JStr f ->
  In f (excludeFieldsOf fas rels include) /\ ~ In f (excludeFieldsSpec fas rels include).
Proof.
  intros Hf He Hb Hi. unfold excludeFieldsOf, excludeFieldsSpec. rewrite !filter_In. split.
  - split; [done|]. rewrite includeFields_includes. apply negb_true_iff, bool_decide_eq_false. tauto.
  - intros [_ Hn]. apply negb_true_iff in Hn. apply Bool.not_true_iff_false in Hn. apply Hn.
    apply existsb_exists. exists (JStr f). split; [|apply String.eqb_refl].
    apply in_or_app. left. apply in_map_iff. by exists e.
Qed.

Lemma excludeFields_keeps_branch_field_witness :
  (In "posts" (toManyPaths sampleFieldAdapters) /\
   In (mkRelEntry (JObj [("field", JStr "posts")]) (mkParseResult JUndefined [] [] []))
      [mkRelEntry (JObj [("field", JStr "posts")]) (mkParseResult JUndefined [] [] [])] /\
   branchField (mkRelEntry (JObj [("field", JStr "posts")]) (mkParseResult JUndefined [] [] [])) = JStr "posts" /\
   JUndefined <> JStr "posts") /\
  In "posts" (excludeFieldsOf sampleFieldAdapters
                [mkRelEntry (JObj [("field", JStr "posts")]) (mkParseResult JUndefined [] [] [])] JUndefined) /\
  ~ In "posts" (excludeFieldsSpec sampleFieldAdapters
                  [mkRelEntry (JObj [("field", JStr "posts")]) (mkParseResult JUndefined [] [] [])] JUndefined).
Proof.
  assert (H1 : In "posts" (toManyPaths sampleFieldAdapters)) by (cbn; tauto).
  assert (H2 : In (mkRelEntry (JObj [("field", JStr "posts")]) (mkParseResult JUndefined [] [] []))
                  [mkRelEntry (JObj [("field", JStr "posts")]) (mkParseResult JUndefined [] [] [])]) by (left; reflexivity).
  assert (H3 : JUndefined <> JStr "posts") by discriminate.
  split; [split; [exact H1 | split; [exact H2 | split; [reflexivity | exact H3]]]|].
  exact (excludeFields_keeps_branch_field _ _ _ _ _ H1 H2 eq_refl H3).
Defined.
