(* ===== verification/Suffix.v ===== *)
(** * Splitting a relationship key into field and quantifier suffix

    The identity shortcut needs the quantifier of a relationship key
    ([posts_some], [posts_every], [posts_none], or a bare [author]).  The
    two variants find it differently:
    - variant 1 ([mongo-join-builder], line 56):
      [key.replace(relationshipInfo.field, '')] removes the first
      occurrence of the field's name ([KeyReplace.replaceFirst]);
    - variant 2 ([adapter-mongoose], line 51):
      [key.split(/(\_some|\_every|\_none)+$/gm)], then
      [fieldParser[0]] is the field and [fieldParser[1]] (or ['_only']) the
      quantifier ([KeySplit.splitSuffix]).

    [KeySplit] writes out what [String.prototype.split] does with this
    regular expression: it scans the key left to right, tries a match at
    each position, and on a match pushes the text before it and the
    group's capture.  The match is [(\_some|\_every|\_none)+] taken
    greedily, then [$], which with the [m] flag holds at the end of the
    key or before a line terminator; when [$] fails after the longest run
    the matcher backtracks one repetition at a time.  The capture of a
    repeated group is its last iteration.  Only line feed and carriage
    return are line terminators of 8-bit strings (U+2028 and U+2029 do
    not occur).  The matcher is structural on the key: a token is
    recognised by comparing the next five or six characters. *)

From Stdlib Require Import String Ascii ZArith.
From stdpp Require Import base list strings.
From S2P Require Import Prelude JsValue.

Open Scope string_scope.

(** ** Shared string helpers *)

Fixpoint str_drop (n : nat) (s : string) : string :=
  match n, s with
  | 0, _ => s
  | S n', String _ s' => str_drop n' s'
  | S _, EmptyString => EmptyString
  end.

Lemma prefix_app (p t : string) : String.prefix p (p ++ t) = true.
Proof.
  induction p as [|c p IH]; simpl; [by destruct t|].
  destruct (ascii_dec c c); [exact IH | congruence].
Qed.

Lemma str_drop_app (p t : string) : str_drop (String.length p) (p ++ t) = t.
Proof. induction p as [|c p IH]; [reflexivity | exact IH]. Qed.

Lemma str_app_assoc (a b c : string) : (a ++ b) ++ c = a ++ (b ++ c).
Proof. induction a as [|x a IH]; simpl; congruence. Qed.

Lemma str_length_app (a b : string) : String.length (a ++ b) = String.length a + String.length b.
Proof. induction a as [|x a IH]; simpl; congruence. Qed.

Lemma str_app_nil_r (a : string) : a ++ EmptyString = a.
Proof. induction a as [|x a IH]; simpl; congruence. Qed.

#[export] Hint Rewrite prefix_app str_drop_app str_app_assoc str_length_app str_app_nil_r : kjs_rw.

(** ** Variant 1: [key.replace(field, '')] *)

Module KeyReplace.

(** [s.replace(pat, '')] for a string [pat]: the first occurrence is
    removed; without one the string is unchanged. *)
Fixpoint replaceFirst (pat s : string) : string :=
  if String.prefix pat s then str_drop (String.length pat) s
  else match s with
       | EmptyString => EmptyString
       | String c s' => String c (replaceFirst pat s')
       end.

(** Removing the field name from a key that starts with it leaves the
    suffix: [replaceFirst f (f ++ t) = t]. *)
Theorem replaceFirst_prefix (f t : string) : replaceFirst f (f ++ t) = t.
Proof.
  destruct f as [|c f]; simpl.
  - by destruct t.
  - destruct (ascii_dec c c); [|congruence]. rewrite prefix_app. apply str_drop_app.
Qed.

End KeyReplace.

(** ** Variant 2: [key.split(/(\_some|\_every|\_none)+$/gm)] *)

Module KeySplit.

Definition LF : ascii := "010".
Definition CR : ascii := "013".

(** The assertion [$] under the [m] flag. *)
Definition atLineEnd (s : string) : bool :=
  match s with
  | EmptyString => true
  | String c _ => Ascii.eqb c LF || Ascii.eqb c CR
  end.

(** After one iteration [tok], with [deeper] the outcome of the greedy
    attempt at more iterations on the rest [r]: a longer match wins;
    otherwise the match ends here if [$] holds. *)
Definition afterToken (tok r : string) (deeper : option (string * nat)) : option (string * nat) :=
  match deeper with
  | Some (cap, n) => Some (cap, String.length tok + n)
  | None => if atLineEnd r then Some (tok, String.length tok) else None
  end.

(** The match of [(\_some|\_every|\_none)+$] anchored at the start of
    [s]: the capture (the last iteration) and the length matched. *)
Fixpoint suffixMatch (s : string) : option (string * nat) :=
  match s with
  | String c1 (String c2 (String c3 (String c4 (String c5 r)))) =>
      let w5 := String c1 (String c2 (String c3 (String c4 (String c5 EmptyString)))) in
      if String.eqb w5 "_some" then afterToken "_some" r (suffixMatch r)
      else if String.eqb w5 "_none" then afterToken "_none" r (suffixMatch r)
      else match r with
           | String c6 r' =>
               if String.eqb (w5 ++ String c6 EmptyString) "_every"
               then afterToken "_every" r' (suffixMatch r')
               else None
           | EmptyString => None
           end
  | _ => None
  end.

(** The scan of [split]: [acc] is the text since the last match,
    [skip] the characters of the current match still to pass over. *)
Fixpoint splitScan (s : string) (skip : nat) (acc : string) : list string :=
  match s with
  | EmptyString => [acc]
  | String c s' =>
      match skip with
      | S k => splitScan s' k acc
      | 0 =>
          match suffixMatch s with
          | Some (cap, n) => acc :: cap :: splitScan s' (n - 1) EmptyString
          | None => splitScan s' 0 (acc ++ String c EmptyString)
          end
      end
  end.

Definition splitSuffix (key : string) : list string := splitScan key 0 EmptyString.

(** Line 52 and [fieldParser[0]]. *)
Definition filterTypeOf (fieldParser : list string) : string :=
  if (1 <? List.length fieldParser)%nat then nth 1 fieldParser EmptyString else "_only".

Definition fieldOf (fieldParser : list string) : string := nth 0 fieldParser EmptyString.

Definition isToken (t : string) : Prop := t = "_some" \/ t = "_every" \/ t = "_none".

(** *** Lemmas *)

Lemma suffixMatch_token t r :
  isToken t -> suffixMatch (t ++ r) = afterToken t r (suffixMatch r).
Proof. intros [->|[->| ->]]; reflexivity. Qed.

(** A match starts with a token. *)
Lemma suffixMatch_inv s x :
  suffixMatch s = Some x -> exists t r, isToken t /\ s = t ++ r.
Proof.
  destruct s as [|c1 [|c2 [|c3 [|c4 [|c5 r]]]]]; try discriminate. cbn [suffixMatch].
  set (w5 := String c1 (String c2 (String c3 (String c4 (String c5 EmptyString))))).
  destruct (String.eqb_spec w5 "_some") as [E|_].
  { intros _. exists "_some", r. split; [left; done|]. by rewrite <- E. }
  destruct (String.eqb_spec w5 "_none") as [E|_].
  { intros _. exists "_none", r. split; [right; right; done|]. by rewrite <- E. }
  destruct r as [|c6 r']; [intros H; discriminate H|].
  destruct (String.eqb_spec (w5 ++ String c6 EmptyString) "_every") as [E|_];
    [|intros H; discriminate H].
  intros _. exists "_every", r'. split; [right; left; done|].
  rewrite <- E. reflexivity.
Qed.

(** A token's underscore is its first character only. *)
Lemma token_no_inner_underscore t q w :
  isToken t -> q <> EmptyString -> t <> q ++ String "_" w.
Proof.
  intros Ht Hq Heq. destruct Ht as [->|[->| ->]];
    do 7 (destruct q as [|? q]; cbn [String.append] in Heq;
          [first [congruence | discriminate Heq]
          | first [discriminate Heq | injection Heq as ? Heq; subst]]).
Qed.

Lemma atLineEnd_app_nonempty q t : q <> EmptyString -> atLineEnd (q ++ t) = atLineEnd q.
Proof. by destruct q. Qed.

Lemma app_eq_prefix_cases (q t u r : string) :
  q ++ t = u ++ r ->
  (exists q', q = u ++ q' /\ r = q' ++ t) \/ (exists w, u = q ++ w /\ t = w ++ r /\ w <> EmptyString).
Proof.
  revert u. induction q as [|c q IH]; intros u H.
  - destruct u as [|c u]; [left; exists EmptyString; done|].
    right. exists (String c u). done.
  - destruct u as [|c' u]; simpl in H.
    + left. exists (String c q). done.
    + injection H as -> H. destruct (IH u H) as [[q' [-> ->]] | [w (-> & -> & Hw)]].
      * left. by exists q'.
      * right. by exists w.
Qed.

(** The key step of the round trip: appending a token to a non-empty
    text with no match at its start creates none there. *)
Lemma suffixMatch_app_token q t :
  isToken t -> q <> EmptyString -> suffixMatch q = None -> suffixMatch (q ++ t) = None.
Proof.
  intros Ht. induction q as [q IH] using (induction_ltof1 _ String.length). intros Hq Hnone.
  destruct (suffixMatch (q ++ t)) as [x|] eqn:E; [exfalso|done].
  destruct (suffixMatch_inv _ _ E) as (u & r & Hu & Heq).
  destruct (app_eq_prefix_cases _ _ _ _ Heq) as [[q' [-> ->]] | [w (-> & Htw & Hw)]].
  - rewrite str_app_assoc, suffixMatch_token in E by done.
    rewrite suffixMatch_token in Hnone by done.
    unfold afterToken in Hnone, E.
    destruct (suffixMatch q') as [[? ?]|] eqn:Eq'; [discriminate Hnone|].
    destruct (atLineEnd q') eqn:Hle; [discriminate Hnone|].
    assert (q' <> EmptyString) as Hq' by (by intros ->).
    rewrite IH in E; [| unfold ltof; rewrite str_length_app; destruct Hu as [->|[->| ->]]; simpl; lia | done | done].
    by rewrite atLineEnd_app_nonempty, Hle in E.
  - destruct Ht as [->|[->| ->]]; destruct w as [|c w]; try done;
      simpl in Htw; injection Htw as Hc _; subst c;
      exact (token_no_inner_underscore _ q w Hu Hq eq_refl).
Qed.

(** No position of [s] starts a match. *)
Definition noMatchIn (s : string) : Prop :=
  forall p q, s = p ++ q -> q <> EmptyString -> suffixMatch q = None.

Lemma noMatchIn_cons c s : noMatchIn (String c s) -> noMatchIn s.
Proof. intros H p q -> Hq. by apply (H (String c p)). Qed.

Lemma noMatchIn_head c s : noMatchIn (String c s) -> suffixMatch (String c s) = None.
Proof. intros H. by apply (H EmptyString). Qed.

(** A scan that yields one piece met no match. *)
Lemma splitScan_single_noMatch s acc x : splitScan s 0 acc = [x] -> noMatchIn s.
Proof.
  revert acc. induction s as [|c s IH]; intros acc H p q Heq Hq.
  - destruct p; [subst; done | discriminate].
  - cbn [splitScan] in H. destruct (suffixMatch (String c s)) as [[cap n]|] eqn:E; [discriminate H|].
    destruct p as [|c' p]; simpl in Heq; [by subst|].
    injection Heq as <- ->. eapply IH; eauto.
Qed.

Lemma splitScan_skip s acc : splitScan s (String.length s) acc = [acc].
Proof. induction s as [|c s IH]; [reflexivity | exact IH]. Qed.

(** A run of quantifier tokens [t ++ ts]. *)
Definition tokenRun (t : string) (ts : list string) : string := t ++ fold_right String.append EmptyString ts.

Lemma last_cons_nonempty (t' : string) (ts : list string) (d : string) :
  List.last (t' :: ts) d = List.last ts t'.
Proof.
  revert t' d. induction ts as [|s ts IH]; intros t' d; [reflexivity|].
  change (List.last (t' :: s :: ts) d) with (List.last (s :: ts) d). by rewrite !IH.
Qed.

(** The greedy repetition matches a whole run of tokens at the end of the
    key and captures its last token. *)
Lemma suffixMatch_tokenRun t ts :
  isToken t -> Forall isToken ts ->
  suffixMatch (tokenRun t ts) = Some (List.last ts t, String.length (tokenRun t ts)).
Proof.
  intros Ht Hts. revert t Ht. induction Hts as [|t' ts Ht' _ IH]; intros t Ht; unfold tokenRun.
  - cbn [fold_right]. rewrite str_app_nil_r. rewrite <- (str_app_nil_r t) at 1.
    by rewrite suffixMatch_token.
  - cbn [fold_right]. rewrite suffixMatch_token by done. fold (tokenRun t' ts). rewrite (IH t' Ht').
    cbn [afterToken]. rewrite last_cons_nonempty. f_equal. f_equal. unfold tokenRun. cbn [fold_right].
    symmetry. apply str_length_app.
Qed.

(** Appending a run of tokens to a non-empty text with no match at its
    start creates none there. *)
Lemma suffixMatch_app_tokenRun q t ts :
  isToken t -> Forall isToken ts -> q <> EmptyString -> suffixMatch q = None ->
  suffixMatch (q ++ tokenRun t ts) = None.
Proof.
  intros Ht Hts. revert q t Ht. induction Hts as [|t' ts Ht' _ IH]; intros q t Ht Hq Hnone; unfold tokenRun.
  - cbn [fold_right]. rewrite str_app_nil_r. by apply suffixMatch_app_token.
  - cbn [fold_right]. rewrite <- str_app_assoc. fold (tokenRun t' ts). apply IH; [done | | by apply suffixMatch_app_token].
    by destruct q.
Qed.

Lemma splitScan_app_tokenRun b t ts acc :
  isToken t -> Forall isToken ts -> noMatchIn b ->
  splitScan (b ++ tokenRun t ts) 0 acc = [acc ++ b; List.last ts t; EmptyString].
Proof.
  intros Ht Hts. revert acc. induction b as [|c b IH]; intros acc Hb.
  - cbn [String.append]. rewrite str_app_nil_r.
    pose proof (suffixMatch_tokenRun t ts Ht Hts) as E.
    destruct (tokenRun t ts) as [|c r] eqn:Er.
    + destruct Ht as [->|[->| ->]]; discriminate Er.
    + cbn [splitScan]. rewrite E. cbn [String.length]. rewrite Nat.sub_succ, Nat.sub_0_r, splitScan_skip. reflexivity.
  - assert (E : suffixMatch (String c (b ++ tokenRun t ts)) = None).
    { apply (suffixMatch_app_tokenRun (String c b) t ts Ht Hts); [done | by apply noMatchIn_head]. }
    cbn [String.append splitScan]. rewrite E.
    rewrite IH by (by eapply noMatchIn_cons). by rewrite str_app_assoc.
Qed.

Lemma splitScan_app_token b t acc :
  isToken t -> noMatchIn b -> splitScan (b ++ t) 0 acc = [acc ++ b; t; EmptyString].
Proof.
  intros Ht Hb. assert (E : b ++ t = b ++ tokenRun t []) by (unfold tokenRun; cbn [fold_right]; by rewrite str_app_nil_r).
  rewrite E, splitScan_app_tokenRun; [reflexivity | done | constructor | done].
Qed.

(** *** Properties *)

(** C35: the split of a field name followed by one quantifier suffix, when
    the field name itself ends in no suffix ([splitSuffix b = [b]]), is
    [[b; t; ""]]: [fieldParser[0]] is the field and [fieldParser[1]] the
    quantifier. *)
Theorem splitSuffix_roundtrip (b t : string) :
  splitSuffix b = [b] -> isToken t -> splitSuffix (b ++ t) = [b; t; EmptyString].
Proof.
  intros Hb Ht. unfold splitSuffix. rewrite splitScan_app_token; [reflexivity | done |].
  by eapply splitScan_single_noMatch.
Qed.

Lemma splitSuffix_roundtrip_witness :
  (splitSuffix "posts" = ["posts"] /\ isToken "_some") /\
  splitSuffix ("posts" ++ "_some") = ["posts"; "_some"; EmptyString].
Proof.
  split; [split; [reflexivity | left; reflexivity] |].
  apply splitSuffix_roundtrip; [reflexivity | left; reflexivity].
Defined.

(** C36: the greedy repetition swallows a field name that ends in a
    quantifier token: for every field name [b ++ t1] whose part [b] ends
    in no token, queried with the suffix [t2], [fieldParser] is
    [[b; t2; ""]], so the condition is written on the field [b], not on
    [b ++ t1] (for instance [status_none] queried with [_some]). *)
Theorem splitSuffix_field_ending_in_token (b t1 t2 : string) :
  splitSuffix b = [b] -> isToken t1 -> isToken t2 ->
  splitSuffix ((b ++ t1) ++ t2) = [b; t2; EmptyString].
Proof.
  intros Hb Ht1 Ht2. unfold splitSuffix.
  assert (E : (b ++ t1) ++ t2 = b ++ tokenRun t1 [t2])
    by (unfold tokenRun; cbn [fold_right]; by rewrite str_app_nil_r, str_app_assoc).
  rewrite E.
  rewrite splitScan_app_tokenRun; [reflexivity | done | constructor; [done | constructor] |].
  by eapply splitScan_single_noMatch.
Qed.

Lemma splitSuffix_field_ending_in_token_witness :
  (splitSuffix "status" = ["status"] /\ isToken "_none" /\ isToken "_some") /\
  splitSuffix (("status" ++ "_none") ++ "_some") = ["status"; "_some"; EmptyString].
Proof.
  assert (Hb : splitSuffix "status" = ["status"]) by reflexivity.
  assert (H1 : isToken "_none") by (right; right; reflexivity).
  assert (H2 : isToken "_some") by (left; reflexivity).
  split; [tauto|]. exact (splitSuffix_field_ending_in_token _ _ _ Hb H1 H2).
Defined.

End KeySplit.
