(* ===== verification/Shortcut.v ===== *)
(** * The identity shortcut of relationship filters

    For a relationship key whose filter has exactly one key, an identity
    predicate ([id], [id_not], [id_in], [id_not_in]), both variants try to
    replace the join by a comparison on the foreign key
    ("Extremely improve mongodb query, using indexes"):
    - [shortcut1]: [mongo-join-builder/lib/query-parser.js], lines 55-74;
    - [shortcut2]: [adapter-mongoose/lib/query-parser.js], lines 49-70.
    Each returns [Ok (Some term)] when the code returns
    [{ matchTerm: queryCondition }], [Ok None] when it falls through to the
    relationship branch, and [Throw] when [ObjectId] or [.map] throws.

    The theorems reduce each chain of tests to a table indexed by the
    predicate and the quantifier suffix of the key ([table1], [table2]),
    compare the tables with the table of the spec (section 4.3) and with
    each other, and give the two laws the parser relies on
    ([Collaborators.QueryVariantLaws]). *)

From Stdlib Require Import String ZArith.
From stdpp Require Import base list strings.
From S2P Require Import Prelude JsValue Collaborators Suffix.

Open Scope string_scope.

(** ** Shared pieces of the two variants *)

(** [filterType === a || filterType === b || ...] *)
Definition oneOf (s : string) (l : list string) : bool := existsb (String.eqb s) l.

(** Line 55 / 49: [Object.keys(value).length == 1 && (value.id ||
    value.id_not || value.id_in || value.id_not_in)]. *)
Definition identityGuard (value : jsval) : bool :=
  (key_count value =? 1)%nat &&
  (truthy (js_get value "id") || truthy (js_get value "id_not") ||
   truthy (js_get value "id_in") || truthy (js_get value "id_not_in")).

Section WithAdapter.
Context `{LA : ListAdapter}.

(** [v.map(el => ObjectId(el))]; [expr] names [v] in the [TypeError]
    thrown when [v] has no [map] method. *)
Definition mapObjectIds (v : jsval) (expr : string) : jsres jsval :=
  match v with
  | JArr xs => let! ys := rmapM objectId xs in Ok (JArr ys)
  | _ => Throw (ETypeError (expr ++ ".map is not a function"))
  end.

(** [queryCondition[field] = cond] on the empty object, then
    [Object.keys(queryCondition).length > 0]: assigning to [__proto__]
    sets the prototype and creates no own key. *)
Definition queryConditionFor (field : string) (cond : option jsval) : option jsval :=
  match cond with
  | Some c => if String.eqb field "__proto__" then None else Some (JObj [(field, c)])
  | None => None
  end.

(** ** Variant 1 *)

(** Lines 55-74: the suffix is what [key.replace(relationshipInfo.field, '')]
    leaves (note the test [filterType === 'some'] of line 64); reading
    [relationshipInfo.field] throws when the tokenizer returned no
    [relationshipInfo]. *)
Definition shortcut1 (key : string) (relationshipInfo value : jsval) : jsres (option jsval) :=
  if identityGuard value then
    let! rfield := js_read relationshipInfo "field" in
    let field := js_to_string rfield in
    let filterType := KeyReplace.replaceFirst field key in
    let! cond :=
      if truthy (js_get value "id") then
        if oneOf filterType [""; "_some"; "_every"] then
          let! o := objectId (js_get value "id") in Ok (Some (JObj [("$eq", o)]))
        else if String.eqb filterType "_none" then
          let! o := objectId (js_get value "id") in Ok (Some (JObj [("$ne", o)]))
        else Ok None
      else if truthy (js_get value "id_not") && oneOf filterType [""; "some"; "_every"; "_none"] then
        let! o := objectId (js_get value "id_not") in Ok (Some (JObj [("$ne", o)]))
      else if truthy (js_get value "id_in") && oneOf filterType [""; "_some"] then
        let! os := mapObjectIds (js_get value "id_in") "value.id_in" in
        Ok (Some (JObj [("$in", os)]))
      else if truthy (js_get value "id_not_in") && oneOf filterType [""; "_every"] then
        let! os := mapObjectIds (js_get value "id_not_in") "value.id_not_in" in
        Ok (Some (JObj [("$not", JObj [("$in", os)])]))
      else Ok None
    in Ok (queryConditionFor field cond)
  else Ok None.

(** ** Variant 2 *)

(** Lines 49-70: [fieldParser = key.split(...)], the field is
    [fieldParser[0]] and the suffix [fieldParser[1]] or ['_only']. *)
Definition shortcut2 (key : string) (value : jsval) : jsres (option jsval) :=
  if identityGuard value then
    let fieldParser := KeySplit.splitSuffix key in
    let filterType := KeySplit.filterTypeOf fieldParser in
    let field := KeySplit.fieldOf fieldParser in
    let! cond :=
      if truthy (js_get value "id") then
        if oneOf filterType ["_only"; "_some"; "_every"] then
          let! o := objectId (js_get value "id") in Ok (Some (JObj [("$eq", o)]))
        else if String.eqb filterType "_none" then
          let! o := objectId (js_get value "id") in Ok (Some (JObj [("$ne", o)]))
        else Ok None
      else if truthy (js_get value "id_not") &&
              oneOf filterType ["_only"; "_some"; "_every"; "_none"] then
        let! o := objectId (js_get value "id_not") in Ok (Some (JObj [("$ne", o)]))
      else if truthy (js_get value "id_in") && oneOf filterType ["_only"; "_some"] then
        let! os := mapObjectIds (js_get value "id_in") "value.id_in" in
        Ok (Some (JObj [("$in", os)]))
      else if truthy (js_get value "id_not_in") && oneOf filterType ["_only"; "_every"] then
        let! os := mapObjectIds (js_get value "id_not_in") "value.id_not_in" in
        Ok (Some (JObj [("$not", JObj [("$in", os)])]))
      else Ok None
    in Ok (queryConditionFor field cond)
  else Ok None.

End WithAdapter.

(** ** The table of cases *)

(** The quantifier suffix of a relationship key; [QOne] is a bare key. *)
Inductive Quant : Type := QOne | QSome | QEvery | QNone.

Definition quantSuffix (q : Quant) : string :=
  match q with QOne => "" | QSome => "_some" | QEvery => "_every" | QNone => "_none" end.

(** The identity predicate of a one-key relationship filter. *)
Inductive IdPred : Type := PId | PIdNot | PIdIn | PIdNotIn.

Definition idPredKey (p : IdPred) : string :=
  match p with PId => "id" | PIdNot => "id_not" | PIdIn => "id_in" | PIdNotIn => "id_not_in" end.

Inductive CmpOp : Type := OpEq | OpNe | OpIn | OpNotIn.

Definition buildCond (op : CmpOp) (a : jsval) : jsval :=
  match op with
  | OpEq => JObj [("$eq", a)]
  | OpNe => JObj [("$ne", a)]
  | OpIn => JObj [("$in", a)]
  | OpNotIn => JObj [("$not", JObj [("$in", a)])]
  end.

#[export] Instance Quant_eq_dec : EqDecision Quant.
Proof. solve_decision. Defined.
#[export] Instance IdPred_eq_dec : EqDecision IdPred.
Proof. solve_decision. Defined.
#[export] Instance CmpOp_eq_dec : EqDecision CmpOp.
Proof. solve_decision. Defined.

(** The table of section 4.3 of the spec. *)
Definition specTable (p : IdPred) (q : Quant) : option CmpOp :=
  match p, q with
  | PId, QNone => Some OpNe
  | PId, _ => Some OpEq
  | PIdNot, QNone => None
  | PIdNot, _ => Some OpNe
  | PIdIn, (QOne | QSome) => Some OpIn
  | PIdNotIn, (QOne | QEvery) => Some OpNotIn
  | _, _ => None
  end.

(** The tables the two chains of tests implement. *)
Definition table1 (p : IdPred) (q : Quant) : option CmpOp :=
  match p, q with
  | PId, QNone => Some OpNe
  | PId, _ => Some OpEq
  | PIdNot, QSome => None
  | PIdNot, _ => Some OpNe
  | PIdIn, (QOne | QSome) => Some OpIn
  | PIdNotIn, (QOne | QEvery) => Some OpNotIn
  | _, _ => None
  end.

Definition table2 (p : IdPred) (q : Quant) : option CmpOp :=
  match p, q with
  | PId, QNone => Some OpNe
  | PId, _ => Some OpEq
  | PIdNot, _ => Some OpNe
  | PIdIn, (QOne | QSome) => Some OpIn
  | PIdNotIn, (QOne | QEvery) => Some OpNotIn
  | _, _ => None
  end.

Section Tables.
Context `{LA : ListAdapter}.

(** The conversion of the predicate's argument. *)
Definition convertArg (p : IdPred) (v : jsval) : jsres jsval :=
  match p with
  | PId | PIdNot => objectId v
  | PIdIn => mapObjectIds v "value.id_in"
  | PIdNotIn => mapObjectIds v "value.id_not_in"
  end.

(** What a table cell yields for field [f]. *)
Definition cellResult (f : string) (cell : option CmpOp) (p : IdPred) (v : jsval)
  : jsres (option jsval) :=
  match cell with
  | Some op => let! a := convertArg p v in Ok (Some (JObj [(f, buildCond op a)]))
  | None => Ok None
  end.

Lemma identityGuard_single p v :
  truthy v = true -> identityGuard (JObj [(idPredKey p, v)]) = true.
Proof. intros Hv. destruct p; unfold identityGuard; simpl; rewrite Hv; by rewrite ?orb_true_r. Qed.

Ltac cell_tac Hv Hp :=
  cbn; rewrite ?Hv; cbn;
  first [ reflexivity
        | destruct (objectId _); cbn; rewrite ?Hp; reflexivity
        | destruct (mapObjectIds _ _); cbn; rewrite ?Hp; reflexivity ].

(** Variant 1's chain of tests is the table [table1]: for a key
    [f ++ suffix] whose [relationshipInfo.field] is [f], and a one-key
    filter [{ p: v }] with [v] truthy, [shortcut1] yields the cell's
    comparison on [f], the conversion's exception, or no shortcut. *)
Theorem shortcut1_table (f : string) (info : jsval) (p : IdPred) (q : Quant) (v : jsval) :
  js_get info "field" = JStr f -> f <> "__proto__" -> truthy v = true ->
  shortcut1 (f ++ quantSuffix q) info (JObj [(idPredKey p, v)]) = cellResult f (table1 p q) p v.
Proof.
  intros Hf Hp Hv. apply String.eqb_neq in Hp. unfold shortcut1.
  rewrite identityGuard_single by done. rewrite (js_read_get _ _ _ Hf). cbn [rbind js_to_string].
  rewrite KeyReplace.replaceFirst_prefix.
  destruct p, q; cell_tac Hv Hp.
Qed.

(** Variant 2's chain of tests is the table [table2], for a field
    name [f] that contains no quantifier suffix of its own. *)
Theorem shortcut2_table (f : string) (p : IdPred) (q : Quant) (v : jsval) :
  KeySplit.splitSuffix f = [f] -> f <> "__proto__" -> truthy v = true ->
  shortcut2 (f ++ quantSuffix q) (JObj [(idPredKey p, v)]) = cellResult f (table2 p q) p v.
Proof.
  intros Hs Hp Hv. apply String.eqb_neq in Hp. unfold shortcut2.
  rewrite identityGuard_single by done. cbv zeta.
  assert (Hsplit : KeySplit.fieldOf (KeySplit.splitSuffix (f ++ quantSuffix q)) = f /\
                   KeySplit.filterTypeOf (KeySplit.splitSuffix (f ++ quantSuffix q)) =
                   match q with QOne => "_only" | _ => quantSuffix q end).
  { destruct q; [rewrite str_app_nil_r, Hs; split; reflexivity | ..];
      (unfold KeySplit.splitSuffix; rewrite KeySplit.splitScan_app_token;
       [split; reflexivity | unfold KeySplit.isToken; tauto | by eapply KeySplit.splitScan_single_noMatch]). }
  destruct Hsplit as [-> ->].
  destruct p, q; cell_tac Hv Hp.
Qed.
End Tables.

(** ** Comparing the tables *)

(** C20: the cells where the code departs from the table of the spec:
    variant 1 skips [id_not] with [_some] (its test reads ['some'], a
    string no suffix equals) and both variants rewrite [id_not] with
    [_none] into [$ne], a cell the spec leaves to the join. *)
Theorem tables_vs_spec :
  (forall p q, table1 p q <> specTable p q <-> p = PIdNot /\ (q = QSome \/ q = QNone)) /\
  (forall p q, table2 p q <> specTable p q <-> p = PIdNot /\ q = QNone).
Proof. split; intros [] []; cbn; intuition congruence. Qed.

Section Variants.
Context `{LA : ListAdapter}.

(** C21: on keys made of a field name and a quantifier suffix, the two
    variants' shortcuts agree everywhere but on [id_not] with [_some],
    where variant 1 falls back to the join. *)
Theorem shortcut_variants_agree (f : string) (p : IdPred) (q : Quant) (v : jsval) :
  KeySplit.splitSuffix f = [f] -> f <> "__proto__" -> truthy v = true ->
  shortcut1 (f ++ quantSuffix q) (JObj [("field", JStr f)]) (JObj [(idPredKey p, v)]) =
  if bool_decide (p = PIdNot /\ q = QSome) then Ok None
  else shortcut2 (f ++ quantSuffix q) (JObj [(idPredKey p, v)]).
Proof.
  intros Hs Hp Hv. rewrite shortcut1_table, shortcut2_table by done.
  destruct p, q; reflexivity.
Qed.

(** C30: an [id_in] or [id_not_in] argument that is truthy but not an
    array makes the shortcut throw the [TypeError] of [.map] in every
    cell it rewrites, instead of falling back to the join. *)
Theorem shortcut2_list_arg_not_array (f : string) (p : IdPred) (q : Quant) (v : jsval) :
  KeySplit.splitSuffix f = [f] -> f <> "__proto__" -> truthy v = true ->
  (forall xs, v <> JArr xs) -> p = PIdIn \/ p = PIdNotIn -> table2 p q <> None ->
  shortcut2 (f ++ quantSuffix q) (JObj [(idPredKey p, v)]) =
    Throw (ETypeError ("value." ++ idPredKey p ++ ".map is not a function")).
Proof.
  intros Hs Hp Hv Harr Hpred Hcell. rewrite shortcut2_table by done. unfold cellResult.
  destruct (table2 p q) as [op|]; [|contradiction].
  destruct Hpred as [-> | ->]; destruct v; try (by destruct (Harr xs)); reflexivity.
Qed.

(** ** The laws of the variant interface *)

Lemma identityGuard_one_key value : (key_count value <> 1)%nat -> identityGuard value = false.
Proof. intros H. unfold identityGuard. by rewrite (proj2 (Nat.eqb_neq _ _) H). Qed.

Lemma identityGuard_identity value :
  truthy (js_get value "id") = false -> truthy (js_get value "id_not") = false ->
  truthy (js_get value "id_in") = false -> truthy (js_get value "id_not_in") = false ->
  identityGuard value = false.
Proof. intros H1 H2 H3 H4. unfold identityGuard. rewrite H1, H2, H3, H4. apply andb_false_r. Qed.

Lemma shortcut1_off key info value : identityGuard value = false -> shortcut1 key info value = Ok None.
Proof. intros H. unfold shortcut1. by rewrite H. Qed.

Lemma shortcut2_off key value : identityGuard value = false -> shortcut2 key value = Ok None.
Proof. intros H. unfold shortcut2. by rewrite H. Qed.
End Variants.

(** ** When the shortcut throws nothing *)

Section ArgsTotal.
Context `{LA : ListAdapter}.
(** The arguments [ObjectId] accepts, and the assumption that it accepts
    them without throwing. *)
Variable idArgOk : jsval -> bool.
Hypothesis objectId_total : forall v, idArgOk v = true -> exists o, objectId v = Ok o.

(** A falsy argument, or one [ObjectId] accepts. *)
Definition argOk (a : jsval) : bool := negb (truthy a) || idArgOk a.

(** A falsy argument, or an array of arguments [ObjectId] accepts. *)
Definition listArgOk (a : jsval) : bool :=
  negb (truthy a) || match a with JArr xs => forallb idArgOk xs | _ => false end.

Definition identityArgsOk (v : jsval) : bool :=
  argOk (js_get v "id") && argOk (js_get v "id_not") &&
  listArgOk (js_get v "id_in") && listArgOk (js_get v "id_not_in").

Lemma objectId_arg a : argOk a = true -> truthy a = true -> exists o, objectId a = Ok o.
Proof. unfold argOk. intros H Ht. rewrite Ht in H. by apply objectId_total. Qed.

Lemma mapObjectIds_arg a e :
  listArgOk a = true -> truthy a = true -> exists os, mapObjectIds a e = Ok os.
Proof.
  unfold listArgOk. intros H Ht. rewrite Ht in H. cbn in H.
  destruct a as [| | | | | xs |]; try discriminate H. unfold mapObjectIds.
  assert (Hxs : exists ys, rmapM objectId xs = Ok ys).
  { clear Ht. induction xs as [|x xs IH]; [eauto|]. cbn in H. apply andb_true_iff in H as [Hx H].
    destruct (objectId_total x Hx) as [o Ho]. destruct (IH H) as [ys Hys].
    exists (o :: ys). cbn. by rewrite Ho, Hys. }
  destruct Hxs as [ys ->]. eauto.
Qed.

(** Case analysis on the chain of tests of a shortcut, converting the
    arguments that are reached. *)
Ltac shortcut_total_tac Hid Hnot Hin Hnin :=
  repeat first
    [ match goal with
      | |- context [truthy (js_get ?v ?k)] => destruct (truthy (js_get v k)) eqn:?
      | |- context [oneOf ?x ?l] => destruct (oneOf x l)
      | |- context [String.eqb ?x ?y] => destruct (String.eqb x y)
      | H : truthy ?a = true |- context [objectId ?a] =>
          first [ destruct (objectId_arg a Hid H) as [? ->]
                | destruct (objectId_arg a Hnot H) as [? ->] ]
      | H : truthy ?a = true |- context [mapObjectIds ?a ?e] =>
          first [ destruct (mapObjectIds_arg a e Hin H) as [? ->]
                | destruct (mapObjectIds_arg a e Hnin H) as [? ->] ]
      end
    | progress cbn [andb rbind] ];
  eauto.

Lemma shortcut1_total key info v :
  info <> JUndefined -> info <> JNull -> identityArgsOk v = true -> exists o, shortcut1 key info v = Ok o.
Proof.
  unfold identityArgsOk. rewrite !andb_true_iff. intros Hu Hn [[[Hid Hnot] Hin] Hnin].
  unfold shortcut1. destruct (identityGuard v); [|eauto].
  rewrite (js_read_ok _ _ Hu Hn). cbn [rbind]. cbv zeta.
  shortcut_total_tac Hid Hnot Hin Hnin.
Qed.

Lemma shortcut2_total key v :
  identityArgsOk v = true -> exists o, shortcut2 key v = Ok o.
Proof.
  unfold identityArgsOk. rewrite !andb_true_iff. intros [[[Hid Hnot] Hin] Hnin].
  unfold shortcut2. destruct (identityGuard v); [|eauto]. cbv zeta.
  shortcut_total_tac Hid Hnot Hin Hnin.
Qed.
End ArgsTotal.

Lemma shortcut_variants_agree_witness :
  (KeySplit.splitSuffix "posts" = ["posts"] /\ "posts" <> "__proto__" /\ truthy (JStr "5f1") = true) /\
  shortcut1 ("posts" ++ quantSuffix QEvery) (JObj [("field", JStr "posts")])
            (JObj [(idPredKey PIdNot, JStr "5f1")]) =
  shortcut2 ("posts" ++ quantSuffix QEvery) (JObj [(idPredKey PIdNot, JStr "5f1")]).
Proof.
  split; [split; [reflexivity | split; [discriminate | reflexivity]] |].
  apply (shortcut_variants_agree "posts" PIdNot QEvery (JStr "5f1")); [reflexivity | discriminate | reflexivity].
Defined.

Lemma shortcut2_list_arg_not_array_witness :
  (KeySplit.splitSuffix "posts" = ["posts"] /\ "posts" <> "__proto__" /\ truthy (JStr "a") = true /\
   (forall xs, JStr "a" <> JArr xs) /\ (PIdIn = PIdIn \/ PIdIn = PIdNotIn) /\ table2 PIdIn QSome <> None) /\
  shortcut2 ("posts" ++ quantSuffix QSome) (JObj [(idPredKey PIdIn, JStr "a")]) =
    Throw (ETypeError ("value." ++ idPredKey PIdIn ++ ".map is not a function")).
Proof.
  assert (H1 : KeySplit.splitSuffix "posts" = ["posts"]) by reflexivity.
  assert (H2 : "posts" <> "__proto__") by discriminate.
  assert (H3 : truthy (JStr "a") = true) by reflexivity.
  assert (H4 : forall xs, JStr "a" <> JArr xs) by discriminate.
  assert (H5 : PIdIn = PIdIn \/ PIdIn = PIdNotIn) by (left; reflexivity).
  assert (H6 : table2 PIdIn QSome <> None) by discriminate.
  split; [tauto|]. exact (shortcut2_list_arg_not_array "posts" PIdIn QSome (JStr "a") H1 H2 H3 H4 H5 H6).
Defined.
