(* ===== verification/Parser.v ===== *)
(** * The filter walk: [queryParser]

    [queryParserWith] is lines 19-95 of
    [mongo-join-builder/lib/query-parser.js] (18-91 of
    [adapter-mongoose/lib/query-parser.js]) over a [QueryVariant]: the
    type check of the query (lines 20-24), the to-many field list (25-27),
    the map over [Object.entries(query)] with its five branches
    ([parseEntry], lines 28-86), the merge with [$and] (87) and the
    exclusion (88-94).  The recursion is structural on the filter: into
    the elements of an [AND]/[OR] array and into a relationship's filter
    object; recursive calls pass no [include].  The generator state of
    [getUID] is threaded through the walk in evaluation order.

    [MongoJoinBuilder] and [AdapterMongoose] instantiate the walk with
    the two files' modifier lists, relationship tokenizer calls and
    shortcuts, and prove the variant laws.

    The theorems: flat filters (leaves and modifiers) compile to the
    [$and] of their leaf terms and the pipeline of their modifier stages
    in entry order, the first tokenizer exception escaping; [AND]/[OR];
    relationship branches and shortcuts; the type errors with their
    path; the generator is consumed once per relationship key. *)

From Stdlib Require Import String ZArith.
From stdpp Require Import base list strings.
From S2P Require Import Prelude JsValue Collaborators Joiner Exclusion Suffix Shortcut.

Open Scope string_scope.

(** The fields [flattenQueries] reads of a full result. *)
Definition toPartial (r : ParseResult) : Partial :=
  mkPartial (matchTerm r) (postJoinPipeline r) (relationships r).

Definition isLogicalKey (key : string) : bool := String.eqb key "AND" || String.eqb key "OR".

(** [{ AND: '$and', OR: '$or' }[key]] *)
Definition logicalOp (key : string) : string := if String.eqb key "AND" then "$and" else "$or".

(** The [TypeError] of [value.map(...)] on a value without [map]. *)
Definition mapTypeError (value : jsval) : exn :=
  match value with
  | JUndefined => ETypeError "Cannot read properties of undefined (reading 'map')"
  | JNull => ETypeError "Cannot read properties of null (reading 'map')"
  | _ => ETypeError "value.map is not a function"
  end.

Section Walk.
Context {St : Type} `{LA : ListAdapter} `{V : QueryVariant St}.

(** Lines 29-85: the result of one entry [key: value] of [query];
    [rec] is the recursive call without [include]. *)
Definition parseEntry (rec : jsval -> list seg -> stM St exn ParseResult)
    (query : jsval) (pathSoFar : list seg) (kv : string * jsval) : stM St exn Partial :=
  let '(key, value) := kv in
  let path := (pathSoFar ++ [PKey key])%list in
  if isLogicalKey key then
    match value with
    | JArr qs =>
        let* parsed := smapiM (fun index q => rec q (path ++ [PIdx index])%list) 0 qs in
        sret (flattenQueries (map toPartial parsed) (logicalOp key))
    | _ => sthrow (mapTypeError value)
    end
  else if isModifierKey key then
    let* stage := slift (modifierTokenizer query key path) in
    sret (mkPartial JUndefined [stage] [])
  else if String.eqb key "id" then
    if String.eqb (getType value) "Object" then sret (mkPartial (JObj [("_id", value)]) [] [])
    else let* t := slift (simpleTokenizer query key path) in sret (mkPartial t [] [])
  else if String.eqb (getType value) "Object" then
    let* tok := relationshipStep key path in
    let '(mt, relationshipInfo) := tok in
    let* shortcut := slift (relationshipShortcut key relationshipInfo value) in
    match shortcut with
    | Some queryCondition => sret (mkPartial queryCondition [] [])
    | None =>
        let* sub := rec value path in
        sret (mkPartial mt [] [mkRelEntry relationshipInfo sub])
    end
  else let* t := slift (simpleTokenizer query key path) in sret (mkPartial t [] []).

(** Lines 87-94. *)
Definition finishResult (parsedQueries : list Partial) (include : jsval) : ParseResult :=
  let flatQueries := flattenQueries parsedQueries "$and" in
  mkParseResult (pMatchTerm flatQueries) (pPipeline flatQueries) (pRelationships flatQueries)
                (excludeFieldsOf fieldAdapters (pRelationships flatQueries) include).

(** Lines 19-95. *)
Fixpoint queryParserWith (query : jsval) (pathSoFar : list seg) (include : jsval)
  : stM St exn ParseResult :=
  match query with
  | JObj props =>
      let* parsedQueries :=
        smapM (parseEntry (fun q p => queryParserWith q p JUndefined) query pathSoFar) props in
      sret (finishResult parsedQueries include)
  | _ => sthrow (EQueryType (getType query) pathSoFar)
  end.

End Walk.

(** ** The two files *)

Module MongoJoinBuilder.
Section V1.
Context {St : Type} `{LA : ListAdapter} `{U : UidGen St} `{R : RelTokenizer1}.

(** Line 37. *)
Definition isModifierKey1 (key : string) : bool :=
  oneOf key ["$search"; "$orderBy"; "$skip"; "$first"; "$count"].

(** Lines 47-52: [relationshipTokenizer(listAdapter, key, path, getUID(key))]. *)
Definition relationshipStep1 (key : string) (path : list seg) : stM St exn (jsval * jsval) :=
  fun s => let '(uid, s') := getUID key s in
           match relationshipTokenizer1 key path uid with
           | Ok tok => Ok (tok, s')
           | Throw e => Throw e
           end.

#[export] Instance variant : QueryVariant St := {
  isModifierKey := isModifierKey1;
  relationshipStep := relationshipStep1;
  relationshipShortcut := shortcut1
}.

Definition queryParser : jsval -> list seg -> jsval -> stM St exn ParseResult :=
  queryParserWith (V := variant).

#[export] Instance variant_laws : QueryVariantLaws St variant.
Proof.
  split; intros; apply shortcut1_off;
    [by apply identityGuard_one_key | by apply identityGuard_identity].
Qed.
End V1.
End MongoJoinBuilder.

Module AdapterMongoose.
Section V2.
Context {St : Type} `{LA : ListAdapter} `{R : RelTokenizer2 St}.

(** Line 36. *)
Definition isModifierKey2 (key : string) : bool :=
  oneOf key ["$search"; "$sortBy"; "$orderBy"; "$skip"; "$first"; "$count"].

#[export] Instance variant : QueryVariant St := {
  isModifierKey := isModifierKey2;
  relationshipStep := relationshipTokenizer2;
  relationshipShortcut := fun key _ value => shortcut2 key value
}.

Definition queryParser : jsval -> list seg -> jsval -> stM St exn ParseResult :=
  queryParserWith (V := variant).

#[export] Instance variant_laws : QueryVariantLaws St variant.
Proof.
  split; intros; apply shortcut2_off;
    [by apply identityGuard_one_key | by apply identityGuard_identity].
Qed.
End V2.
End AdapterMongoose.

(** ** Theorems on the walk, for any variant *)

Section WalkTheorems.
Context {St : Type} `{LA : ListAdapter} `{V : QueryVariant St}.

(** An entry the walk hands to a tokenizer: a scalar leaf (also [id]
    with a scalar value) or a modifier. *)
Definition leafEntry (kv : string * jsval) : bool :=
  negb (isLogicalKey kv.1) && negb (isModifierKey kv.1) && negb (String.eqb (getType kv.2) "Object").

Definition modifierEntry (kv : string * jsval) : bool :=
  negb (isLogicalKey kv.1) && isModifierKey kv.1.

Definition flatEntry (kv : string * jsval) : bool := leafEntry kv || modifierEntry kv.

(** The partial result of a flat entry, from its tokenizer. *)
Definition flatPartial (query : jsval) (path : list seg) (kv : string * jsval) : jsres Partial :=
  if isModifierKey kv.1 then
    let! stage := modifierTokenizer query kv.1 (path ++ [PKey kv.1])%list in
    Ok (mkPartial JUndefined [stage] [])
  else
    let! t := simpleTokenizer query kv.1 (path ++ [PKey kv.1])%list in
    Ok (mkPartial t [] []).

Lemma parseEntry_flat rec query path kv s :
  flatEntry kv = true ->
  parseEntry rec query path kv s =
    match flatPartial query path kv with Ok p => Ok (p, s) | Throw e => Throw e end.
Proof.
  destruct kv as [k v]. unfold flatEntry, leafEntry, modifierEntry, flatPartial, parseEntry.
  cbn [fst snd]. destruct (isLogicalKey k); [discriminate|].
  destruct (isModifierKey k); cbn.
  - intros _. unfold sbind, slift, sret. by destruct (modifierTokenizer query k _).
  - intros Hv. destruct (String.eqb (getType v) "Object") eqn:Ho; [discriminate Hv|].
    destruct (String.eqb k "id"); unfold sbind, slift, sret; by destruct (simpleTokenizer query k _).
Qed.

Lemma smapM_parseEntry_flat rec query path props s :
  Forall (fun kv => flatEntry kv = true) props ->
  smapM (parseEntry rec query path) props s =
    match rmapM (flatPartial query path) props with Ok ps => Ok (ps, s) | Throw e => Throw e end.
Proof.
  induction 1 as [|kv props Hkv _ IH]; [reflexivity|]. cbn [smapM rmapM].
  unfold sbind at 1. rewrite parseEntry_flat by done.
  destruct (flatPartial query path kv) as [p|e]; cbn; [|reflexivity].
  unfold sbind. rewrite IH. by destruct (rmapM _ props).
Qed.

Lemma flatPartial_no_relationships query path props parts :
  rmapM (flatPartial query path) props = Ok parts -> concat (map pRelationships parts) = [].
Proof.
  intros H. apply (rmapM_Forall _ (fun p => pRelationships p = [])) in H.
  - induction H as [|p parts Hp _ IH]; [done|]. cbn. by rewrite Hp, IH.
  - intros kv p _. unfold flatPartial.
    destruct (isModifierKey kv.1); [destruct (modifierTokenizer _ _ _) | destruct (simpleTokenizer _ _ _)];
      cbn; intros Hp; by invc Hp.
Qed.

(** An entry that throws after flat entries: its exception is the
    exception of the whole walk. *)
Lemma queryParser_entry_throw (pre post : list (string * jsval)) (k : string) (v : jsval)
  (path : list seg) (include : jsval) (s : St) (parts : list Partial) (e : exn) :
  Forall (fun kv => flatEntry kv = true) pre ->
  rmapM (flatPartial (JObj (pre ++ (k, v) :: post)) path) pre = Ok parts ->
  parseEntry (fun q p => queryParserWith q p JUndefined) (JObj (pre ++ (k, v) :: post)) path (k, v) s
    = Throw e ->
  queryParserWith (JObj (pre ++ (k, v) :: post)) path include s = Throw e.
Proof.
  intros Hpre Hparts He. cbn [queryParserWith].
  erewrite sbind_throw; [reflexivity|]. eapply smapM_app_throw; [|exact He].
  rewrite smapM_parseEntry_flat by done. by rewrite Hparts.
Qed.

(** C1: a flat filter (scalar leaves and modifiers, no [AND]/[OR] and no
    relationship) is compiled by running the tokenizers over its entries
    in order, the first exception escaping; the leaf terms are joined
    with [$and] (the implicit conjunction), the modifier stages form the
    pipeline in entry order, no branch is produced, the generator is
    not consulted and all to-many fields but the hint are excluded. *)
Theorem queryParser_flat (props : list (string * jsval)) (path : list seg) (include : jsval)
  (s : St) :
  Forall (fun kv => flatEntry kv = true) props ->
  queryParserWith (JObj props) path include s =
    match rmapM (flatPartial (JObj props) path) props with
    | Ok parts =>
        Ok (mkParseResult (joinTerms (List.filter truthy (map pMatchTerm parts)) "$and")
                          (List.filter truthy (concat (map pPipeline parts))) []
                          (excludeFieldsOf fieldAdapters [] include), s)
    | Throw e => Throw e
    end.
Proof.
  intros H. cbn [queryParserWith]. unfold sbind at 1. rewrite smapM_parseEntry_flat by done.
  destruct (rmapM _ props) as [parts|e] eqn:E; [|reflexivity].
  unfold sret, finishResult, flattenQueries, flatten; cbn.
  by rewrite (flatPartial_no_relationships _ _ _ _ E).
Qed.

(** C2: [{ AND: [q0, q1, ...] }] and [{ OR: [...] }]: the children are
    parsed in order at paths [...key.0], [...key.1], threading the
    generator; their terms are joined with [$and] for [AND] and [$or]
    for [OR] (unwrapped
    for one child, absent for none), their stages and branches are
    concatenated in order, and the implicit conjunction of the one-key
    object leaves that term as it is. *)
Theorem queryParser_logical (k : string) (qs : list jsval) (path : list seg) (include : jsval)
  (s s' : St) (rs : list ParseResult) :
  isLogicalKey k = true ->
  smapiM (fun i q => queryParserWith q ((path ++ [PKey k]) ++ [PIdx i])%list JUndefined) 0 qs s =
    Ok (rs, s') ->
  queryParserWith (JObj [(k, JArr qs)]) path include s =
    Ok (mkParseResult (joinTerms (List.filter truthy (map matchTerm rs)) (if String.eqb k "AND" then "$and" else "$or"))
                      (List.filter truthy (concat (map postJoinPipeline rs)))
                      (concat (map relationships rs))
                      (excludeFieldsOf fieldAdapters (concat (map relationships rs)) include), s').
Proof.
  intros Hk Hrs. cbn [queryParserWith smapM]. unfold sbind at 1 2. unfold parseEntry. rewrite Hk.
  unfold sbind at 1. rewrite Hrs. cbn. unfold finishResult.
  rewrite flattenQueries_single by apply flattenQueries_normalized.
  unfold flattenQueries, flatten; cbn. by rewrite !map_map.
Qed.

(** C27: the [TypeError] of [value.map] when an [AND]/[OR] value is not
    an array, after the flat entries before it. *)
Theorem queryParser_logical_not_array (pre post : list (string * jsval)) (k : string) (v : jsval)
  (path : list seg) (include : jsval) (s : St) (parts : list Partial) :
  Forall (fun kv => flatEntry kv = true) pre ->
  rmapM (flatPartial (JObj (pre ++ (k, v) :: post)) path) pre = Ok parts ->
  isLogicalKey k = true -> (forall qs, v <> JArr qs) ->
  queryParserWith (JObj (pre ++ (k, v) :: post)) path include s = Throw (mapTypeError v).
Proof.
  intros Hpre Hparts Hk Hv. eapply queryParser_entry_throw; [exact Hpre | exact Hparts |].
  unfold parseEntry. rewrite Hk. destruct v; try reflexivity. by destruct (Hv xs).
Qed.

(** C28: the simple tokenizer's exception on a scalar leaf (also [id]
    with a scalar value) propagates unchanged, after the flat entries
    before it. *)
Theorem queryParser_leaf_error (pre post : list (string * jsval)) (k : string) (v : jsval)
  (path : list seg) (include : jsval) (s : St) (parts : list Partial) (e : exn) :
  Forall (fun kv => flatEntry kv = true) pre ->
  rmapM (flatPartial (JObj (pre ++ (k, v) :: post)) path) pre = Ok parts ->
  leafEntry (k, v) = true ->
  simpleTokenizer (JObj (pre ++ (k, v) :: post)) k (path ++ [PKey k])%list = Throw e ->
  queryParserWith (JObj (pre ++ (k, v) :: post)) path include s = Throw e.
Proof.
  intros Hpre Hparts Hleaf Hthrow. eapply queryParser_entry_throw; [exact Hpre | exact Hparts |].
  unfold leafEntry in Hleaf. cbn [fst snd] in Hleaf.
  apply andb_true_iff in Hleaf as [Hleaf Hobj]. apply andb_true_iff in Hleaf as [Hl Hm].
  apply negb_true_iff in Hl, Hm, Hobj. unfold parseEntry. rewrite Hl, Hm, Hobj.
  destruct (String.eqb k "id"); unfold sbind, slift; by rewrite Hthrow.
Qed.

(** C29: the relationship step runs before the shortcut is tried: its
    exception (a key that names no relationship field, for instance)
    propagates unchanged, whatever the filter of the key, after the flat
    entries before it. *)
Theorem queryParser_step_error (pre post : list (string * jsval)) (k : string) (v : jsval)
  (path : list seg) (include : jsval) (s : St) (parts : list Partial) (e : exn) :
  Forall (fun kv => flatEntry kv = true) pre ->
  rmapM (flatPartial (JObj (pre ++ (k, v) :: post)) path) pre = Ok parts ->
  isLogicalKey k = false -> isModifierKey k = false -> k <> "id" -> getType v = "Object" ->
  relationshipStep k (path ++ [PKey k])%list s = Throw e ->
  queryParserWith (JObj (pre ++ (k, v) :: post)) path include s = Throw e.
Proof.
  intros Hpre Hparts Hl Hm Hid Hv Hstep. eapply queryParser_entry_throw; [exact Hpre | exact Hparts |].
  unfold parseEntry. rewrite Hl, Hm, (proj2 (String.eqb_neq _ _) Hid), Hv, String.eqb_refl.
  unfold sbind at 1. by rewrite Hstep.
Qed.

(** C26: a query that is not an object is refused with the error of line
    21, naming its type and the path; at the root the path is empty. *)
Theorem queryParser_type_error (q : jsval) (path : list seg) (include : jsval) (s : St) :
  getType q <> "Object" ->
  queryParserWith q path include s = Throw (EQueryType (getType q) path) /\
  exn_message (EQueryType (getType q) []) =
    "Expected an Object for query, got " ++ getType q ++ " at path ".
Proof.
  intros H. split; [|reflexivity].
  destruct q; [reflexivity.. |]. by destruct H.
Qed.

Context `{VL : !QueryVariantLaws St V}.

(** C3: a relationship key whose filter object does not have exactly one
    key is never shortcut: the relationship tokenizer runs, the filter
    is parsed recursively at [path.key] (without [include]), the branch
    is recorded with its [relationshipInfo], and the level's match term
    is the tokenizer's, not the branch's. *)
Theorem queryParser_relationship_branch (k : string) (vps : list (string * jsval))
  (path : list seg) (include : jsval) (s s1 s2 : St) (mt info : jsval) (sub : ParseResult) :
  isLogicalKey k = false -> isModifierKey k = false -> k <> "id" ->
  key_count (JObj vps) <> 1 ->
  relationshipStep k (path ++ [PKey k])%list s = Ok ((mt, info), s1) ->
  queryParserWith (JObj vps) (path ++ [PKey k])%list JUndefined s1 = Ok (sub, s2) ->
  queryParserWith (JObj [(k, JObj vps)]) path include s =
    Ok (mkParseResult (joinTerms (List.filter truthy [mt]) "$and") [] [mkRelEntry info sub]
                      (excludeFieldsOf fieldAdapters [mkRelEntry info sub] include), s2).
Proof.
  intros Hl Hm Hid Hkc Hstep Hsub. cbn [queryParserWith smapM]. unfold sbind at 1 2.
  unfold parseEntry. rewrite Hl, Hm, (proj2 (String.eqb_neq _ _) Hid).
  change (getType (JObj vps)) with "Object". rewrite String.eqb_refl.
  unfold sbind at 1. rewrite Hstep.
  unfold sbind at 1, slift. rewrite shortcut_needs_one_key by done.
  unfold sbind at 1. rewrite Hsub. reflexivity.
Qed.

(** A one-key filter whose relationship entry the shortcut rewrites. *)
Lemma queryParser_single_shortcut (k : string) (value : jsval) (path : list seg) (include : jsval)
  (s s1 : St) (mt info c : jsval) :
  isLogicalKey k = false -> isModifierKey k = false -> k <> "id" -> getType value = "Object" ->
  relationshipStep k (path ++ [PKey k])%list s = Ok ((mt, info), s1) ->
  relationshipShortcut k info value = Ok (Some c) ->
  queryParserWith (JObj [(k, value)]) path include s =
    Ok (mkParseResult (joinTerms (List.filter truthy [c]) "$and") [] []
                      (excludeFieldsOf fieldAdapters [] include), s1).
Proof.
  intros Hl Hm Hid Hv Hstep Hsc. cbn [queryParserWith smapM]. unfold sbind at 1 2.
  unfold parseEntry. rewrite Hl, Hm, (proj2 (String.eqb_neq _ _) Hid), Hv, String.eqb_refl.
  unfold sbind at 1. rewrite Hstep.
  unfold sbind at 1, slift. rewrite Hsc. reflexivity.
Qed.

(** C4: when the variant's shortcut yields a comparison, it is the
    entry's match term: no branch is recorded, the tokenizer's match
    term is dropped, and the generator has still been consulted. *)
Theorem queryParser_shortcut (k : string) (value : jsval) (path : list seg) (include : jsval)
  (s s1 : St) (mt info c : jsval) :
  isLogicalKey k = false -> isModifierKey k = false -> k <> "id" -> getType value = "Object" ->
  relationshipStep k (path ++ [PKey k])%list s = Ok ((mt, info), s1) ->
  relationshipShortcut k info value = Ok (Some c) ->
  queryParserWith (JObj [(k, value)]) path include s =
    Ok (mkParseResult (joinTerms (List.filter truthy [c]) "$and") [] []
                      (excludeFieldsOf fieldAdapters [] include), s1).
Proof. exact (queryParser_single_shortcut k value path include s s1 mt info c). Qed.
(** C15: the include hint reaches only the [excludeFields] of the level it
    is passed to: with another hint the walk returns the same match term,
    pipeline, relationship branches and generator state, or throws the
    same exception, and its [excludeFields] is recomputed from the same
    branches with the other hint (the recursive calls never get it). *)
Theorem queryParser_include_only_excludes (q : jsval) (path : list seg) (inc1 inc2 : jsval) (s : St) :
  queryParserWith q path inc2 s =
  match queryParserWith q path inc1 s with
  | Ok (r, s') => Ok (mkParseResult (matchTerm r) (postJoinPipeline r) (relationships r)
                                    (excludeFieldsOf fieldAdapters (relationships r) inc2), s')
  | Throw e => Throw e
  end.
Proof.
  destruct q as [| | | | | | ps]; try reflexivity.
  cbn [queryParserWith]. unfold sbind. by destruct (smapM _ ps s) as [[parts s']|e].
Qed.
End WalkTheorems.

(** ** Concrete runs of the walk (variant 1, sample adapter, counter generator) *)

Definition sampleVariant1 : QueryVariant nat := MongoJoinBuilder.variant.

Definition leafA : jsval := JObj [("a", JObj [("$eq", JNum 1)])].
Definition leafA2 : jsval := JObj [("a", JObj [("$eq", JNum 2)])].
Definition leafB : jsval := JObj [("b", JObj [("$eq", JNum 2)])].

Lemma queryParser_flat_witness :
  Forall (fun kv => flatEntry (V := sampleVariant1) kv = true)
         [("a", JNum 1); ("$first", JNum 10); ("b", JNum 2)] /\
  queryParserWith (V := sampleVariant1) (JObj [("a", JNum 1); ("$first", JNum 10); ("b", JNum 2)]) []
                  JUndefined 0 =
    Ok (mkParseResult (JObj [("$and", JArr [leafA; leafB])]) [JObj [("$first", JNum 10)]] []
                      ["posts"; "tags"; "friends"], 0).
Proof.
  assert (H : Forall (fun kv => flatEntry (V := sampleVariant1) kv = true)
                     [("a", JNum 1); ("$first", JNum 10); ("b", JNum 2)]) by (repeat constructor).
  split; [exact H|]. rewrite (queryParser_flat _ _ _ _ H). reflexivity.
Defined.

Lemma queryParser_logical_witness :
  (isLogicalKey "OR" = true /\
   smapiM (fun i q => queryParserWith (V := sampleVariant1) q (([] ++ [PKey "OR"]) ++ [PIdx i])%list JUndefined)
          0 [JObj [("a", JNum 1)]; JObj [("a", JNum 2)]] 0 =
     Ok ([mkParseResult leafA [] [] ["posts"; "tags"; "friends"];
          mkParseResult leafA2 [] [] ["posts"; "tags"; "friends"]], 0)) /\
  queryParserWith (V := sampleVariant1) (JObj [("OR", JArr [JObj [("a", JNum 1)]; JObj [("a", JNum 2)]])])
                  [] JUndefined 0 =
    Ok (mkParseResult (JObj [("$or", JArr [leafA; leafA2])]) [] [] ["posts"; "tags"; "friends"], 0).
Proof.
  assert (Hk : isLogicalKey "OR" = true) by reflexivity.
  assert (Hrs : smapiM (fun i q => queryParserWith (V := sampleVariant1) q
                                     (([] ++ [PKey "OR"]) ++ [PIdx i])%list JUndefined)
                       0 [JObj [("a", JNum 1)]; JObj [("a", JNum 2)]] 0 =
                  Ok ([mkParseResult leafA [] [] ["posts"; "tags"; "friends"];
                       mkParseResult leafA2 [] [] ["posts"; "tags"; "friends"]], 0)) by reflexivity.
  split; [split; assumption|]. rewrite (queryParser_logical _ _ _ _ _ _ _ Hk Hrs). reflexivity.
Defined.

Lemma queryParser_logical_not_array_witness :
  (Forall (fun kv => flatEntry (V := sampleVariant1) kv = true) [("a", JNum 1)] /\
   rmapM (flatPartial (V := sampleVariant1) (JObj ([("a", JNum 1)] ++ [("AND", JStr "x")])) [])
         [("a", JNum 1)] = Ok [mkPartial leafA [] []] /\
   isLogicalKey "AND" = true /\ (forall qs, JStr "x" <> JArr qs)) /\
  queryParserWith (V := sampleVariant1) (JObj ([("a", JNum 1)] ++ [("AND", JStr "x")])) [] JUndefined 0 =
    Throw (ETypeError "value.map is not a function").
Proof.
  assert (H1 : Forall (fun kv => flatEntry (V := sampleVariant1) kv = true) [("a", JNum 1)])
    by (repeat constructor).
  assert (H2 : rmapM (flatPartial (V := sampleVariant1) (JObj ([("a", JNum 1)] ++ [("AND", JStr "x")])) [])
                     [("a", JNum 1)] = Ok [mkPartial leafA [] []]) by reflexivity.
  assert (H3 : isLogicalKey "AND" = true) by reflexivity.
  assert (H4 : forall qs, JStr "x" <> JArr qs) by discriminate.
  split; [tauto|]. exact (queryParser_logical_not_array [("a", JNum 1)] [] "AND" (JStr "x") [] JUndefined 0 _ H1 H2 H3 H4).
Defined.

Lemma queryParser_type_error_witness :
  getType (JStr "oops") <> "Object" /\
  queryParserWith (V := sampleVariant1) (JStr "oops") [] JUndefined 0 = Throw (EQueryType "String" []) /\
  exn_message (EQueryType "String" []) = "Expected an Object for query, got String at path ".
Proof.
  assert (H : getType (JStr "oops") <> "Object") by discriminate.
  split; [exact H|]. exact (queryParser_type_error (V := sampleVariant1) (JStr "oops") [] JUndefined 0 H).
Defined.

Definition postsInfo : jsval := JObj [("field", JStr "posts"); ("uniqueField", JStr "posts_some_0")].
Definition postsSizeTerm : jsval :=
  JObj [("$expr", JObj [("$gt", JArr [JObj [("$size", JStr "$posts_some_0")]; JNum 0])])].
Definition postsSub : ParseResult :=
  mkParseResult (JObj [("$and", JArr [JObj [("title", JObj [("$eq", JStr "a")])];
                                      JObj [("id", JObj [("$eq", JStr "b")])]])])
                [] [] ["posts"; "tags"; "friends"].

Lemma queryParser_relationship_branch_witness :
  (isLogicalKey "posts_some" = false /\ isModifierKey (QueryVariant := sampleVariant1) "posts_some" = false /\
   "posts_some" <> "id" /\ key_count (JObj [("title", JStr "a"); ("id", JStr "b")]) <> 1 /\
   relationshipStep (QueryVariant := sampleVariant1) "posts_some" ([] ++ [PKey "posts_some"])%list 0 =
     Ok ((postsSizeTerm, postsInfo), 1) /\
   queryParserWith (V := sampleVariant1) (JObj [("title", JStr "a"); ("id", JStr "b")])
                   ([] ++ [PKey "posts_some"])%list JUndefined 1 = Ok (postsSub, 1)) /\
  queryParserWith (V := sampleVariant1) (JObj [("posts_some", JObj [("title", JStr "a"); ("id", JStr "b")])])
                  [] JUndefined 0 =
    Ok (mkParseResult postsSizeTerm [] [mkRelEntry postsInfo postsSub] ["posts"; "tags"; "friends"], 1).
Proof.
  assert (H1 : isLogicalKey "posts_some" = false) by reflexivity.
  assert (H2 : isModifierKey (QueryVariant := sampleVariant1) "posts_some" = false) by reflexivity.
  assert (H3 : "posts_some" <> "id") by discriminate.
  assert (H4 : key_count (JObj [("title", JStr "a"); ("id", JStr "b")]) <> 1) by discriminate.
  assert (H5 : relationshipStep (QueryVariant := sampleVariant1) "posts_some" ([] ++ [PKey "posts_some"])%list 0 =
                 Ok ((postsSizeTerm, postsInfo), 1)) by reflexivity.
  assert (H6 : queryParserWith (V := sampleVariant1) (JObj [("title", JStr "a"); ("id", JStr "b")])
                               ([] ++ [PKey "posts_some"])%list JUndefined 1 = Ok (postsSub, 1)) by reflexivity.
  split; [tauto|].
  rewrite (queryParser_relationship_branch (V := sampleVariant1) (VL := MongoJoinBuilder.variant_laws)
             "posts_some" _ [] JUndefined 0 1 1 _ _ _ H1 H2 H3 H4 H5 H6).
  reflexivity.
Defined.

Lemma queryParser_shortcut_witness :
  (isLogicalKey "posts_some" = false /\ isModifierKey (QueryVariant := sampleVariant1) "posts_some" = false /\
   "posts_some" <> "id" /\ getType (JObj [("id", JStr "x")]) = "Object" /\
   relationshipStep (QueryVariant := sampleVariant1) "posts_some" ([] ++ [PKey "posts_some"])%list 0 =
     Ok ((postsSizeTerm, postsInfo), 1) /\
   relationshipShortcut (QueryVariant := sampleVariant1) "posts_some" postsInfo (JObj [("id", JStr "x")]) =
     Ok (Some (JObj [("posts", JObj [("$eq", JObj [("$oid", JStr "x")])])]))) /\
  queryParserWith (V := sampleVariant1) (JObj [("posts_some", JObj [("id", JStr "x")])]) [] JUndefined 0 =
    Ok (mkParseResult (JObj [("posts", JObj [("$eq", JObj [("$oid", JStr "x")])])]) [] []
                      ["posts"; "tags"; "friends"], 1).
Proof.
  assert (H1 : isLogicalKey "posts_some" = false) by reflexivity.
  assert (H2 : isModifierKey (QueryVariant := sampleVariant1) "posts_some" = false) by reflexivity.
  assert (H3 : "posts_some" <> "id") by discriminate.
  assert (H4 : getType (JObj [("id", JStr "x")]) = "Object") by reflexivity.
  assert (H5 : relationshipStep (QueryVariant := sampleVariant1) "posts_some" ([] ++ [PKey "posts_some"])%list 0 =
                 Ok ((postsSizeTerm, postsInfo), 1)) by reflexivity.
  assert (H6 : relationshipShortcut (QueryVariant := sampleVariant1) "posts_some" postsInfo
                 (JObj [("id", JStr "x")]) =
               Ok (Some (JObj [("posts", JObj [("$eq", JObj [("$oid", JStr "x")])])]))) by reflexivity.
  split; [tauto|].
  rewrite (queryParser_shortcut "posts_some" _ [] JUndefined 0 1 _ _ _ H1 H2 H3 H4 H5 H6).
  reflexivity.
Defined.

Lemma queryParser_leaf_error_witness :
  strictSimpleTokenizer (JObj [("name", JStr "x"); ("nmae", JStr "y")]) "nmae" [PKey "nmae"] =
    Throw (EExternal (JStr "Unknown field nmae")) /\
  queryParserWith (LA := strictAdapter) (V := sampleVariant1)
    (JObj ([("name", JStr "x")] ++ ("nmae", JStr "y") :: [])) [] JUndefined 0 =
    Throw (EExternal (JStr "Unknown field nmae")).
Proof.
  split; [reflexivity|].
  eapply (queryParser_leaf_error (LA := strictAdapter) (V := sampleVariant1) [("name", JStr "x")] [] "nmae");
    [repeat constructor | reflexivity | reflexivity | reflexivity].
Defined.

Lemma queryParser_step_error_witness :
  relationshipStep (QueryVariant := sampleVariant1) "editor" [PKey "editor"] 0 =
    Throw (EExternal (JStr "Unknown relationship field editor")) /\
  queryParserWith (V := sampleVariant1)
    (JObj ([("name", JStr "x")] ++ ("editor", JObj [("id", JStr "a")]) :: [])) [] JUndefined 0 =
    Throw (EExternal (JStr "Unknown relationship field editor")).
Proof.
  split; [reflexivity|].
  eapply (queryParser_step_error (V := sampleVariant1) [("name", JStr "x")] [] "editor");
    [repeat constructor | reflexivity | reflexivity | reflexivity | discriminate | reflexivity | reflexivity].
Defined.
