(* ===== verification/Semantics.v ===== *)
(** * What the shortcut's comparison means, against the join it replaces

    The identity shortcut ([Shortcut]) is meant to be an optimisation
    only (spec, section 4.3): the comparison it puts on the foreign key
    must select the same documents as the relationship branch it skips.
    This file gives both sides a meaning on a document of the list:
    - [mongoMatch]: MongoDB's evaluation of the one-field terms the
      shortcut emits ([{f: {$eq: x}}], [$ne], [$in], [{$not: {$in: xs}}]),
      with MongoDB's rules for array fields (a comparison holds when the
      field or one of its elements satisfies it; [$ne] and [$not] negate
      and so hold on a missing field);
    - [joinMatch]: the meaning of the relationship filter
      [{key_q: {p: v}}] as the join computes it: the related records are
      the ids stored in the foreign key (referential integrity: each
      stored id is an existing related record, the join finds exactly
      those), and [_some], [_every], [_none] quantify the predicate over
      them, a bare key meaning that the one related record exists and
      satisfies it.
    The theorems: the cells of the table where the two agree, for every
    document; counterexamples for the cells where they do not; and the
    end-to-end statement for the two variants' shortcuts. *)

From Stdlib Require Import String ZArith.
From stdpp Require Import base list strings.
From S2P Require Import Prelude JsValue Collaborators Joiner Suffix Shortcut Parser.

Open Scope string_scope.

(** ** MongoDB's matching of the shortcut's terms *)

(** A stored identifier: not missing, not [null], not an array. *)
Definition idValue (v : jsval) : bool :=
  match v with JUndefined | JNull | JArr _ => false | _ => true end.

(** [{f: {$eq: x}}] on field value [fv]: the value equals [x], or is an
    array with an element equal to [x]; [{$eq: null}] also matches a
    missing field. *)
Definition mongoEq (fv x : jsval) : bool :=
  jsval_eqb fv x ||
  match fv with JArr ys => existsb (jsval_eqb x) ys | _ => false end ||
  match x, fv with JNull, JUndefined => true | _, _ => false end.

Definition mongoIn (fv : jsval) (xs : list jsval) : bool := existsb (mongoEq fv) xs.

(** The condition object of a one-field term; [None] outside the
    fragment the shortcut emits. *)
Definition mongoCond (fv cond : jsval) : option bool :=
  match cond with
  | JObj [(op, x)] =>
      if String.eqb op "$eq" then Some (mongoEq fv x)
      else if String.eqb op "$ne" then Some (negb (mongoEq fv x))
      else if String.eqb op "$in" then
        match x with JArr xs => Some (mongoIn fv xs) | _ => None end
      else if String.eqb op "$not" then
        match x with
        | JObj [(op', JArr xs)] => if String.eqb op' "$in" then Some (negb (mongoIn fv xs)) else None
        | _ => None
        end
      else None
  | _ => None
  end.

Definition mongoMatch (term : jsval) (doc : list (string * jsval)) : option bool :=
  match term with
  | JObj [(f, cond)] => mongoCond (prop_lookup doc f) cond
  | _ => None
  end.

(** ** The meaning of the relationship filter *)

(** The related records' ids, as stored in the foreign key. *)
Definition relatedIds (fv : jsval) : list jsval :=
  match fv with
  | JArr ys => ys
  | JUndefined | JNull => []
  | y => [y]
  end.

(** [{p: arg}] on a related record with id [rid]. *)
Definition predHolds (p : IdPred) (arg rid : jsval) : bool :=
  match p with
  | PId => jsval_eqb rid arg
  | PIdNot => negb (jsval_eqb rid arg)
  | PIdIn => match arg with JArr xs => existsb (jsval_eqb rid) xs | _ => false end
  | PIdNotIn => match arg with JArr xs => negb (existsb (jsval_eqb rid) xs) | _ => false end
  end.

Definition joinMatch (q : Quant) (p : IdPred) (arg fv : jsval) : bool :=
  let ids := relatedIds fv in
  match q with
  | QOne | QSome => existsb (predHolds p arg) ids
  | QEvery => forallb (predHolds p arg) ids
  | QNone => negb (existsb (predHolds p arg) ids)
  end.

(** Converted arguments are identifiers, or arrays of them. *)
Definition wfArg (p : IdPred) (arg : jsval) : bool :=
  match p with
  | PId | PIdNot => idValue arg
  | PIdIn | PIdNotIn => match arg with JArr xs => forallb idValue xs | _ => false end
  end.

(** The cells of the tables where the comparison and the join differ. *)
Definition unsoundCell (p : IdPred) (q : Quant) : bool :=
  match p, q with
  | PId, QEvery | PIdNot, (QOne | QSome | QNone) | PIdNotIn, QOne => true
  | _, _ => false
  end.

(** An identifier different from [arg]. *)
Definition otherId (arg : jsval) : jsval := if jsval_eqb arg (JStr "a") then JStr "b" else JStr "a".

(** The foreign key of a document on which an unsound cell's comparison
    and the join disagree: two related records, one of them [arg]; one
    other record; or none ([null]). *)
Definition unsoundDoc (p : IdPred) (q : Quant) (arg : jsval) : jsval :=
  match p, q with
  | PId, QEvery | PIdNot, QSome => JArr [arg; otherId arg]
  | PIdNot, QNone => JArr [otherId arg]
  | _, _ => JNull
  end.

(** ** Lemmas *)

Lemma jsval_eqb_sym x y : jsval_eqb x y = jsval_eqb y x.
Proof. apply eq_true_iff_eq. rewrite !jsval_eqb_eq. split; intros ->; reflexivity. Qed.

(** On an identifier, [$eq] asks whether one of the related ids is it. *)
Lemma mongoEq_related fv x :
  idValue x = true -> mongoEq fv x = existsb (fun rid => jsval_eqb rid x) (relatedIds fv).
Proof.
  intros Hx. unfold mongoEq.
  replace (match x, fv with JNull, JUndefined => true | _, _ => false end) with false
    by (destruct x; try discriminate Hx; reflexivity).
  rewrite orb_false_r.
  destruct fv as [| | b | n | s | ys | ps]; cbn [relatedIds existsb]; rewrite ?orb_false_r;
    try (destruct x; try discriminate Hx; reflexivity).
  replace (jsval_eqb (JArr ys) x) with false by (destruct x; try discriminate Hx; reflexivity).
  apply existsb_ext_In. intros; apply jsval_eqb_sym.
Qed.

Lemma existsb_comm {A B} (P : A -> B -> bool) (l1 : list A) (l2 : list B) :
  existsb (fun x => existsb (P x) l2) l1 = existsb (fun y => existsb (fun x => P x y) l1) l2.
Proof.
  apply eq_true_iff_eq. rewrite !existsb_exists. split.
  - intros (x & Hx & Hex). apply existsb_exists in Hex as (y & Hy & Hp).
    exists y. split; [done|]. apply existsb_exists. eauto.
  - intros (y & Hy & Hex). apply existsb_exists in Hex as (x & Hx & Hp).
    exists x. split; [done|]. apply existsb_exists. eauto.
Qed.

Lemma negb_existsb {A} (f : A -> bool) l : negb (existsb f l) = forallb (fun x => negb (f x)) l.
Proof. induction l as [|x l IH]; [reflexivity|]. cbn. by rewrite negb_orb, IH. Qed.

Lemma mongoIn_related fv xs :
  forallb idValue xs = true ->
  mongoIn fv xs = existsb (fun rid => existsb (jsval_eqb rid) xs) (relatedIds fv).
Proof.
  intros Hxs. unfold mongoIn.
  rewrite (existsb_ext_In (mongoEq fv) (fun x => existsb (fun rid => jsval_eqb rid x) (relatedIds fv))).
  - by rewrite existsb_comm.
  - intros x Hin. apply mongoEq_related. by apply (proj1 (forallb_forall _ _) Hxs).
Qed.

Lemma mongoCond_buildCond op arg fv :
  mongoCond fv (buildCond op arg) =
  match op with
  | OpEq => Some (mongoEq fv arg)
  | OpNe => Some (negb (mongoEq fv arg))
  | OpIn => match arg with JArr xs => Some (mongoIn fv xs) | _ => None end
  | OpNotIn => match arg with JArr xs => Some (negb (mongoIn fv xs)) | _ => None end
  end.
Proof. destruct op; [reflexivity | reflexivity | destruct arg; reflexivity | destruct arg; reflexivity]. Qed.

Lemma table1_table2 p q op : table1 p q = Some op -> table2 p q = Some op.
Proof. destruct p, q; cbn; congruence. Qed.

(** On the cells outside [unsoundCell], the comparison selects a document
    exactly when the join does, whatever the document's foreign key. *)
Lemma cell_sound p q op arg fv :
  table2 p q = Some op -> unsoundCell p q = false -> wfArg p arg = true ->
  mongoCond fv (buildCond op arg) = Some (joinMatch q p arg fv).
Proof.
  intros Ht Hs Ha. destruct p, q; cbn in Hs, Ht; try discriminate Hs; try discriminate Ht; injection Ht as <-;
    cbn [wfArg] in Ha; unfold joinMatch, predHolds; rewrite mongoCond_buildCond.
  all: first [ destruct arg as [| | | | | xs |]; try discriminate Ha; rewrite mongoIn_related by done
             | rewrite mongoEq_related by done ].
  all: rewrite ?negb_existsb; reflexivity.
Qed.

Lemma jsval_eqb_refl x : jsval_eqb x x = true.
Proof. by apply jsval_eqb_eq. Qed.

Lemma otherId_neq arg : jsval_eqb (otherId arg) arg = false.
Proof.
  unfold otherId. destruct (jsval_eqb arg (JStr "a")) eqn:E.
  - apply jsval_eqb_eq in E. by subst.
  - by rewrite jsval_eqb_sym.
Qed.

(** On every unsound cell, whatever the (well-formed) argument, the
    comparison and the join disagree on [unsoundDoc]. *)
Lemma unsound_cell_doc p q op arg :
  table2 p q = Some op -> unsoundCell p q = true -> wfArg p arg = true ->
  mongoCond (unsoundDoc p q arg) (buildCond op arg) <> Some (joinMatch q p arg (unsoundDoc p q arg)).
Proof.
  intros Ht Hu Hw. destruct p, q; cbn in Hu, Ht; try discriminate Hu; try discriminate Ht; injection Ht as <-;
    cbn [wfArg] in Hw; rewrite mongoCond_buildCond.
  5: { destruct arg as [| | | | | xs |]; try discriminate Hw. rewrite mongoIn_related by done. discriminate. }
  all: rewrite mongoEq_related by done; unfold joinMatch, predHolds, unsoundDoc; cbn [relatedIds existsb forallb].
  all: rewrite ?jsval_eqb_refl, ?otherId_neq; discriminate.
Qed.

(** ** Properties *)

(** C18: every cell of [unsoundCell] that the code rewrites has a document
    on which the comparison and the join disagree: [id] with [_every]
    (two related records), [id_not] with a bare key and [id_not_in] with a
    bare key (no related record: a [null] foreign key), [id_not] with
    [_some] and with [_none]. *)
Theorem shortcut_cells_unsound (p : IdPred) (q : Quant) (op : CmpOp) :
  table2 p q = Some op -> unsoundCell p q = true ->
  exists arg fv, wfArg p arg = true /\ mongoCond fv (buildCond op arg) <> Some (joinMatch q p arg fv).
Proof.
  intros Ht Hu. exists (match p with PIdIn | PIdNotIn => JArr [JStr "a"] | _ => JStr "a" end).
  assert (Hw : wfArg p (match p with PIdIn | PIdNotIn => JArr [JStr "a"] | _ => JStr "a" end) = true) by (by destruct p).
  exists (unsoundDoc p q (match p with PIdIn | PIdNotIn => JArr [JStr "a"] | _ => JStr "a" end)).
  split; [exact Hw | exact (unsound_cell_doc _ _ _ _ Ht Hu Hw)].
Qed.

Lemma shortcut_cells_unsound_witness :
  (table2 PIdNot QSome = Some OpNe /\ unsoundCell PIdNot QSome = true) /\
  exists arg fv, wfArg PIdNot arg = true /\
    mongoCond fv (buildCond OpNe arg) <> Some (joinMatch QSome PIdNot arg fv).
Proof.
  split; [split; reflexivity|]. apply shortcut_cells_unsound; reflexivity.
Defined.

Section Refinement.
Context `{LA : ListAdapter}.

(** C17: refinement for variant 1: when [shortcut1] rewrites a one-key
    identity filter on a key [f ++ suffix] in a sound cell, the emitted
    term selects a document exactly when the relationship filter holds
    of the related records its foreign key [f] names. *)
Theorem shortcut1_refines_join (f : string) (info : jsval) (p : IdPred) (q : Quant) (v t arg : jsval)
  (doc : list (string * jsval)) :
  js_get info "field" = JStr f -> f <> "__proto__" -> truthy v = true ->
  shortcut1 (f ++ quantSuffix q) info (JObj [(idPredKey p, v)]) = Ok (Some t) ->
  convertArg p v = Ok arg -> unsoundCell p q = false -> wfArg p arg = true ->
  mongoMatch t doc = Some (joinMatch q p arg (prop_lookup doc f)).
Proof.
  intros Hf Hp Hv Hs Harg Hu Ha. rewrite shortcut1_table in Hs by done.
  unfold cellResult in Hs. destruct (table1 p q) as [op|] eqn:Ht; [|discriminate Hs].
  rewrite Harg in Hs. injection Hs as <-. apply cell_sound; [by apply table1_table2 | done | done].
Qed.

(** C16: the same refinement for variant 2, for a field name with no
    quantifier suffix of its own. *)
Theorem shortcut2_refines_join (f : string) (p : IdPred) (q : Quant) (v t arg : jsval)
  (doc : list (string * jsval)) :
  KeySplit.splitSuffix f = [f] -> f <> "__proto__" -> truthy v = true ->
  shortcut2 (f ++ quantSuffix q) (JObj [(idPredKey p, v)]) = Ok (Some t) ->
  convertArg p v = Ok arg -> unsoundCell p q = false -> wfArg p arg = true ->
  mongoMatch t doc = Some (joinMatch q p arg (prop_lookup doc f)).
Proof.
  intros Hsp Hp Hv Hs Harg Hu Ha. rewrite shortcut2_table in Hs by done.
  unfold cellResult in Hs. destruct (table2 p q) as [op|] eqn:Ht; [|discriminate Hs].
  rewrite Harg in Hs. injection Hs as <-. by apply cell_sound.
Qed.
End Refinement.

Definition oidOf (s : string) : jsval := JObj [("$oid", JStr s)].

Lemma shortcut1_refines_join_witness :
  (js_get (JObj [("field", JStr "posts")]) "field" = JStr "posts" /\ "posts" <> "__proto__" /\
   truthy (JStr "a") = true /\
   shortcut1 ("posts" ++ quantSuffix QSome) (JObj [("field", JStr "posts")]) (JObj [(idPredKey PId, JStr "a")]) =
     Ok (Some (JObj [("posts", JObj [("$eq", oidOf "a")])])) /\
   convertArg PId (JStr "a") = Ok (oidOf "a") /\ unsoundCell PId QSome = false /\
   wfArg PId (oidOf "a") = true) /\
  mongoMatch (JObj [("posts", JObj [("$eq", oidOf "a")])]) [("posts", JArr [oidOf "b"; oidOf "a"])] =
    Some (joinMatch QSome PId (oidOf "a") (prop_lookup [("posts", JArr [oidOf "b"; oidOf "a"])] "posts")).
Proof.
  assert (H1 : js_get (JObj [("field", JStr "posts")]) "field" = JStr "posts") by reflexivity.
  assert (H2 : "posts" <> "__proto__") by discriminate.
  assert (H3 : truthy (JStr "a") = true) by reflexivity.
  assert (H4 : shortcut1 ("posts" ++ quantSuffix QSome) (JObj [("field", JStr "posts")])
                 (JObj [(idPredKey PId, JStr "a")]) =
               Ok (Some (JObj [("posts", JObj [("$eq", oidOf "a")])]))) by reflexivity.
  assert (H5 : convertArg PId (JStr "a") = Ok (oidOf "a")) by reflexivity.
  assert (H6 : unsoundCell PId QSome = false) by reflexivity.
  assert (H7 : wfArg PId (oidOf "a") = true) by reflexivity.
  split; [tauto|]. exact (shortcut1_refines_join _ _ _ _ _ _ _ _ H1 H2 H3 H4 H5 H6 H7).
Defined.

Lemma shortcut2_refines_join_witness :
  (KeySplit.splitSuffix "posts" = ["posts"] /\ "posts" <> "__proto__" /\ truthy (JStr "a") = true /\
   shortcut2 ("posts" ++ quantSuffix QNone) (JObj [(idPredKey PId, JStr "a")]) =
     Ok (Some (JObj [("posts", JObj [("$ne", oidOf "a")])])) /\
   convertArg PId (JStr "a") = Ok (oidOf "a") /\ unsoundCell PId QNone = false /\
   wfArg PId (oidOf "a") = true) /\
  mongoMatch (JObj [("posts", JObj [("$ne", oidOf "a")])]) [("posts", JArr [oidOf "b"])] =
    Some (joinMatch QNone PId (oidOf "a") (prop_lookup [("posts", JArr [oidOf "b"])] "posts")).
Proof.
  assert (H1 : KeySplit.splitSuffix "posts" = ["posts"]) by reflexivity.
  assert (H2 : "posts" <> "__proto__") by discriminate.
  assert (H3 : truthy (JStr "a") = true) by reflexivity.
  assert (H4 : shortcut2 ("posts" ++ quantSuffix QNone) (JObj [(idPredKey PId, JStr "a")]) =
               Ok (Some (JObj [("posts", JObj [("$ne", oidOf "a")])]))) by reflexivity.
  assert (H5 : convertArg PId (JStr "a") = Ok (oidOf "a")) by reflexivity.
  assert (H6 : unsoundCell PId QNone = false) by reflexivity.
  assert (H7 : wfArg PId (oidOf "a") = true) by reflexivity.
  split; [tauto|]. exact (shortcut2_refines_join _ _ _ _ _ _ _ H1 H2 H3 H4 H5 H6 H7).
Defined.

