(* ===== verification/Walk.v ===== *)
(** * Invariants of the whole walk

    Properties of [queryParser] that hold of every run, for any variant,
    proved once by a generic invariant rule ([walk_post]): an invariant
    [Inv s es s'] of the relationship entries [es] a run produces between
    the generator states [s] and [s'], closed under the empty list,
    concatenation and the two things a relationship key does (consult the
    generator, then record a branch or take the shortcut), holds of the
    entries of the whole result.

    Instances:
    - the correlation tokens ([relationshipInfo.uniqueField]) of all the
      branches of a result, at every depth, listed in pre-order, were
      issued at strictly increasing counter values ([orderedRun]), hence
      are pairwise distinct, when the generator issues a token per call
      ([FreshTokens]);
    - every result, at every depth, is well formed: its match term is
      [undefined] or truthy, its pipeline stages are truthy and its
      [excludeFields] are to-many relationship fields ([wf_result]).
    Two further theorems are proved by induction on the filter: the
    number of generator calls is bounded by the number of relationship
    keys of the filter, and the walk returns a result (throws nothing)
    on well-shaped filters when its collaborators throw nothing, which
    both files' parsers inherit with their own shortcuts ([shortcut1],
    [shortcut2]), given that [ObjectId] and the tokenizers throw
    nothing. *)

From Stdlib Require Import String Ascii ZArith Sorted.
From stdpp Require Import base list strings.
From S2P Require Import Prelude JsValue Collaborators Joiner Exclusion Suffix Shortcut Parser.

Open Scope string_scope.

(** ** The generic invariant rule *)

Section WalkInvariant.
Context {St : Type} `{LA : ListAdapter} `{V : QueryVariant St}.

Variable Inv : St -> list RelEntry -> St -> Prop.
Variable Top : ParseResult -> Prop.
Hypothesis Inv_nil : forall s, Inv s [] s.
Hypothesis Inv_app : forall s es1 s1 es2 s2, Inv s es1 s1 -> Inv s1 es2 s2 -> Inv s (es1 ++ es2)%list s2.
Hypothesis Inv_shortcut : forall k p s mt info s1,
  relationshipStep k p s = Ok ((mt, info), s1) -> Inv s [] s1.
Hypothesis Inv_branch : forall k p s mt info s1 sub s2,
  relationshipStep k p s = Ok ((mt, info), s1) -> Inv s1 (relationships sub) s2 -> Top sub ->
  Inv s [mkRelEntry info sub] s2.
Hypothesis Top_finish : forall parts include, Top (finishResult parts include).

Definition walkPost (s : St) (r : ParseResult) (s' : St) : Prop := Inv s (relationships r) s' /\ Top r.

Definition entriesPost (s : St) (ps : list Partial) (s' : St) : Prop :=
  Inv s (concat (map pRelationships ps)) s'.

Lemma entriesPost_nil s : entriesPost s [] s.
Proof. apply Inv_nil. Qed.

Lemma entriesPost_cons s p s1 ps s2 :
  Inv s (pRelationships p) s1 -> entriesPost s1 ps s2 -> entriesPost s (p :: ps) s2.
Proof. apply Inv_app. Qed.

(** One entry [key: value] of an object, given the invariant of the
    recursive calls on [value] and on the elements of an array [value]. *)
Lemma parseEntry_post (rec : jsval -> list seg -> stM St exn ParseResult) q path k v :
  (forall p', spost (rec v p') walkPost) ->
  (forall qs, v = JArr qs -> Forall (fun q' => forall p', spost (rec q' p') walkPost) qs) ->
  spost (parseEntry rec q path (k, v)) (fun s p s' => Inv s (pRelationships p) s').
Proof.
  intros Hv Harr s p s' H. unfold parseEntry in H.
  destruct (isLogicalKey k).
  { destruct v as [| | | | | qs |]; try discriminate H.
    apply sbind_inv in H as (rs & s1 & Hrs & H). invc H.
    unfold flattenQueries, flatten; cbn. rewrite map_map.
    revert s rs s' Hrs.
    apply (spost_smapiM _ walkPost (fun s rs s' => Inv s (concat (map relationships rs)) s'));
      [| apply Inv_nil |].
    - intros n q' Hin. by apply (proj1 (List.Forall_forall _ qs) (Harr qs eq_refl)).
    - intros s r s1 rs s2 [Hr _] Hrs. exact (Inv_app _ _ s1 _ _ Hr Hrs). }
  destruct (isModifierKey k).
  { apply sbind_inv in H as (t & s1 & Ht & H). invc H. unfold slift in Ht.
    destruct (modifierTokenizer _ _ _); invc Ht. apply Inv_nil. }
  destruct (String.eqb k "id").
  { destruct (String.eqb (getType v) "Object"); [invc H; apply Inv_nil|].
    apply sbind_inv in H as (t & s1 & Ht & H). invc H. unfold slift in Ht.
    destruct (simpleTokenizer _ _ _); invc Ht. apply Inv_nil. }
  destruct (String.eqb (getType v) "Object").
  - apply sbind_inv in H as ([mt info] & s1 & Hstep & H).
    apply sbind_inv in H as (sc & s2 & Hsc & H). unfold slift in Hsc.
    destruct (relationshipShortcut k info v); invc Hsc.
    destruct sc as [c|].
    + invc H. eapply Inv_shortcut; eauto.
    + apply sbind_inv in H as (sub & s3 & Hsub & H). invc H.
      destruct (Hv _ _ _ _ Hsub). eapply Inv_branch; eauto.
  - apply sbind_inv in H as (t & s1 & Ht & H). invc H. unfold slift in Ht.
    destruct (simpleTokenizer _ _ _); invc Ht. apply Inv_nil.
Qed.

(** The invariant rule of the walk. *)
Lemma walk_post (q : jsval) : forall path include, spost (queryParserWith q path include) walkPost.
Proof.
  induction q as [v Hv | ps IH] using jsval_obj_ind; intros path include.
  { destruct v; try apply spost_throw. by destruct (Hv props). }
  cbn [queryParserWith]. apply (spost_bind _ _ entriesPost).
  - apply (spost_smapM _ (fun s p s' => Inv s (pRelationships p) s'));
      [| apply entriesPost_nil | intros; by eapply entriesPost_cons].
    intros [k v] Hin. apply (proj1 (List.Forall_forall _ ps) IH) in Hin as [Hv Harr].
    apply parseEntry_post; [done|]. intros qs Hqs. specialize (Harr qs Hqs).
    eapply Forall_impl; [exact Harr|]. intros q' Hq' p'. apply Hq'.
  - intros s parts s1 Hparts r s2 H. invc H. split; [exact Hparts | apply Top_finish].
Qed.
End WalkInvariant.

(** ** Well-formed results *)

(** A match term is [undefined] or truthy: no falsy placeholder reaches
    the pipeline. *)
Definition wfTerm (m : jsval) : bool := truthy m || bool_decide (m = JUndefined).

(** The shape of one level of a result: its match term, its pipeline
    stages (all truthy) and its [excludeFields] (to-many fields of the
    adapter). *)
Definition wfLevel (fas : list FieldAdapter) (r : ParseResult) : bool :=
  wfTerm (matchTerm r) && forallb truthy (postJoinPipeline r) &&
  forallb (fun f => existsb (String.eqb f) (toManyPaths fas)) (excludeFields r).

(** Every level of a result, through its relationship branches. *)
Fixpoint wf_result (fas : list FieldAdapter) (r : ParseResult) : bool :=
  match r with
  | mkParseResult m pipe rels excl =>
      wfLevel fas (mkParseResult m pipe rels excl) && forallb (wf_entry fas) rels
  end
with wf_entry (fas : list FieldAdapter) (e : RelEntry) : bool :=
  match e with
  | mkRelEntry _ sub => wf_result fas sub
  end.

Lemma wf_result_eq fas r :
  wf_result fas r = wfLevel fas r && forallb (wf_entry fas) (relationships r).
Proof. by destruct r. Qed.

Lemma finishResult_wfLevel `{LA : ListAdapter} parts include :
  wfLevel fieldAdapters (finishResult parts include) = true.
Proof.
  unfold wfLevel, finishResult, flattenQueries; cbn. apply andb_true_intro; split; [apply andb_true_intro; split|].
  - unfold wfTerm. destruct (truthy _) eqn:Ht; [done|].
    rewrite (joinTerms_truthy _ _ (filter_truthy_all _) Ht). by rewrite bool_decide_eq_true_2.
  - apply forallb_forall. intros t Ht. by apply filter_In in Ht as [_ ?].
  - apply forallb_forall. intros f Hf. unfold excludeFieldsOf in Hf. apply filter_In in Hf as [Hf _].
    apply existsb_exists. exists f. by rewrite String.eqb_refl.
Qed.

Section WellFormed.
Context {St : Type} `{LA : ListAdapter} `{V : QueryVariant St}.

Definition wfInv (s : St) (es : list RelEntry) (s' : St) : Prop :=
  Forall (fun e => wf_entry fieldAdapters e = true) es.

Lemma wf_walk q path include : spost (queryParserWith q path include)
  (walkPost wfInv (fun r => wfLevel fieldAdapters r = true)).
Proof.
  apply walk_post; unfold wfInv.
  - intros; constructor.
  - intros s es1 s1 es2 s2 H1 H2. by apply Forall_app_2.
  - intros; constructor.
  - intros k p s mt info s1 sub s2 _ Hrels Htop. repeat constructor. cbn.
    rewrite wf_result_eq, Htop. apply forallb_forall. by apply List.Forall_forall.
  - intros. apply finishResult_wfLevel.
Qed.
End WellFormed.

(** ** Correlation tokens *)

(** The [relationshipInfo.uniqueField] of every branch of a result, in
    pre-order. *)
Fixpoint resultUids (r : ParseResult) : list jsval :=
  match r with
  | mkParseResult _ _ rels _ => concat (map entryUids rels)
  end
with entryUids (e : RelEntry) : list jsval :=
  match e with
  | mkRelEntry info sub => js_get info "uniqueField" :: resultUids sub
  end.

Section Fresh.
Context {St : Type} `{LA : ListAdapter} `{V : QueryVariant St} `{FT : !FreshTokens St V}.

(** Every token of [us] was issued at a counter value in [[lo, hi)]. *)
Definition tokensIn (lo hi : nat) (us : list jsval) : Prop :=
  Forall (fun u => exists k t, u = token k t /\ lo <= stamp t < hi) us.

(** A run from [s] to [s'] issued the pairwise distinct tokens [us]. *)
Definition freshRun (s : St) (us : list jsval) (s' : St) : Prop :=
  stamp s <= stamp s' /\ NoDup us /\ tokensIn (stamp s) (stamp s') us.

Lemma tokensIn_widen lo hi lo' hi' us :
  lo' <= lo -> hi <= hi' -> tokensIn lo hi us -> tokensIn lo' hi' us.
Proof.
  intros Hlo Hhi H. eapply Forall_impl; [exact H|]. intros u (k & t & -> & ?). exists k, t. split; [done | lia].
Qed.

(** [u1] was issued before [u2]: at a smaller counter value. *)
Definition issuedBefore (u1 u2 : jsval) : Prop :=
  exists k1 t1 k2 t2, u1 = token k1 t1 /\ u2 = token k2 t2 /\ stamp t1 < stamp t2.

(** A run from [s] to [s'] issued the tokens [us], in the order of [us]. *)
Definition orderedRun (s : St) (us : list jsval) (s' : St) : Prop :=
  stamp s <= stamp s' /\ StronglySorted issuedBefore us /\ tokensIn (stamp s) (stamp s') us.

Lemma issuedBefore_irrefl u : ~ issuedBefore u u.
Proof. intros (k1 & t1 & k2 & t2 & -> & Heq & Hlt). apply token_inj in Heq. lia. Qed.

(** Every token of an earlier counter range was issued before every token
    of a later one. *)
Lemma tokensIn_before lo mid hi us1 us2 u1 u2 :
  tokensIn lo mid us1 -> tokensIn mid hi us2 -> In u1 us1 -> In u2 us2 -> issuedBefore u1 u2.
Proof.
  intros H1 H2 Hu1 Hu2.
  apply (proj1 (List.Forall_forall _ _) H1) in Hu1 as (k1 & t1 & -> & ?).
  apply (proj1 (List.Forall_forall _ _) H2) in Hu2 as (k2 & t2 & -> & ?).
  exists k1, t1, k2, t2. split; [done|]. split; [done | lia].
Qed.

Lemma orderedRun_app s us1 s1 us2 s2 :
  orderedRun s us1 s1 -> orderedRun s1 us2 s2 -> orderedRun s (us1 ++ us2)%list s2.
Proof.
  intros (? & Hs1 & Hin1) (? & Hs2 & Hin2). split; [lia|]. split.
  - apply StronglySorted_app; [done | done |]. intros x y Hx Hy. exact (tokensIn_before _ _ _ _ _ x y Hin1 Hin2 Hx Hy).
  - apply Forall_app_2; (eapply tokensIn_widen; [..| eassumption]); lia.
Qed.

(** An ordered run issued pairwise distinct tokens. *)
Lemma orderedRun_fresh s us s' : orderedRun s us s' -> freshRun s us s'.
Proof.
  intros (? & Hs & Hin). split; [done|]. split; [|done].
  exact (StronglySorted_NoDup _ _ issuedBefore_irrefl Hs).
Qed.

Definition orderedInv (s : St) (es : list RelEntry) (s' : St) : Prop :=
  orderedRun s (concat (map entryUids es)) s'.

Lemma ordered_walk q path include :
  spost (queryParserWith q path include) (walkPost orderedInv (fun _ => True)).
Proof.
  apply walk_post; unfold orderedInv; cbn.
  - intros s. split; [done|]. split; constructor.
  - intros s es1 s1 es2 s2 H1 H2. rewrite map_app, concat_app. by eapply orderedRun_app.
  - intros k p s mt info s1 Hstep. apply step_fresh in Hstep as [Hs _].
    split; [lia|]. split; constructor.
  - intros k p s mt info s1 [m pipe rels excl] s2 Hstep (Hle & Hsort & Hin) _.
    apply step_fresh in Hstep as [Hs Hu]. rewrite app_nil_r. cbn. rewrite Hu. split; [lia|]. split.
    + constructor; [done|]. apply List.Forall_forall. intros u' Hu'.
      apply (proj1 (List.Forall_forall _ _) Hin) in Hu' as (k' & t & -> & ?).
      exists k, s, k', t. split; [done|]. split; [done | lia].
    + constructor; [exists k, s; split; [done | lia]|]. eapply tokensIn_widen; [..| eassumption]; lia.
  - done.
Qed.
End Fresh.

(** ** How many times the generator is called *)

Section Bound.
Context {St : Type} `{LA : ListAdapter} `{V : QueryVariant St}.

(** The relationship keys of a filter, at every depth: the keys whose
    value is an object and which are not [AND]/[OR], a modifier or
    [id]; [AND]/[OR] arrays count their elements' keys. *)
Definition relKeysOf (rec : jsval -> nat) (k : string) (v : jsval) : nat :=
  if isLogicalKey k then match v with JArr qs => list_sum (map rec qs) | _ => 0 end
  else if isModifierKey k then 0
  else if String.eqb k "id" then 0
  else if String.eqb (getType v) "Object" then S (rec v)
  else 0.

Fixpoint relKeys (q : jsval) : nat :=
  match q with
  | JObj ps => list_sum (map (fun kv => relKeysOf relKeys kv.1 kv.2) ps)
  | _ => 0
  end.

Lemma relKeys_obj ps : relKeys (JObj ps) = list_sum (map (fun kv => relKeysOf relKeys kv.1 kv.2) ps).
Proof. reflexivity. Qed.

Context `{FT : !FreshTokens St V}.

Definition costPost {A} (c : nat) (s : St) (_ : A) (s' : St) : Prop :=
  stamp s <= stamp s' <= stamp s + c.

Lemma parseEntry_cost (rec : jsval -> list seg -> stM St exn ParseResult) q path k v :
  (forall p', spost (rec v p') (costPost (relKeys v))) ->
  (forall qs, v = JArr qs -> Forall (fun q' => forall p', spost (rec q' p') (costPost (relKeys q'))) qs) ->
  spost (parseEntry rec q path (k, v)) (costPost (relKeysOf relKeys k v)).
Proof.
  intros Hv Harr s p s' H. unfold parseEntry, relKeysOf, costPost in *.
  destruct (isLogicalKey k).
  { destruct v as [| | | | | qs |]; try discriminate H.
    apply sbind_inv in H as (rs & s1 & Hrs & H). invc H.
    revert Hrs. apply spost_smapiM_cost. intros n q' Hin.
    by apply (proj1 (List.Forall_forall _ qs) (Harr qs eq_refl)). }
  destruct (isModifierKey k).
  { apply sbind_inv in H as (t & s1 & Ht & H). invc H. unfold slift in Ht.
    destruct (modifierTokenizer _ _ _); invc Ht. lia. }
  destruct (String.eqb k "id").
  { destruct (String.eqb (getType v) "Object"); [invc H; lia|].
    apply sbind_inv in H as (t & s1 & Ht & H). invc H. unfold slift in Ht.
    destruct (simpleTokenizer _ _ _); invc Ht. lia. }
  destruct (String.eqb (getType v) "Object").
  - apply sbind_inv in H as ([mt info] & s1 & Hstep & H). apply step_fresh in Hstep as [Hs _].
    apply sbind_inv in H as (sc & s2 & Hsc & H). unfold slift in Hsc.
    destruct (relationshipShortcut k info v); invc Hsc.
    destruct sc as [c|].
    + invc H. lia.
    + apply sbind_inv in H as (sub & s3 & Hsub & H). invc H. apply Hv in Hsub. lia.
  - apply sbind_inv in H as (t & s1 & Ht & H). invc H. unfold slift in Ht.
    destruct (simpleTokenizer _ _ _); invc Ht. lia.
Qed.

Lemma walk_cost (q : jsval) : forall path include,
  spost (queryParserWith q path include) (costPost (relKeys q)).
Proof.
  induction q as [v Hv | ps IH] using jsval_obj_ind; intros path include.
  { destruct v; try apply spost_throw. by destruct (Hv props). }
  cbn [queryParserWith]. rewrite relKeys_obj.
  apply (spost_bind _ _ (fun s _ s' => costPost (list_sum (map (fun kv => relKeysOf relKeys kv.1 kv.2) ps)) s tt s')).
  - apply spost_smapM_cost. intros [k v] Hin.
    apply (proj1 (List.Forall_forall _ ps) IH) in Hin as [Hv Harr].
    apply parseEntry_cost; [done|]. intros qs Hqs. specialize (Harr qs Hqs).
    eapply Forall_impl; [exact Harr|]. intros q' Hq' p'. apply Hq'.
  - intros s parts s1 Hparts r s2 H. by invc H.
Qed.
End Bound.

(** ** When the walk throws nothing *)

Section Total.
Context {St : Type} `{LA : ListAdapter} `{V : QueryVariant St}.
Variable idArgOk : jsval -> bool.
Variable relKeyOk : string -> bool.

(** A filter the walk can parse: an object whose [AND]/[OR] values are
    arrays of such filters, and whose relationship keys are keys the
    relationship tokenizer accepts ([relKeyOk]), with filters that are
    such filters with identity arguments [ObjectId] accepts. *)
Definition wellShapedOf (rec : jsval -> bool) (k : string) (v : jsval) : bool :=
  if isLogicalKey k then match v with JArr qs => forallb rec qs | _ => false end
  else if isModifierKey k then true
  else if String.eqb k "id" then true
  else if String.eqb (getType v) "Object" then relKeyOk k && identityArgsOk idArgOk v && rec v
  else true.

Fixpoint wellShaped (q : jsval) : bool :=
  match q with
  | JObj ps => forallb (fun kv => wellShapedOf wellShaped kv.1 kv.2) ps
  | _ => false
  end.

Lemma wellShaped_obj ps : wellShaped (JObj ps) = forallb (fun kv => wellShapedOf wellShaped kv.1 kv.2) ps.
Proof. reflexivity. Qed.

(** The collaborators throw nothing. *)
Hypothesis simple_total : forall q k p, exists t, simpleTokenizer q k p = Ok t.
Hypothesis modifier_total : forall q k p, exists t, modifierTokenizer q k p = Ok t.
Hypothesis step_total : forall k p s, relKeyOk k = true -> exists r, relationshipStep k p s = Ok r.
Hypothesis shortcut_total : forall k p s mt info s1 v, relKeyOk k = true ->
  relationshipStep k p s = Ok ((mt, info), s1) ->
  identityArgsOk idArgOk v = true -> exists o, relationshipShortcut k info v = Ok o.

Definition returns {A} (m : stM St exn A) : Prop := forall s, exists a s', m s = Ok (a, s').

Lemma slift_returns {A} (r : jsres A) : (exists a, r = Ok a) -> returns (slift r).
Proof. intros [a ->] s. eauto. Qed.

Lemma sbind_returns {A B} (m : stM St exn A) (k : A -> stM St exn B) :
  returns m -> (forall a, returns (k a)) -> returns (sbind m k).
Proof.
  intros Hm Hk s. destruct (Hm s) as (a & s1 & H1). destruct (Hk a s1) as (b & s2 & H2).
  exists b, s2. by rewrite (sbind_ok _ _ _ _ _ H1).
Qed.

Lemma parseEntry_total (rec : jsval -> list seg -> stM St exn ParseResult) q path k v :
  wellShapedOf wellShaped k v = true ->
  (wellShaped v = true -> forall p', returns (rec v p')) ->
  (forall qs, v = JArr qs -> Forall (fun q' => wellShaped q' = true -> forall p', returns (rec q' p')) qs) ->
  returns (parseEntry rec q path (k, v)).
Proof.
  unfold wellShapedOf. intros Hws Hv Harr. unfold parseEntry.
  destruct (isLogicalKey k).
  { destruct v as [| | | | | qs |]; try discriminate Hws.
    apply sbind_returns; [|intros; intros s; eauto]. intros s. apply smapiM_total.
    intros n q' s' Hin. apply forallb_forall with (x := q') in Hws; [|done].
    by apply (proj1 (List.Forall_forall _ qs) (Harr qs eq_refl)). }
  destruct (isModifierKey k).
  { apply sbind_returns; [apply slift_returns, modifier_total | intros; intros s; eauto]. }
  destruct (String.eqb k "id").
  { destruct (String.eqb (getType v) "Object"); [intros s; eauto|].
    apply sbind_returns; [apply slift_returns, simple_total | intros; intros s; eauto]. }
  destruct (String.eqb (getType v) "Object").
  - apply andb_true_iff in Hws as [Hws Hsub]. apply andb_true_iff in Hws as [Hkey Hargs].
    intros s. destruct (step_total k (path ++ [PKey k])%list s Hkey) as [[[mt info] s1] Hstep].
    destruct (shortcut_total _ _ _ _ _ _ v Hkey Hstep Hargs) as [o Ho].
    unfold sbind at 1. rewrite Hstep. cbv beta iota.
    apply sbind_returns; [apply slift_returns; eauto|].
    intros [c|]; [intros s2; eauto|]. apply sbind_returns; [by apply Hv | intros; intros s2; eauto].
  - apply sbind_returns; [apply slift_returns, simple_total | intros; intros s; eauto].
Qed.

Lemma walk_total (q : jsval) : wellShaped q = true -> forall path include,
  returns (queryParserWith q path include).
Proof.
  induction q as [v Hv | ps IH] using jsval_obj_ind; intros Hws path include.
  { destruct v; try discriminate Hws. by destruct (Hv props). }
  cbn [queryParserWith]. apply sbind_returns; [|intros; intros s; eauto].
  intros s. apply smapM_total. intros [k v] s' Hin.
  rewrite wellShaped_obj in Hws. apply forallb_forall with (x := (k, v)) in Hws; [|done].
  apply (proj1 (List.Forall_forall _ ps) IH) in Hin as [Hv Harr].
  apply parseEntry_total; [done | intros; by apply Hv|].
  intros qs Hqs. specialize (Harr qs Hqs). eapply Forall_impl; [exact Harr|].
  intros q' Hq' Hw p'. by apply Hq'.
Qed.

End Total.

(** C5: both files' [queryParser] return a result: on a well-shaped
    filter (its relationship keys accepted by the relationship tokenizer,
    its identity arguments accepted by [ObjectId]), when the simple and
    modifier tokenizers throw nothing, [ObjectId] throws nothing on the
    accepted arguments, and the relationship tokenizers throw nothing on
    the accepted keys (variant 1's returning a [relationshipInfo] whose
    [field] can be read), the parser throws nothing, from every generator
    state; the identity shortcuts, called with the code's own tests,
    throw nothing on such filters. *)
Theorem queryParser_total `{LA : ListAdapter} (idArgOk : jsval -> bool) (relKeyOk : string -> bool)
  {St1 : Type} `{U : UidGen St1} `{R1 : RelTokenizer1} {St2 : Type} `{R2 : RelTokenizer2 St2} :
  (forall q k p, exists t, simpleTokenizer q k p = Ok t) ->
  (forall q k p, exists t, modifierTokenizer q k p = Ok t) ->
  (forall a, idArgOk a = true -> exists o, objectId a = Ok o) ->
  (forall k p uid, relKeyOk k = true ->
     exists mt info, relationshipTokenizer1 k p uid = Ok (mt, info) /\ info <> JUndefined /\ info <> JNull) ->
  (forall k p s, relKeyOk k = true -> exists r, relationshipTokenizer2 k p s = Ok r) ->
  forall (q : jsval) (path : list seg) (include : jsval),
  (wellShaped (V := MongoJoinBuilder.variant (St := St1)) idArgOk relKeyOk q = true ->
     forall s, exists r s', MongoJoinBuilder.queryParser (St := St1) q path include s = Ok (r, s')) /\
  (wellShaped (V := AdapterMongoose.variant (St := St2)) idArgOk relKeyOk q = true ->
     forall s, exists r s', AdapterMongoose.queryParser (St := St2) q path include s = Ok (r, s')).
Proof.
  intros Hsimple Hmod Hoid Hrel1 Hrel2 q path include. split; intros Hws s.
  - refine (walk_total (V := MongoJoinBuilder.variant) idArgOk relKeyOk Hsimple Hmod _ _ q Hws path include s).
    + intros k p s0 Hk. cbn. unfold MongoJoinBuilder.relationshipStep1. destruct (getUID k s0) as [uid s1].
      destruct (Hrel1 k p uid Hk) as (mt & info & -> & _). eauto.
    + intros k p s0 mt info s1 v Hk Hstep Hargs. cbn in Hstep |- *.
      unfold MongoJoinBuilder.relationshipStep1 in Hstep. destruct (getUID k s0) as [uid s2].
      destruct (Hrel1 k p uid Hk) as (mt' & info' & Ht & Hu & Hn). rewrite Ht in Hstep. invc Hstep.
      exact (shortcut1_total idArgOk Hoid k info v Hu Hn Hargs).
  - refine (walk_total (V := AdapterMongoose.variant) idArgOk relKeyOk Hsimple Hmod _ _ q Hws path include s).
    + intros k p s0 Hk. exact (Hrel2 k p s0 Hk).
    + intros k p s0 mt info s1 v _ _ Hargs. exact (shortcut2_total idArgOk Hoid k v Hargs).
Qed.

(** ** Properties of every run *)

Section Properties.
Context {St : Type} `{LA : ListAdapter} `{V : QueryVariant St}.

(** C7: every result is well formed, at every depth of its relationship
    branches: its match term is [undefined] or truthy, its pipeline
    stages are truthy, and its [excludeFields] are to-many relationship
    fields of the adapter. *)
Theorem queryParser_wf (q : jsval) (path : list seg) (include : jsval) (s s' : St) (r : ParseResult) :
  queryParserWith q path include s = Ok (r, s') -> wf_result fieldAdapters r = true.
Proof.
  intros H. destruct (wf_walk q path include s r s' H) as [Hrels Htop].
  rewrite wf_result_eq, Htop. apply forallb_forall. by apply List.Forall_forall.
Qed.

Context `{FT : !FreshTokens St V}.

(** C6: the correlation tokens ([relationshipInfo.uniqueField]) of all
    the relationship branches of a result, at every depth, are pairwise
    distinct, and each was issued by the generator between the initial
    and the final state of the run. *)
Theorem queryParser_tokens_fresh (q : jsval) (path : list seg) (include : jsval) (s s' : St)
  (r : ParseResult) :
  queryParserWith q path include s = Ok (r, s') -> freshRun s (resultUids r) s'.
Proof.
  intros H. destruct (ordered_walk q path include s r s' H) as [Ho _].
  apply orderedRun_fresh. by destruct r.
Qed.

(** C9: the branches are listed in the order the generator issued their
    correlation tokens: in pre-order (a branch before the branches of its
    own filter, sibling keys in entry order, [AND]/[OR] elements in array
    order), the tokens of a result were issued at strictly increasing
    counter values. *)
Theorem queryParser_tokens_in_order (q : jsval) (path : list seg) (include : jsval) (s s' : St)
  (r : ParseResult) :
  queryParserWith q path include s = Ok (r, s') -> StronglySorted issuedBefore (resultUids r).
Proof.
  intros H. destruct (ordered_walk q path include s r s' H) as [(_ & Hs & _) _]. by destruct r.
Qed.

(** C8: the generator is called at most once per relationship key of
    the filter (at every depth; a shortcut key still calls it once, and
    its filter is not walked). *)
Theorem queryParser_generator_bound (q : jsval) (path : list seg) (include : jsval) (s s' : St)
  (r : ParseResult) :
  queryParserWith q path include s = Ok (r, s') -> stamp s <= stamp s' <= stamp s + relKeys q.
Proof. intros H. exact (walk_cost q path include s r s' H). Qed.
End Properties.

(** ** The sample collaborators satisfy the interfaces *)

Definition sampleVariant2 : QueryVariant nat := AdapterMongoose.variant.

(** The [uniqueField] the sample tokenizers record for key [k] at counter
    value [n]. *)
Definition sampleToken (k : string) (n : nat) : jsval := JStr (k ++ "_" ++ nat_to_string n).

Lemma sampleToken_inj k1 n1 k2 n2 : sampleToken k1 n1 = sampleToken k2 n2 -> n1 = n2.
Proof.
  intros H. injection H as H. apply nat_to_string_inj.
  apply (sep_suffix_inj "_"%char k1 _ k2); [apply nat_to_string_no_underscore.. | exact H].
Qed.

Lemma sampleStep1_fresh k p s mt info s' :
  relationshipStep (QueryVariant := sampleVariant1) k p s = Ok ((mt, info), s') ->
  s' = S s /\ js_get info "uniqueField" = sampleToken k s.
Proof.
  cbn. unfold sampleRelTokenize. destruct (sampleRelField k); intros H; [by injection H as _ <- <- | discriminate H].
Qed.

Lemma sampleStep2_fresh k p s mt info s' :
  relationshipStep (QueryVariant := sampleVariant2) k p s = Ok ((mt, info), s') ->
  s' = S s /\ js_get info "uniqueField" = sampleToken k s.
Proof.
  cbn. unfold sampleRelTokenize. destruct (sampleRelField k); intros H; [by injection H as _ <- <- | discriminate H].
Qed.

#[export] Instance sampleFresh1 : FreshTokens nat sampleVariant1 := {
  stamp := fun n => n;
  token := sampleToken;
  step_fresh := sampleStep1_fresh;
  token_inj := sampleToken_inj
}.

#[export] Instance sampleFresh2 : FreshTokens nat sampleVariant2 := {
  stamp := fun n => n;
  token := sampleToken;
  step_fresh := sampleStep2_fresh;
  token_inj := sampleToken_inj
}.

(** The sample [ObjectId] accepts strings. *)
Definition isStrArg (v : jsval) : bool := match v with JStr _ => true | _ => false end.

(** The sample relationship tokenizer accepts the keys that start with
    a relationship field. *)
Definition isRelKey (k : string) : bool := match sampleRelField k with Some _ => true | None => false end.

Lemma sampleStep1_total k p s :
  isRelKey k = true -> exists r, relationshipStep (QueryVariant := sampleVariant1) k p s = Ok r.
Proof. unfold isRelKey. cbn. unfold sampleRelTokenize. destruct (sampleRelField k); [eauto | discriminate]. Qed.

Lemma sampleObjectId_total v : isStrArg v = true -> exists o, sampleObjectId v = Ok o.
Proof. destruct v; try discriminate. eauto. Qed.

(** ** Concrete runs *)

(** A filter with a scalar leaf, a relationship branch nested two deep,
    an [OR] whose elements hold a relationship branch and an identity
    shortcut. *)
Definition sampleNested : jsval :=
  JObj [("name", JStr "x");
        ("posts_some", JObj [("title", JStr "t"); ("author", JObj [("name", JStr "y")])]);
        ("OR", JArr [JObj [("friends_every", JObj [("name", JStr "z")])];
                     JObj [("tags_none", JObj [("id", JStr "a")])]])].

Lemma queryParser_total_witness :
  wellShaped (V := sampleVariant1) isStrArg isRelKey sampleNested = true /\
  wellShaped (V := sampleVariant2) isStrArg isRelKey sampleNested = true /\
  (exists r s', MongoJoinBuilder.queryParser (St := nat) sampleNested [] JUndefined 0 = Ok (r, s')) /\
  (exists r s', AdapterMongoose.queryParser (St := nat) sampleNested [] JUndefined 0 = Ok (r, s')).
Proof.
  assert (Hws1 : wellShaped (V := sampleVariant1) isStrArg isRelKey sampleNested = true)
    by (vm_compute; reflexivity).
  assert (Hws2 : wellShaped (V := sampleVariant2) isStrArg isRelKey sampleNested = true)
    by (vm_compute; reflexivity).
  destruct (queryParser_total (LA := sampleAdapter) isStrArg isRelKey (U := counterUid)
              (R1 := sampleRelTokenizer1) (R2 := sampleRelTokenizer2))
    with (q := sampleNested) (path := @nil seg) (include := JUndefined) as [H1 H2].
  - intros; eexists; reflexivity.
  - intros; eexists; reflexivity.
  - exact sampleObjectId_total.
  - intros k p uid Hk. unfold isRelKey in Hk. cbn. unfold sampleRelTokenize.
    destruct (sampleRelField k); [|discriminate Hk]. do 2 eexists. split; [reflexivity | split; discriminate].
  - intros k p s Hk. unfold isRelKey in Hk. cbn. unfold sampleRelTokenize.
    destruct (sampleRelField k); [eauto | discriminate Hk].
  - split; [exact Hws1|]. split; [exact Hws2|]. split; [exact (H1 Hws1 0) | exact (H2 Hws2 0)].
Defined.

Lemma queryParser_wf_witness :
  match queryParserWith (V := sampleVariant1) sampleNested [] JUndefined 0 with
  | Ok (r, s') => queryParserWith (V := sampleVariant1) sampleNested [] JUndefined 0 = Ok (r, s') /\
                  wf_result fieldAdapters r = true
  | Throw _ => False
  end.
Proof.
  destruct (queryParserWith (V := sampleVariant1) sampleNested [] JUndefined 0) as [[r s']|e] eqn:E.
  - split; [reflexivity | exact (queryParser_wf _ _ _ _ _ _ E)].
  - vm_compute in E. discriminate E.
Defined.

Lemma queryParser_tokens_fresh_witness :
  match queryParserWith (V := sampleVariant1) sampleNested [] JUndefined 0 with
  | Ok (r, s') => queryParserWith (V := sampleVariant1) sampleNested [] JUndefined 0 = Ok (r, s') /\
                  freshRun (V := sampleVariant1) 0 (resultUids r) s'
  | Throw _ => False
  end.
Proof.
  destruct (queryParserWith (V := sampleVariant1) sampleNested [] JUndefined 0) as [[r s']|e] eqn:E.
  - split; [reflexivity | exact (queryParser_tokens_fresh _ _ _ _ _ _ E)].
  - vm_compute in E. discriminate E.
Defined.

Lemma queryParser_tokens_in_order_witness :
  match queryParserWith (V := sampleVariant1) sampleNested [] JUndefined 0 with
  | Ok (r, s') => queryParserWith (V := sampleVariant1) sampleNested [] JUndefined 0 = Ok (r, s') /\
                  StronglySorted (issuedBefore (V := sampleVariant1)) (resultUids r) /\ 2 <= length (resultUids r)
  | Throw _ => False
  end.
Proof.
  destruct (queryParserWith (V := sampleVariant1) sampleNested [] JUndefined 0) as [[r s']|e] eqn:E.
  - split; [reflexivity|]. split; [exact (queryParser_tokens_in_order _ _ _ _ _ _ E)|].
    vm_compute in E. injection E as <- _. vm_compute. lia.
  - vm_compute in E. discriminate E.
Defined.

Lemma queryParser_generator_bound_witness :
  match queryParserWith (V := sampleVariant2) sampleNested [] JUndefined 0 with
  | Ok (r, s') => queryParserWith (V := sampleVariant2) sampleNested [] JUndefined 0 = Ok (r, s') /\
                  0 <= s' <= 0 + relKeys (V := sampleVariant2) sampleNested
  | Throw _ => False
  end.
Proof.
  destruct (queryParserWith (V := sampleVariant2) sampleNested [] JUndefined 0) as [[r s']|e] eqn:E.
  - split; [reflexivity | exact (queryParser_generator_bound _ _ _ _ _ _ E)].
  - vm_compute in E. discriminate E.
Defined.
