(* ===== verification/Depth.v ===== *)
(** * Depth of the relationship tree

    The relationship branches of a result mirror the relationship keys
    of the filter (spec: "Relationship branches are a strict tree ...
    depth equals the nesting depth of the input").  [resultDepth] is the
    depth of the tree of [relationships] entries, [relDepth] the nesting
    depth of relationship keys in the filter (through [AND]/[OR] arrays,
    which add no level).  Every run returns a tree no deeper than the
    filter's relationship nesting; it is shallower only where a shortcut
    replaces a branch by a comparison. *)

From Stdlib Require Import String ZArith Lia.
From stdpp Require Import base list strings.
From S2P Require Import Prelude JsValue Collaborators Joiner Exclusion Suffix Shortcut Parser Walk.

Open Scope string_scope.

(** The depth of the tree of relationship entries of a result. *)
Fixpoint resultDepth (r : ParseResult) : nat :=
  match r with
  | mkParseResult _ _ rels _ => list_max (map entryDepth rels)
  end
with entryDepth (e : RelEntry) : nat :=
  match e with
  | mkRelEntry _ sub => S (resultDepth sub)
  end.

Definition relsDepth (es : list RelEntry) : nat := list_max (map entryDepth es).

Section Depth.
Context {St : Type} `{LA : ListAdapter} `{V : QueryVariant St}.

(** The nesting depth of relationship keys: a relationship key adds a
    level, an [AND]/[OR] array takes the deepest of its filters. *)
Definition relDepthOf (rec : jsval -> nat) (k : string) (v : jsval) : nat :=
  if isLogicalKey k then match v with JArr qs => list_max (map rec qs) | _ => 0 end
  else if isModifierKey k then 0
  else if String.eqb k "id" then 0
  else if String.eqb (getType v) "Object" then S (rec v)
  else 0.

Fixpoint relDepth (q : jsval) : nat :=
  match q with
  | JObj ps => list_max (map (fun kv => relDepthOf relDepth kv.1 kv.2) ps)
  | _ => 0
  end.

Lemma resultDepth_rels r : resultDepth r = relsDepth (relationships r).
Proof. by destruct r. Qed.

Lemma relsDepth_app es1 es2 : relsDepth (es1 ++ es2) = Nat.max (relsDepth es1) (relsDepth es2).
Proof. unfold relsDepth. by rewrite map_app, list_max_app. Qed.


Definition depthPost {A} (rels : A -> list RelEntry) (n : nat) (s : St) (a : A) (s' : St) : Prop :=
  relsDepth (rels a) <= n.

Definition depthsPost {A} (rels : A -> list RelEntry) (n : nat) (s : St) (xs : list A) (s' : St) : Prop :=
  relsDepth (concat (map rels xs)) <= n.

Lemma depthsPost_nil {A} (rels : A -> list RelEntry) n s : depthsPost rels n s [] s.
Proof. unfold depthsPost. cbn. lia. Qed.

Lemma depthsPost_cons {A} (rels : A -> list RelEntry) n s x s1 xs s2 :
  depthPost rels n s x s1 -> depthsPost rels n s1 xs s2 -> depthsPost rels n s (x :: xs) s2.
Proof. unfold depthPost, depthsPost. cbn [map concat]. rewrite relsDepth_app. lia. Qed.

Lemma depthPost_weaken {A} (rels : A -> list RelEntry) n m s a s' :
  depthPost rels n s a s' -> n <= m -> depthPost rels m s a s'.
Proof. unfold depthPost. lia. Qed.


(** One entry [key: value], given the bound for the recursive calls on
    [value] and on the elements of an array [value]. *)
Lemma parseEntry_depth (rec : jsval -> list seg -> stM St exn ParseResult) q path k v :
  (forall p', spost (rec v p') (depthPost relationships (relDepth v))) ->
  (forall qs, v = JArr qs -> Forall (fun q' => forall p', spost (rec q' p') (depthPost relationships (relDepth q'))) qs) ->
  spost (parseEntry rec q path (k, v)) (depthPost pRelationships (relDepthOf relDepth k v)).
Proof.
  intros Hv Harr s p s' H. unfold parseEntry, relDepthOf in *.
  destruct (isLogicalKey k).
  { destruct v as [| | | | | qs |]; try discriminate H.
    apply sbind_inv in H as (rs & s1 & Hrs & H). invc H.
    unfold depthPost, flattenQueries, flatten; cbn [pRelationships]. rewrite map_map.
    revert s rs s' Hrs. apply (spost_smapiM _ (depthPost relationships (list_max (map relDepth qs))) (depthsPost relationships _));
      [| apply depthsPost_nil | apply depthsPost_cons].
    intros n q' Hin. pose proof (proj1 (List.Forall_forall _ qs) (Harr qs eq_refl) q' Hin) as Hq'.
    intros s r s' Hr. eapply depthPost_weaken; [exact (Hq' _ _ _ _ Hr)|].
    apply in_le_list_max, in_map, Hin. }
  unfold depthPost.
  destruct (isModifierKey k).
  { apply sbind_inv in H as (t & s1 & Ht & H). invc H. unfold slift in Ht.
    destruct (modifierTokenizer _ _ _); invc Ht. cbn. lia. }
  destruct (String.eqb k "id").
  { destruct (String.eqb (getType v) "Object"); [invc H; cbn; lia|].
    apply sbind_inv in H as (t & s1 & Ht & H). invc H. unfold slift in Ht.
    destruct (simpleTokenizer _ _ _); invc Ht. cbn. lia. }
  destruct (String.eqb (getType v) "Object").
  - apply sbind_inv in H as ([mt info] & s1 & Hstep & H).
    apply sbind_inv in H as (sc & s2 & Hsc & H). unfold slift in Hsc.
    destruct (relationshipShortcut k info v); invc Hsc.
    destruct sc as [c|].
    + invc H. cbn. lia.
    + apply sbind_inv in H as (sub & s3 & Hsub & H). invc H. apply Hv in Hsub.
      unfold depthPost in Hsub. cbn. rewrite <- resultDepth_rels in Hsub. lia.
  - apply sbind_inv in H as (t & s1 & Ht & H). invc H. unfold slift in Ht.
    destruct (simpleTokenizer _ _ _); invc Ht. cbn. lia.
Qed.

(** The bound for the whole walk, by induction on the filter. *)
Lemma walk_depth (q : jsval) : forall path include,
  spost (queryParserWith q path include) (depthPost relationships (relDepth q)).
Proof.
  induction q as [v Hv | ps IH] using jsval_obj_ind; intros path include.
  { destruct v; try apply spost_throw. by destruct (Hv props). }
  cbn [queryParserWith]. apply (spost_bind _ _ (depthsPost pRelationships (relDepth (JObj ps)))).
  - apply (spost_smapM _ (depthPost pRelationships (relDepth (JObj ps))));
      [| apply depthsPost_nil | apply depthsPost_cons].
    intros [k v] Hin. pose proof (proj1 (List.Forall_forall _ ps) IH _ Hin) as [Hv Harr].
    intros s p s' Hp. eapply depthPost_weaken.
    + refine (parseEntry_depth _ _ _ _ _ (fun p' => Hv p' JUndefined) _ _ _ _ Hp). intros qs Hqs.
      eapply Forall_impl; [exact (Harr qs Hqs)|]. intros q' Hq' p'. apply Hq'.
    + apply (in_le_list_max _ _ (in_map (fun kv => relDepthOf relDepth kv.1 kv.2) _ _ Hin)).
  - intros s parts s1 Hparts r s2 H. invc H. exact Hparts.
Qed.
End Depth.

(** C14: the relationship tree of a result is no deeper than the nesting
    of relationship keys in the filter: every branch the walk records
    corresponds to one relationship key on the way down. *)
Theorem queryParser_depth_bound {St : Type} `{LA : ListAdapter} `{V : QueryVariant St}
  (q : jsval) (path : list seg) (include : jsval) (s s' : St) (r : ParseResult) :
  queryParserWith q path include s = Ok (r, s') -> resultDepth r <= relDepth q.
Proof. intros H. rewrite resultDepth_rels. exact (walk_depth q path include s r s' H). Qed.

(** The bound is reached on the nested sample filter, where no shortcut
    applies. *)
Lemma queryParser_depth_bound_witness :
  match queryParserWith (V := sampleVariant1) sampleNested [] JUndefined 0 with
  | Ok (r, s') => resultDepth r <= relDepth (V := sampleVariant1) sampleNested /\
                 resultDepth r = 2 /\ relDepth (V := sampleVariant1) sampleNested = 2
  | Throw _ => False
  end.
Proof.
  destruct (queryParserWith (V := sampleVariant1) sampleNested [] JUndefined 0) as [[r s']|e] eqn:E.
  - split; [exact (queryParser_depth_bound sampleNested [] JUndefined 0 s' r E)|].
    vm_compute in E. injection E as <- _. split; vm_compute; reflexivity.
  - vm_compute in E. discriminate E.
Defined.
