(* ===== verification/Variants.v ===== *)
(** * Where the two copies of [queryParser] part

    [mongo-join-builder/lib/query-parser.js] and
    [adapter-mongoose/lib/query-parser.js] are two copies of one walk
    ([Parser.queryParserWith]) with three differences, all behind the
    [QueryVariant] interface: the modifier key list ([$sortBy] only in
    the second), how the relationship tokenizer reaches the generator,
    and the shortcut ([Shortcut.shortcut_variants_agree] compares the
    shortcuts).  This file states the first difference for every
    adapter: a [$sortBy] key is a field predicate in the first copy and
    a pipeline stage in the second. *)

From Stdlib Require Import String ZArith.
From stdpp Require Import base list strings.
From S2P Require Import Prelude JsValue Collaborators Joiner Exclusion Suffix Shortcut Parser Walk.

Open Scope string_scope.

(** C22: the copies part at [$sortBy]: for every adapter, every value
    that is not an object, every path and generator state,
    [mongo-join-builder] hands [{ $sortBy: v }] to the simple tokenizer
    as a field predicate (its modifier list, line 37, lacks [$sortBy]),
    while [adapter-mongoose] hands it to the modifier tokenizer and makes
    the stage a pipeline stage (line 36); neither calls the generator. *)
Theorem variants_differ_on_sortBy `{LA : ListAdapter}
  {St1 : Type} `{U : UidGen St1} `{R1 : RelTokenizer1} {St2 : Type} `{R2 : RelTokenizer2 St2}
  (v : jsval) (path : list seg) (include : jsval) (s1 : St1) (s2 : St2) :
  getType v <> "Object" ->
  MongoJoinBuilder.queryParser (JObj [("$sortBy", v)]) path include s1 =
    match simpleTokenizer (JObj [("$sortBy", v)]) "$sortBy" (path ++ [PKey "$sortBy"]) with
    | Ok t => Ok (mkParseResult (if truthy t then t else JUndefined) [] [] (excludeFieldsOf fieldAdapters [] include), s1)
    | Throw e => Throw e
    end /\
  AdapterMongoose.queryParser (JObj [("$sortBy", v)]) path include s2 =
    match modifierTokenizer (JObj [("$sortBy", v)]) "$sortBy" (path ++ [PKey "$sortBy"]) with
    | Ok st => Ok (mkParseResult JUndefined (if truthy st then [st] else []) [] (excludeFieldsOf fieldAdapters [] include), s2)
    | Throw e => Throw e
    end.
Proof.
  intros Hv. apply String.eqb_neq in Hv. split.
  - unfold MongoJoinBuilder.queryParser. cbn [queryParserWith smapM]. unfold sbind, parseEntry. cbn -[getType String.append].
    rewrite Hv. unfold slift. destruct (simpleTokenizer _ _ _) as [t|e]; [|reflexivity].
    unfold sret, finishResult, flattenQueries, flatten. cbn. destruct (truthy t) eqn:Ht; by rewrite ?Ht.
  - unfold AdapterMongoose.queryParser. cbn [queryParserWith smapM]. unfold sbind, parseEntry. cbn -[getType String.append].
    unfold slift. destruct (modifierTokenizer _ _ _) as [t|e]; [|reflexivity].
    unfold sret, finishResult, flattenQueries, flatten. cbn. destruct (truthy t) eqn:Ht; by rewrite ?Ht.
Qed.

Lemma variants_differ_on_sortBy_witness :
  getType (JStr "name_ASC") <> "Object" /\
  MongoJoinBuilder.queryParser (LA := strictAdapter) (St := nat) (JObj [("$sortBy", JStr "name_ASC")]) [] JUndefined 0 =
    Throw (EExternal (JStr "Unknown field $sortBy")) /\
  AdapterMongoose.queryParser (LA := strictAdapter) (St := nat) (JObj [("$sortBy", JStr "name_ASC")]) [] JUndefined 0 =
    Ok (mkParseResult JUndefined [JObj [("$sortBy", JStr "name_ASC")]] [] ["posts"; "tags"; "friends"], 0).
Proof.
  assert (Hv : getType (JStr "name_ASC") <> "Object") by discriminate.
  destruct (variants_differ_on_sortBy (LA := strictAdapter) (U := counterUid) (R1 := sampleRelTokenizer1)
              (R2 := sampleRelTokenizer2) (JStr "name_ASC") [] JUndefined 0 0 Hv) as [H1 H2].
  split; [exact Hv|]. rewrite H1, H2. split; vm_compute; reflexivity.
Defined.

