(* ===== verification/Meaning.v ===== *)
(** * What the compiled match term means

    The parser's [matchTerm] is evaluated by MongoDB's [$match] stage on
    each document of the list; an absent term means no [$match] stage
    (spec 4.2: "0 remaining terms -> absent (no constraint)").  This file
    gives the terms the code builds a meaning ([evalTerm]: [$and], [$or]
    and the one-field conditions of [Semantics.mongoCond]; [None] outside
    that fragment) and gives the filter language its logical meaning
    ([filterSem], spec 4.1: a mapping is the conjunction of its keys,
    [AND] a conjunction and [OR] a disjunction of its filters, modifiers
    constrain nothing, a scalar leaf means what the leaf tokenizer's
    predicate means, a relationship entry what a parameter [relSem]
    says).

    The refinement theorem: on the fragment of filters whose relationship
    entries are admitted by a parameter [relOk] (none, for the logic
    alone: [noRel]), provided the shortcut rewrites each admitted entry
    into a present term meaning [relSem], the compiled match term selects
    a document exactly when the filter holds of it, provided every [OR]
    has alternatives and each of them constrains something.
    [Composition] instantiates [relOk] and [relSem] with the shortcut's
    sound cells and the join's meaning.  The [OR] proviso is needed, and
    [queryParser_or_semantics] says what the code computes without it:
    the joiner drops absent terms before joining with [$or], so an [OR]
    means the disjunction of its alternatives that constrain something,
    and no constraint at all when none does; [{ OR: [] }] constrains
    nothing, and an alternative that constrains nothing (true of every
    document) is dropped instead of making the [OR] hold. *)

From Stdlib Require Import String ZArith.
From stdpp Require Import base list strings.
From S2P Require Import Prelude JsValue Collaborators Joiner Exclusion Suffix Shortcut Parser Semantics.

Open Scope string_scope.

(** ** Optional booleans *)

(** Conjunction and disjunction of evaluations that may fail. *)
Fixpoint oall (l : list (option bool)) : option bool :=
  match l with
  | [] => Some true
  | o :: l' => match o, oall l' with Some b1, Some b2 => Some (b1 && b2) | _, _ => None end
  end.

Fixpoint oany (l : list (option bool)) : option bool :=
  match l with
  | [] => Some false
  | o :: l' => match o, oany l' with Some b1, Some b2 => Some (b1 || b2) | _, _ => None end
  end.

(** ** The meaning of match terms *)

(** MongoDB's evaluation of a match term on a document: [{$and: ts}],
    [{$or: ts}], or a one-field condition. *)
Fixpoint evalTerm (t : jsval) (doc : list (string * jsval)) : option bool :=
  match t with
  | JObj [(k, c)] =>
      if String.eqb k "$and" then
        match c with JArr ts => oall (map (fun t' => evalTerm t' doc) ts) | _ => None end
      else if String.eqb k "$or" then
        match c with JArr ts => oany (map (fun t' => evalTerm t' doc) ts) | _ => None end
      else mongoCond (prop_lookup doc k) c
  | _ => None
  end.

(** The [$match] stage built from an optional term: none when the term is
    absent. *)
Definition matchSem (m : jsval) (doc : list (string * jsval)) : option bool :=
  match m with
  | JUndefined => Some true
  | _ => evalTerm m doc
  end.

(** ** The logical fragment *)

Section Fragment.
Context {St : Type} `{V : QueryVariant St}.

(** The relationship entries [key: value] admitted in the fragment; for
    the logic alone, none ([noRel]). *)
Variable relOk : string -> jsval -> bool.

(** Objects with distinct keys (as JavaScript objects have) whose values
    are [AND]/[OR] arrays of such filters, modifiers, scalar leaves (also
    under [id]), or relationship entries admitted by [relOk]. *)
Definition fragEntry (rec : jsval -> bool) (k : string) (v : jsval) : bool :=
  if isLogicalKey k then match v with JArr qs => forallb rec qs | _ => false end
  else if isModifierKey k then true
  else if String.eqb k "id" then negb (String.eqb (getType v) "Object")
  else if String.eqb (getType v) "Object" then relOk k v
  else true.

Fixpoint inFragment (q : jsval) : bool :=
  match q with
  | JObj ps => bool_decide (NoDup (map fst ps)) && forallb (fun kv => fragEntry inFragment kv.1 kv.2) ps
  | _ => false
  end.

(** A filter constrains something: it has a key other than a modifier
    and [AND]/[OR], or an [AND]/[OR] with an alternative that constrains
    something. *)
Definition constrEntry (rec : jsval -> bool) (k : string) (v : jsval) : bool :=
  if isLogicalKey k then match v with JArr qs => existsb rec qs | _ => false end
  else negb (isModifierKey k).

Fixpoint constrains (q : jsval) : bool :=
  match q with
  | JObj ps => existsb (fun kv => constrEntry constrains kv.1 kv.2) ps
  | _ => false
  end.

(** Every [OR] has alternatives, and each of them constrains something. *)
Definition orSafeEntry (rec : jsval -> bool) (k : string) (v : jsval) : bool :=
  match v with
  | JArr qs =>
      if isLogicalKey k then
        (if String.eqb k "OR" then negb (Nat.eqb (List.length qs) 0) && forallb constrains qs else true) &&
        forallb rec qs
      else true
  | _ => true
  end.

Fixpoint orSafe (q : jsval) : bool :=
  match q with
  | JObj ps => forallb (fun kv => orSafeEntry orSafe kv.1 kv.2) ps
  | _ => true
  end.
End Fragment.

Definition noRel : string -> jsval -> bool := fun _ _ => false.

(** ** The meaning of filters *)

Section Logic.
Context {St : Type} `{V : QueryVariant St}.
(** The meaning of a scalar leaf [key: value] on a document. *)
Variable leafSem : string -> jsval -> list (string * jsval) -> option bool.
(** The meaning of a relationship entry [key: value]. *)
Variable relSem : string -> jsval -> list (string * jsval) -> option bool.
Variable doc : list (string * jsval).

(** A mapping is the conjunction of its keys; [AND] and [OR] are the
    conjunction and the disjunction of their filters; modifiers constrain
    nothing; relationship keys are outside the fragment. *)
Definition entrySem (rec : jsval -> option bool) (k : string) (v : jsval) : option bool :=
  if isLogicalKey k then
    match v with
    | JArr qs => (if String.eqb k "AND" then oall else oany) (map rec qs)
    | _ => None
    end
  else if isModifierKey k then Some true
  else if String.eqb (getType v) "Object" then (if String.eqb k "id" then None else relSem k v doc)
  else leafSem k v doc.

Fixpoint filterSem (q : jsval) : option bool :=
  match q with
  | JObj ps => oall (map (fun kv => entrySem filterSem kv.1 kv.2) ps)
  | _ => None
  end.
End Logic.

Definition noRelSem : string -> jsval -> list (string * jsval) -> option bool := fun _ _ _ => None.

(** ** The joiner's meaning *)

Section JoinMeaning.
Variable doc : list (string * jsval).

Lemma oall_single o : oall [o] = o.
Proof. by destruct o as [[]|]. Qed.

Lemma oany_single o : oany [o] = o.
Proof. by destruct o as [[]|]. Qed.

Lemma matchSem_truthy t : truthy t = true -> matchSem t doc = evalTerm t doc.
Proof. by destruct t. Qed.

(** The conjunction ([$and]) or disjunction ([$or]) built by [joinTerms]
    from truthy terms means the conjunction or disjunction of their
    meanings; an absent term stands for the empty conjunction only. *)
Lemma joinTerms_sem (isAnd : bool) ts :
  Forall (fun t => truthy t = true) ts -> (isAnd = false -> ts <> []) ->
  matchSem (joinTerms ts (if isAnd then "$and" else "$or")) doc =
  (if isAnd then oall else oany) (map (fun t => evalTerm t doc) ts).
Proof.
  intros Ht Hne. destruct ts as [|t [|t2 ts]].
  - destruct isAnd; [reflexivity|]. by destruct Hne.
  - inversion Ht; subst. rewrite joinTerms_single, matchSem_truthy by done. cbn [map].
    destruct isAnd; [by rewrite oall_single | by rewrite oany_single].
  - rewrite joinTerms_many. destruct isAnd; reflexivity.
Qed.

(** Absent terms are neutral for a conjunction. *)
Lemma oall_filter_truthy ts :
  Forall (fun t => t = JUndefined \/ truthy t = true) ts ->
  oall (map (fun t => evalTerm t doc) (List.filter truthy ts)) = oall (map (fun t => matchSem t doc) ts).
Proof.
  induction 1 as [|t ts [-> | Ht] _ IH]; [reflexivity| |].
  - cbn. rewrite IH. by destruct (oall (map (fun t => matchSem t doc) ts)).
  - cbn. rewrite Ht. cbn. rewrite IH, matchSem_truthy by done. reflexivity.
Qed.

Lemma filter_truthy_all_id ts : Forall (fun t => truthy t = true) ts -> List.filter truthy ts = ts.
Proof. induction 1 as [|t ts Ht _ IH]; [done|]. cbn. by rewrite Ht, IH. Qed.

(** What each element contributes to a merge: a term whose meaning is
    [sem x], truthy exactly when [x] constrains something. *)
Definition termFor {X} (sem : X -> option bool) (c : X -> bool) (x : X) (t : jsval) : Prop :=
  matchSem t doc = sem x /\ (if c x then truthy t = true else t = JUndefined).

Lemma termFor_wf {X} sem c (x : X) t : termFor sem c x t -> t = JUndefined \/ truthy t = true.
Proof. intros [_ H]. destruct (c x); auto. Qed.

Lemma termFor_truthy {X} sem c (x : X) t : termFor sem c x t -> truthy t = c x.
Proof. intros [_ H]. destruct (c x); [done | by subst]. Qed.

(** The merge of a level: joining the present terms with [$and], or with
    [$or] when every element constrains something, means the conjunction
    or disjunction of the elements' meanings, and constrains something
    exactly when an element does. *)
Lemma join_sem {X} (isAnd : bool) (sem : X -> option bool) (c : X -> bool) (xs : list X) (ts : list jsval) :
  Forall2 (termFor sem c) xs ts ->
  (isAnd = false -> xs <> [] /\ forallb c xs = true) ->
  termFor (fun xs => (if isAnd then oall else oany) (map sem xs)) (existsb c)
          xs (joinTerms (List.filter truthy ts) (if isAnd then "$and" else "$or")).
Proof.
  intros H2 Hor.
  assert (Hsem : map (fun t => matchSem t doc) ts = map sem xs).
  { clear Hor. induction H2 as [|x t xs ts [Hx _] _ IH]; [done|]. cbn. by rewrite Hx, IH. }
  assert (Hc : existsb c xs = existsb truthy ts).
  { clear Hor Hsem. induction H2 as [|x t xs ts Hxt _ IH]; [done|]. cbn. by rewrite IH, (termFor_truthy _ _ _ _ Hxt). }
  assert (Hwf : Forall (fun t => t = JUndefined \/ truthy t = true) ts).
  { clear Hor Hsem Hc. induction H2; constructor; [eapply termFor_wf|]; eauto. }
  split.
  - rewrite joinTerms_sem; [| apply filter_truthy_all |].
    + destruct isAnd; [by rewrite oall_filter_truthy, Hsem|].
      destruct (Hor eq_refl) as [_ Hall].
      assert (Htr : Forall (fun t => truthy t = true) ts).
      { clear Hsem Hc Hwf Hor. induction H2 as [|x t xs ts Hxt _ IH]; [constructor|].
        cbn in Hall. apply andb_true_iff in Hall as [Hx Hall].
        constructor; [by rewrite (termFor_truthy _ _ _ _ Hxt) | by apply IH]. }
      rewrite filter_truthy_all_id by done. rewrite <- Hsem.
      f_equal. apply map_ext_in. intros t Ht. symmetry. apply matchSem_truthy.
      by apply (proj1 (List.Forall_forall _ _) Htr).
    + intros Hf. destruct (Hor Hf) as [Hne Hall]. rewrite filter_truthy_all_id.
      * destruct H2; [done | discriminate].
      * clear Hsem Hc Hwf Hor Hne. induction H2 as [|x t xs ts Hxt _ IH]; [constructor|].
        cbn in Hall. apply andb_true_iff in Hall as [Hx Hall].
        constructor; [by rewrite (termFor_truthy _ _ _ _ Hxt) | by apply IH].
  - rewrite Hc. destruct (existsb truthy ts) eqn:He.
    + apply existsb_exists in He as (t & Hin & Ht).
      assert (Hin' : In t (List.filter truthy ts)) by (apply filter_In; auto).
      destruct (List.filter truthy ts) as [|t1 [|t2 ts']] eqn:Hf; [done| |reflexivity].
      rewrite joinTerms_single. apply (proj1 (List.Forall_forall _ _) (filter_truthy_all ts)). rewrite Hf. by left.
    + assert (Hnil : List.filter truthy ts = []).
      { destruct (List.filter truthy ts) as [|t ts'] eqn:Hf; [done|].
        assert (Hin : In t (List.filter truthy ts)) by (rewrite Hf; by left).
        apply filter_In in Hin as [Hin Ht]. exfalso.
        assert (existsb truthy ts = true) by (apply existsb_exists; eauto). congruence. }
      by rewrite Hnil.
Qed.
(** The absent terms and the alternatives that constrain nothing are
    dropped in step. *)
Lemma Forall2_filter_termFor {X} (sem : X -> option bool) (c : X -> bool) xs ts :
  Forall2 (termFor sem c) xs ts -> Forall2 (termFor sem c) (List.filter c xs) (List.filter truthy ts).
Proof.
  induction 1 as [|x t xs ts Hxt _ IH]; cbn; [constructor|].
  rewrite (termFor_truthy _ _ _ _ Hxt). destruct (c x); [by constructor | done].
Qed.

(** What the code's [$or] join means: the disjunction of the
    alternatives that constrain something, and no constraint at all when
    none does. *)
Lemma or_join_sem {X} (sem : X -> option bool) (c : X -> bool) (xs : list X) (ts : list jsval) :
  Forall2 (termFor sem c) xs ts ->
  matchSem (joinTerms (List.filter truthy ts) "$or") doc =
  if existsb c xs then oany (map sem (List.filter c xs)) else Some true.
Proof.
  intros H2. pose proof (Forall2_filter_termFor _ _ _ _ H2) as Hf.
  destruct (existsb c xs) eqn:He.
  - assert (Hne : List.filter c xs <> []).
    { apply existsb_exists in He as (x & Hx & Hcx). intros Hnil.
      assert (Hin : In x (List.filter c xs)) by (by apply filter_In). by rewrite Hnil in Hin. }
    assert (Hall : forallb c (List.filter c xs) = true).
    { apply forallb_forall. intros x Hx. by apply filter_In in Hx as [_ ?]. }
    destruct (join_sem false sem c _ _ Hf (fun _ => conj Hne Hall)) as [J _].
    by rewrite filter_idem in J.
  - assert (Hnil : List.filter c xs = []).
    { destruct (List.filter c xs) as [|x xs'] eqn:E; [done|].
      assert (Hin : In x (List.filter c xs)) by (rewrite E; by left).
      apply filter_In in Hin as [Hin Hcx]. assert (existsb c xs = true) by (apply existsb_exists; eauto). congruence. }
    rewrite Hnil in Hf. inversion Hf as [Ht|]. reflexivity.
Qed.
End JoinMeaning.

(** ** The compiler refines the logic *)

Lemma prop_lookup_NoDup (ps : list (string * jsval)) k v :
  NoDup (map fst ps) -> In (k, v) ps -> prop_lookup ps k = v.
Proof.
  induction ps as [|[k' v'] ps IH]; intros Hnd Hin; [done|]. cbn in Hnd |- *.
  apply NoDup_cons in Hnd as [Hk Hnd]. destruct Hin as [[= -> ->] | Hin].
  - by rewrite String.eqb_refl.
  - destruct (String.eqb_spec k' k) as [->|]; [|by apply IH].
    exfalso. apply Hk, list_elem_of_In, in_map_iff. by exists (k, v).
Qed.

Lemma logical_not_and_is_or k : isLogicalKey k = true -> String.eqb k "AND" = false -> String.eqb k "OR" = true.
Proof. unfold isLogicalKey. intros H Ha. by rewrite Ha in H. Qed.

Lemma oall_perm (l l' : list (option bool)) : Permutation l l' -> oall l = oall l'.
Proof.
  induction 1 as [|o l l' _ IH|o1 o2 l|l l' l'' _ IH1 _ IH2]; cbn.
  - done.
  - by rewrite IH.
  - destruct o1 as [b1|], o2 as [b2|], (oall l) as [b|]; try done. by rewrite !andb_assoc, (andb_comm b2 b1).
  - by rewrite IH1.
Qed.

Lemma forallb_perm {A} (f : A -> bool) (l l' : list A) :
  Permutation l l' -> forallb f l = forallb f l'.
Proof.
  intros Hp. apply Bool.eq_iff_eq_true. rewrite !forallb_forall.
  split; intros H x Hx; apply H; [by apply (Permutation_in x (Permutation_sym Hp)) | by apply (Permutation_in x Hp)].
Qed.

Lemma inFragment_perm `{V : QueryVariant St} (relOk : string -> jsval -> bool) (ps ps' : list (string * jsval)) :
  Permutation ps ps' -> inFragment relOk (JObj ps) = inFragment relOk (JObj ps').
Proof.
  intros Hp. cbn. rewrite (forallb_perm _ _ _ Hp). f_equal. apply bool_decide_ext.
  by rewrite (Permutation_map fst Hp).
Qed.

Lemma orSafe_perm `{V : QueryVariant St} (ps ps' : list (string * jsval)) :
  Permutation ps ps' -> orSafe (JObj ps) = orSafe (JObj ps').
Proof. intros Hp. exact (forallb_perm _ _ _ Hp). Qed.

Lemma noRel_sound {St : Type} `{V : QueryVariant St} doc : forall k v p s mt info s1,
  noRel k v = true -> relationshipStep k p s = Ok ((mt, info), s1) ->
  exists c, relationshipShortcut k info v = Ok (Some c) /\ truthy c = true /\ evalTerm c doc = noRelSem k v doc.
Proof. discriminate. Qed.

Section Refine.
Context {St : Type} `{LA : ListAdapter} `{V : QueryVariant St}.
Variable leafSem : string -> jsval -> list (string * jsval) -> option bool.
Variable relOk : string -> jsval -> bool.
Variable relSem : string -> jsval -> list (string * jsval) -> option bool.
Variable doc : list (string * jsval).
(** The leaf tokenizer's contract (spec 5): it returns a present
    predicate meaning what the leaf [key: query[key]] means. *)
Hypothesis leaf_sound : forall q k p t, simpleTokenizer q k p = Ok t ->
  truthy t = true /\ evalTerm t doc = leafSem k (js_get q k) doc.
(** The admitted relationship entries are rewritten by the shortcut into
    a present term meaning what [relSem] says. *)
Hypothesis rel_sound : forall k v p s mt info s1, relOk k v = true ->
  relationshipStep k p s = Ok ((mt, info), s1) ->
  exists c, relationshipShortcut k info v = Ok (Some c) /\ truthy c = true /\ evalTerm c doc = relSem k v doc.

Definition resultFor (q : jsval) (r : ParseResult) : Prop :=
  termFor doc (filterSem leafSem relSem doc) constrains q (matchTerm r).

Definition partFor (kv : string * jsval) (p : Partial) : Prop :=
  termFor doc (fun kv => entrySem leafSem relSem doc (filterSem leafSem relSem doc) kv.1 kv.2)
          (fun kv => constrEntry constrains kv.1 kv.2) kv (pMatchTerm p).

(** The elements of an [AND]/[OR] array, parsed in order, compile to
    terms that mean what they mean, given the refinement for each. *)
Lemma children_refine (rec : jsval -> list seg -> stM St exn ParseResult) (qs : list jsval)
    (g : nat -> list seg) s rs s1 :
  Forall (fun q' => forall p1 s1 r s2, inFragment relOk q' = true -> orSafe q' = true ->
                      rec q' p1 s1 = Ok (r, s2) -> resultFor q' r) qs ->
  forallb (inFragment relOk) qs = true -> forallb orSafe qs = true ->
  smapiM (fun i q => rec q (g i)) 0 qs s = Ok (rs, s1) ->
  Forall2 (termFor doc (filterSem leafSem relSem doc) constrains) qs (map matchTerm rs).
Proof.
  intros Harr Hfrag Hor Hrs. apply smapiM_Forall2 in Hrs.
  induction Hrs as [|q' r qs rs (n & s2 & s3 & Hr) _ IH]; [constructor|]. cbn.
  cbn in Hfrag, Hor. apply andb_true_iff in Hfrag as [Hf1 Hfrag]. apply andb_true_iff in Hor as [Ho1 Hor].
  inversion Harr as [|? ? Hq' Harr']; subst.
  constructor; [exact (Hq' _ _ _ _ Hf1 Ho1 Hr) | by apply IH].
Qed.

(** One entry of a filter of the fragment, given the refinement for the
    recursive calls on the elements of an array value. *)
Lemma parseEntry_refines (rec : jsval -> list seg -> stM St exn ParseResult) q path k v s p s' :
  js_get q k = v -> fragEntry relOk (inFragment relOk) k v = true -> orSafeEntry orSafe k v = true ->
  (forall qs, v = JArr qs -> Forall (fun q' => forall p1 s1 r s2, inFragment relOk q' = true -> orSafe q' = true ->
                                       rec q' p1 s1 = Ok (r, s2) -> resultFor q' r) qs) ->
  parseEntry rec q path (k, v) s = Ok (p, s') -> partFor (k, v) p.
Proof.
  intros Hget Hfrag Hor Harr H. unfold partFor, termFor, parseEntry, fragEntry, orSafeEntry, entrySem, constrEntry in *.
  cbn [fst snd]. cbv beta iota zeta in H. destruct (isLogicalKey k) eqn:Hl.
  { destruct v as [| | | | | qs |]; try discriminate Hfrag.
    apply sbind_inv in H as (rs & s1 & Hrs & H). invc H. cbn. rewrite map_map.
    apply andb_true_iff in Hor as [Hor1 Hor2].
    pose proof (children_refine rec qs _ _ _ _ (Harr qs eq_refl) Hfrag Hor2 Hrs) as H2.
    unfold logicalOp. destruct (String.eqb k "AND") eqn:Ha.
    - exact (join_sem doc true _ _ _ _ H2 (fun H => ltac:(discriminate H))).
    - refine (join_sem doc false _ _ _ _ H2 _). intros _.
      rewrite (logical_not_and_is_or k Hl Ha) in Hor1. apply andb_true_iff in Hor1 as [Hne Hall].
      split; [| done]. destruct qs; [discriminate Hne | discriminate]. }
  destruct (isModifierKey k).
  { apply sbind_inv in H as (t & s1 & Ht & H). invc H. unfold slift in Ht.
    destruct (modifierTokenizer _ _ _); invc Ht. split; reflexivity. }
  assert (Hleaf : (exists s1, slift (St := St) (simpleTokenizer q k (path ++ [PKey k])) s = Ok (pMatchTerm p, s1)) ->
                  matchSem (pMatchTerm p) doc = leafSem k v doc /\ truthy (pMatchTerm p) = true).
  { intros (s1 & Ht). unfold slift in Ht. destruct (simpleTokenizer q k _) as [t|] eqn:Htok; invc Ht.
    apply leaf_sound in Htok as [Htr Hsem]. split; [by rewrite matchSem_truthy | done]. }
  cbn. destruct (String.eqb k "id") eqn:Hid.
  - apply negb_true_iff in Hfrag. rewrite Hfrag in H |- *. apply Hleaf.
    apply sbind_inv in H as (t & s1 & Ht & H). invc H. eauto.
  - destruct (String.eqb (getType v) "Object") eqn:Ho.
    + apply sbind_inv in H as ([mt info] & s1 & Hstep & H).
      destruct (rel_sound _ _ _ _ _ _ _ Hfrag Hstep) as (c & Hsc & Htr & Hev).
      apply sbind_inv in H as (sc & s2 & Hsc' & H). unfold slift in Hsc'. rewrite Hsc in Hsc'. invc Hsc'. invc H.
      cbn. split; [by rewrite matchSem_truthy | done].
    + apply Hleaf. apply sbind_inv in H as (t & s1 & Ht & H). invc H. eauto.
Qed.

Lemma Forall2_In_impl {A B} (P Q : A -> B -> Prop) l1 l2 :
  Forall2 P l1 l2 -> (forall a b, In a l1 -> P a b -> Q a b) -> Forall2 Q l1 l2.
Proof.
  induction 1 as [|a b l1 l2 Hab _ IH]; intros HPQ; constructor.
  - apply HPQ; [by left | done].
  - apply IH. intros; apply HPQ; [by right | done].
Qed.

Lemma Forall2_map_r {A B C} (P : A -> C -> Prop) (f : B -> C) l1 l2 :
  Forall2 (fun a b => P a (f b)) l1 l2 -> Forall2 P l1 (map f l2).
Proof. induction 1; constructor; auto. Qed.

Lemma walk_refines (q : jsval) : forall path include s r s',
  inFragment relOk q = true -> orSafe q = true -> queryParserWith q path include s = Ok (r, s') -> resultFor q r.
Proof.
  induction q as [v Hv | ps IH] using jsval_obj_ind; intros path include s r s' Hfrag Hor H.
  { destruct v; try discriminate Hfrag. by destruct (Hv props). }
  cbn [queryParserWith] in H. apply sbind_inv in H as (parts & s1 & Hparts & H). invc H.
  cbn in Hfrag. apply andb_true_iff in Hfrag as [Hnd Hfrag]. apply bool_decide_eq_true in Hnd.
  apply smapM_Forall2 in Hparts.
  assert (H2 : Forall2 partFor ps parts).
  { apply (Forall2_In_impl _ _ _ _ Hparts). intros [k v] p Hin (s2 & s3 & Hp).
    pose proof (proj1 (List.Forall_forall _ ps) IH _ Hin) as [_ IHarr].
    eapply parseEntry_refines; [| | | | exact Hp].
    - by apply prop_lookup_NoDup.
    - exact (proj1 (forallb_forall _ ps) Hfrag _ Hin).
    - exact (proj1 (forallb_forall _ ps) Hor _ Hin).
    - intros qs Hqs. eapply Forall_impl; [exact (IHarr qs Hqs)|]. cbn.
      intros q' Hq' p1 s4 r s5 Hf Ho Hr. exact (Hq' _ _ _ _ _ Hf Ho Hr). }
  pose proof (join_sem doc true _ _ ps (map pMatchTerm parts) (Forall2_map_r _ _ _ _ H2)
                (fun H => ltac:(discriminate H))) as [J1 J2].
  split; [exact J1 | exact J2].
Qed.

(** C12: what the code makes of an [OR] (spec 4.1 reads it as the
    disjunction of its filters): the compiled term of [{ OR: qs }], for
    filters [qs] of the fragment, selects a document exactly when one of
    the alternatives that constrain something holds of it, and selects
    every document when no alternative constrains anything; the logic
    reads it as the disjunction of all the alternatives.  So
    [{ OR: [] }], false of every document in the logic, constrains
    nothing, and an alternative that constrains nothing (true of every
    document) is dropped instead of making the [OR] hold. *)
Theorem queryParser_or_semantics (qs : list jsval) (path : list seg) (include : jsval) (s s' : St)
  (r : ParseResult) :
  forallb (inFragment relOk) qs = true -> forallb orSafe qs = true ->
  queryParserWith (JObj [("OR", JArr qs)]) path include s = Ok (r, s') ->
  matchSem (matchTerm r) doc =
    (if existsb constrains qs then oany (map (filterSem leafSem relSem doc) (List.filter constrains qs))
     else Some true) /\
  filterSem leafSem relSem doc (JObj [("OR", JArr qs)]) = oany (map (filterSem leafSem relSem doc) qs).
Proof.
  intros Hf Ho H. split.
  - cbn [queryParserWith smapM] in H.
    apply sbind_inv in H as (parts & s1 & Hparts & H). invc H.
    apply sbind_inv in Hparts as (p & s2 & Hp & Hparts). cbn in Hparts. invc Hparts.
    unfold parseEntry in Hp. cbv beta iota zeta in Hp.
    replace (isLogicalKey "OR") with true in Hp by reflexivity.
    apply sbind_inv in Hp as (rs & s3 & Hrs & Hp). invc Hp.
    unfold finishResult. rewrite flattenQueries_single by apply flattenQueries_normalized.
    replace (logicalOp "OR") with "$or" by reflexivity.
    unfold flattenQueries. cbn [matchTerm pMatchTerm]. rewrite map_map.
    apply or_join_sem.
    refine (children_refine (fun q p => queryParserWith q p JUndefined) qs _ _ _ _ _ Hf Ho Hrs).
    apply List.Forall_forall. intros q' _ p1 s4 r0 s5 Hf' Ho' Hr.
    exact (walk_refines q' p1 JUndefined s4 r0 s5 Hf' Ho' Hr).
  - cbn [filterSem map]. unfold entrySem. replace (isLogicalKey "OR") with true by reflexivity.
    cbn [fst snd]. replace (String.eqb "OR" "AND") with false by reflexivity. apply oall_single.
Qed.

(** C10: the compiler refines the logic of filters: on a filter whose
    relationship keys are among those the shortcut rewrites into terms
    meaning [relSem] (none, with [noRel]) and whose [OR]s have
    alternatives that each constrain something, the compiled match term
    selects a document exactly when the filter holds of it, given a leaf
    tokenizer whose predicates mean what the leaves mean; the term is
    absent exactly when the filter constrains nothing. *)
Theorem queryParser_refines_logic (q : jsval) (path : list seg) (include : jsval) (s s' : St)
  (r : ParseResult) :
  inFragment relOk q = true -> orSafe q = true -> queryParserWith q path include s = Ok (r, s') ->
  matchSem (matchTerm r) doc = filterSem leafSem relSem doc q /\
  (if constrains q then truthy (matchTerm r) = true else matchTerm r = JUndefined).
Proof. intros Hf Ho H. exact (walk_refines q path include s r s' Hf Ho H). Qed.
(** C13: the order of a filter's keys does not change what it selects
    (spec: "order of leaves irrelevant"): two orders of the keys of a
    filter of the fragment compile to match terms that select the same
    documents (their pipelines keep the order of the modifier keys). *)
Theorem queryParser_key_order_irrelevant (ps ps' : list (string * jsval)) (path : list seg)
  (include : jsval) (s s1 t t1 : St) (r r' : ParseResult) :
  Permutation ps ps' -> inFragment relOk (JObj ps) = true -> orSafe (JObj ps) = true ->
  queryParserWith (JObj ps) path include s = Ok (r, s1) ->
  queryParserWith (JObj ps') path include t = Ok (r', t1) ->
  matchSem (matchTerm r) doc = matchSem (matchTerm r') doc.
Proof.
  intros Hp Hf Ho H H'.
  rewrite (proj1 (walk_refines _ _ _ _ _ _ Hf Ho H)).
  rewrite (inFragment_perm _ _ _ Hp) in Hf. rewrite (orSafe_perm _ _ Hp) in Ho.
  rewrite (proj1 (walk_refines _ _ _ _ _ _ Hf Ho H')). cbn.
  apply oall_perm, Permutation_map, Hp.
Qed.
End Refine.

(** ** The sample leaf tokenizer and concrete runs *)

(** What the sample adapter's leaf [key: v] means: MongoDB's reading of
    [{key: {$eq: v}}] (equality of the field, for a field name that is not
    an operator). *)
Definition sampleLeafSem (k : string) (v : jsval) (doc : list (string * jsval)) : option bool :=
  evalTerm (JObj [(k, JObj [("$eq", v)])]) doc.

Lemma sampleLeaf_sound doc q k p t :
  simpleTokenizer (ListAdapter := sampleAdapter) q k p = Ok t ->
  truthy t = true /\ evalTerm t doc = sampleLeafSem k (js_get q k) doc.
Proof. cbn. intros [= <-]. split; reflexivity. Qed.

Definition sampleOrFilter : jsval :=
  JObj [("name", JStr "a"); ("OR", JArr [JObj [("age", JNum 1)]; JObj [("age", JNum 2)]]); ("$first", JNum 5)].

Definition sampleDoc : list (string * jsval) := [("name", JStr "a"); ("age", JNum 2)].

Lemma queryParser_refines_logic_witness :
  inFragment (V := sampleVariant1) noRel sampleOrFilter = true /\ orSafe (V := sampleVariant1) sampleOrFilter = true /\
  match queryParserWith (V := sampleVariant1) sampleOrFilter [] JUndefined 0 with
  | Ok (r, _) =>
      matchSem (matchTerm r) sampleDoc = filterSem (V := sampleVariant1) sampleLeafSem noRelSem sampleDoc sampleOrFilter /\
      truthy (matchTerm r) = true
  | Throw _ => False
  end.
Proof.
  split; [vm_compute; reflexivity|]. split; [vm_compute; reflexivity|].
  destruct (queryParserWith (V := sampleVariant1) sampleOrFilter [] JUndefined 0) as [[r s']|e] eqn:E.
  - exact (queryParser_refines_logic (V := sampleVariant1) sampleLeafSem noRel noRelSem sampleDoc (sampleLeaf_sound sampleDoc) (noRel_sound sampleDoc)
             sampleOrFilter [] JUndefined 0 s' r ltac:(vm_compute; reflexivity) ltac:(vm_compute; reflexivity) E).
  - vm_compute in E. discriminate E.
Defined.

Definition sampleOrFilterSwapped : jsval :=
  JObj [("$first", JNum 5); ("OR", JArr [JObj [("age", JNum 1)]; JObj [("age", JNum 2)]]); ("name", JStr "a")].

Lemma queryParser_key_order_irrelevant_witness :
  match queryParserWith (V := sampleVariant1) sampleOrFilter [] JUndefined 0,
        queryParserWith (V := sampleVariant1) sampleOrFilterSwapped [] JUndefined 0 with
  | Ok (r, _), Ok (r', _) =>
      matchTerm r <> matchTerm r' /\ matchSem (matchTerm r) sampleDoc = matchSem (matchTerm r') sampleDoc
  | _, _ => False
  end.
Proof.
  destruct (queryParserWith (V := sampleVariant1) sampleOrFilter [] JUndefined 0) as [[r s1]|e] eqn:E;
    [|vm_compute in E; discriminate E].
  destruct (queryParserWith (V := sampleVariant1) sampleOrFilterSwapped [] JUndefined 0) as [[r' t1]|e] eqn:E';
    [|vm_compute in E'; discriminate E'].
  split.
  - vm_compute in E. vm_compute in E'. injection E as <- _. injection E' as <- _. discriminate.
  - exact (queryParser_key_order_irrelevant (V := sampleVariant1) sampleLeafSem noRel noRelSem sampleDoc (sampleLeaf_sound sampleDoc) (noRel_sound sampleDoc)
             [("name", JStr "a"); ("OR", JArr [JObj [("age", JNum 1)]; JObj [("age", JNum 2)]]); ("$first", JNum 5)]
             [("$first", JNum 5); ("OR", JArr [JObj [("age", JNum 1)]; JObj [("age", JNum 2)]]); ("name", JStr "a")]
             [] JUndefined 0 s1 0 t1 r r' (Permutation_rev _) ltac:(vm_compute; reflexivity)
             ltac:(vm_compute; reflexivity) E E').
Defined.

Lemma queryParser_or_semantics_witness :
  match queryParserWith (V := sampleVariant1) (JObj [("OR", JArr [JObj []; JObj [("name", JStr "b")]])])
          [] JUndefined 0 with
  | Ok (r, _) =>
      matchSem (matchTerm r) sampleDoc = Some false /\
      filterSem (V := sampleVariant1) sampleLeafSem noRelSem sampleDoc
        (JObj [("OR", JArr [JObj []; JObj [("name", JStr "b")]])]) = Some true
  | Throw _ => False
  end.
Proof.
  destruct (queryParserWith (V := sampleVariant1) (JObj [("OR", JArr [JObj []; JObj [("name", JStr "b")]])])
              [] JUndefined 0) as [[r s']|e] eqn:E; [|vm_compute in E; discriminate E].
  destruct (queryParser_or_semantics (V := sampleVariant1) sampleLeafSem noRel noRelSem sampleDoc
              (sampleLeaf_sound sampleDoc) (noRel_sound sampleDoc) [JObj []; JObj [("name", JStr "b")]]
              [] JUndefined 0 s' r ltac:(vm_compute; reflexivity) ltac:(vm_compute; reflexivity) E) as [A B].
  rewrite A, B. split; vm_compute; reflexivity.
Defined.
