(* ===== verification/Composition.v ===== *)
(** * The walk composed with the shortcut, end to end

    [Meaning] proves the walk correct against the logic of filters for
    any relationship entries the shortcut rewrites soundly; [Semantics]
    proves which cells of the shortcut's table select the documents the
    join selects.  This file composes the two for [adapter-mongoose]: a
    relationship entry is admitted ([idRelOk]) when its key is a
    relationship field of the list followed by a quantifier suffix and
    its value a one-key identity filter in a sound cell ([soundIdEntry]);
    its meaning ([idRelSem]) is the join's ([Semantics.joinMatch]) on the
    related records the document's foreign key names.  On filters built
    from leaves, modifiers, [AND]/[OR] and such entries, the compiled
    [matchTerm] selects a document exactly when the filter, read with the
    join semantics for its relationship keys, holds of it. *)

From Stdlib Require Import String ZArith.
From stdpp Require Import base list strings.
From S2P Require Import Prelude JsValue Collaborators Joiner Exclusion Suffix Shortcut Parser Semantics Meaning.

Open Scope string_scope.

Definition quants : list Quant := [QOne; QSome; QEvery; QNone].
Definition idPreds : list IdPred := [PId; PIdNot; PIdIn; PIdNotIn].

Section Compose.
Context `{LA : ListAdapter}.

(** The sound cell of a one-key identity filter [v] under quantifier
    [q]: its predicate and its argument converted by [ObjectId]. *)
Definition idCell (q : Quant) (v : jsval) : option (IdPred * jsval) :=
  match v with
  | JObj [(pk, a0)] =>
      firstSome (fun p =>
        if String.eqb pk (idPredKey p) && truthy a0 && negb (unsoundCell p q) then
          match table2 p q, convertArg p a0 with
          | Some _, Ok arg => if wfArg p arg then Some (p, arg) else None
          | _, _ => None
          end
        else None) idPreds
  | _ => None
  end.

(** A relationship entry [key: value] whose key is a relationship field
    [f] of the list (with no quantifier suffix of its own, and not an
    operator or [__proto__]) followed by a quantifier suffix, and whose
    value is an identity filter in a sound cell. *)
Definition soundIdEntry (k : string) (v : jsval) : option (string * Quant * IdPred * jsval) :=
  firstSome (fun f =>
    if negb (String.eqb f "__proto__") && negb (String.eqb f "$and") && negb (String.eqb f "$or") &&
       bool_decide (KeySplit.splitSuffix f = [f]) then
      firstSome (fun q =>
        if String.eqb k (f ++ quantSuffix q) then
          match idCell q v with Some (p, arg) => Some (f, q, p, arg) | None => None end
        else None) quants
    else None) (map dbPath (List.filter isRelationship fieldAdapters)).

Definition idRelOk (k : string) (v : jsval) : bool :=
  match soundIdEntry k v with Some _ => true | None => false end.

(** The join's meaning of an admitted entry on a document. *)
Definition idRelSem (k : string) (v : jsval) (doc : list (string * jsval)) : option bool :=
  match soundIdEntry k v with
  | Some (f, q, p, arg) => Some (joinMatch q p arg (prop_lookup doc f))
  | None => None
  end.

Lemma idCell_sound q v p arg :
  idCell q v = Some (p, arg) ->
  exists a0 op, v = JObj [(idPredKey p, a0)] /\ truthy a0 = true /\ convertArg p a0 = Ok arg /\
    wfArg p arg = true /\ unsoundCell p q = false /\ table2 p q = Some op.
Proof.
  unfold idCell. destruct v as [| | | | | |[|[pk a0] [|]]]; try discriminate.
  intros (p' & _ & Hp)%firstSome_Some.
  destruct (String.eqb_spec pk (idPredKey p')) as [->|]; [|discriminate Hp].
  destruct (truthy a0) eqn:Ha, (unsoundCell p' q) eqn:Hu; try discriminate Hp. cbn in Hp.
  destruct (table2 p' q) as [op|] eqn:Ht, (convertArg p' a0) as [arg'|] eqn:Hc; try discriminate Hp.
  destruct (wfArg p' arg') eqn:Hw; [|discriminate Hp]. injection Hp as <- <-.
  by exists a0, op.
Qed.

Lemma soundIdEntry_sound k v f q p arg :
  soundIdEntry k v = Some (f, q, p, arg) ->
  k = f ++ quantSuffix q /\ f <> "__proto__" /\ f <> "$and" /\ f <> "$or" /\
  KeySplit.splitSuffix f = [f] /\ idCell q v = Some (p, arg).
Proof.
  unfold soundIdEntry. intros (f' & _ & Hf)%firstSome_Some.
  destruct (String.eqb_spec f' "__proto__"), (String.eqb_spec f' "$and"), (String.eqb_spec f' "$or");
    try discriminate Hf. cbn [negb andb] in Hf.
  destruct (bool_decide_reflect (KeySplit.splitSuffix f' = [f'])) as [Hs|]; [|discriminate Hf].
  apply firstSome_Some in Hf as (q' & _ & Hq).
  destruct (String.eqb_spec k (f' ++ quantSuffix q')) as [->|]; [|discriminate Hq].
  destruct (idCell q' v) as [[p' arg']|] eqn:Hc; [|discriminate Hq]. injection Hq as <- <- <- <-.
  done.
Qed.

(** The shortcut of [adapter-mongoose] rewrites every admitted entry into
    a present term meaning the join ([Semantics.cell_sound] on the cell). *)
Lemma idRel_sound {St : Type} `{R : RelTokenizer2 St} doc : forall k v p s mt info s1,
  idRelOk k v = true -> relationshipStep (QueryVariant := AdapterMongoose.variant) k p s = Ok ((mt, info), s1) ->
  exists c, relationshipShortcut (QueryVariant := AdapterMongoose.variant) k info v = Ok (Some c) /\
    truthy c = true /\ evalTerm c doc = idRelSem k v doc.
Proof.
  intros k v p s mt info s1 Hok _. unfold idRelOk, idRelSem in *.
  destruct (soundIdEntry k v) as [[[[f q] pr] arg]|] eqn:He; [|discriminate Hok].
  apply soundIdEntry_sound in He as (-> & Hp & Hand & Hor & Hs & Hc).
  apply idCell_sound in Hc as (a0 & op & -> & Ha & Hconv & Hw & Hu & Ht).
  cbn [relationshipShortcut AdapterMongoose.variant].
  rewrite shortcut2_table by done. unfold cellResult. rewrite Ht, Hconv.
  eexists. split; [reflexivity|]. split; [reflexivity|]. cbn.
  apply String.eqb_neq in Hand, Hor. rewrite Hand, Hor. by apply cell_sound.
Qed.

(** C11: composition of the walk with the shortcut of [adapter-mongoose]:
    on a filter of leaves, modifiers, [AND]/[OR] (each [OR] alternative
    constraining something) and relationship entries that are identity
    filters on sound cells of the shortcut's table, the compiled match
    term selects a document exactly when the filter holds of it, with
    each relationship entry read as the join reads it (the quantified
    identity predicate over the records the foreign key names); the term
    is absent exactly when the filter constrains nothing. *)
Theorem adapterMongoose_refines_join_logic {St : Type} `{R : RelTokenizer2 St}
  (leafSem : string -> jsval -> list (string * jsval) -> option bool) (doc : list (string * jsval)) :
  (forall q k p t, simpleTokenizer q k p = Ok t -> truthy t = true /\ evalTerm t doc = leafSem k (js_get q k) doc) ->
  forall (q : jsval) (path : list seg) (include : jsval) (s s' : St) (r : ParseResult),
  inFragment (V := AdapterMongoose.variant) idRelOk q = true -> orSafe (V := AdapterMongoose.variant) q = true ->
  AdapterMongoose.queryParser q path include s = Ok (r, s') ->
  matchSem (matchTerm r) doc = filterSem (V := AdapterMongoose.variant) leafSem idRelSem doc q /\
  (if constrains (V := AdapterMongoose.variant) q then truthy (matchTerm r) = true else matchTerm r = JUndefined).
Proof.
  intros Hleaf q path include s s' r Hf Ho H.
  exact (walk_refines (V := AdapterMongoose.variant) leafSem idRelOk idRelSem doc Hleaf (idRel_sound doc)
           q path include s r s' Hf Ho H).
Qed.

(** C19: the unsound cells are reached end to end: for every field [f]
    with no quantifier suffix of its own, every identity filter on a cell
    of [adapter-mongoose]'s table that the join does not justify
    ([unsoundCell]: [id] with [_every], [id_not] bare, with [_some] or
    [_none], [id_not_in] bare) and every argument [ObjectId] converts,
    the parser compiles the filter to the cell's comparison on [f], and
    there is a document on which that [$match] and the join disagree. *)
Theorem adapterMongoose_unsound_cells_reached {St : Type} `{R : RelTokenizer2 St}
  (f : string) (p : IdPred) (q : Quant) (op : CmpOp) (a0 arg : jsval) (path : list seg) (include : jsval)
  (s s1 : St) (mt info : jsval) :
  isLogicalKey (f ++ quantSuffix q) = false -> AdapterMongoose.isModifierKey2 (f ++ quantSuffix q) = false ->
  f ++ quantSuffix q <> "id" ->
  KeySplit.splitSuffix f = [f] -> f <> "__proto__" -> f <> "$and" -> f <> "$or" ->
  truthy a0 = true -> convertArg p a0 = Ok arg -> wfArg p arg = true ->
  table2 p q = Some op -> unsoundCell p q = true ->
  relationshipTokenizer2 (f ++ quantSuffix q) (path ++ [PKey (f ++ quantSuffix q)]) s = Ok ((mt, info), s1) ->
  AdapterMongoose.queryParser (JObj [(f ++ quantSuffix q, JObj [(idPredKey p, a0)])]) path include s =
    Ok (mkParseResult (JObj [(f, buildCond op arg)]) [] [] (excludeFieldsOf fieldAdapters [] include), s1) /\
  exists doc, matchSem (JObj [(f, buildCond op arg)]) doc <> Some (joinMatch q p arg (prop_lookup doc f)).
Proof.
  intros Hl Hm Hid Hs Hp Hand Hor Ha Hc Hw Ht Hu Hstep. split.
  - assert (Hsc : shortcut2 (f ++ quantSuffix q) (JObj [(idPredKey p, a0)]) = Ok (Some (JObj [(f, buildCond op arg)]))).
    { rewrite shortcut2_table by done. unfold cellResult. by rewrite Ht, Hc. }
    unfold AdapterMongoose.queryParser.
    rewrite (queryParser_single_shortcut (V := AdapterMongoose.variant) _ (JObj [(idPredKey p, a0)]) path include
               s s1 mt info _ Hl Hm Hid eq_refl Hstep Hsc).
    reflexivity.
  - exists [(f, unsoundDoc p q arg)]. unfold matchSem, evalTerm.
    apply String.eqb_neq in Hand, Hor. rewrite Hand, Hor. cbn [prop_lookup]. rewrite String.eqb_refl.
    exact (unsound_cell_doc p q op arg Ht Hu Hw).
Qed.
End Compose.

(** ** A concrete run *)

Definition sampleJoinFilter : jsval :=
  JObj [("name", JStr "a"); ("posts_some", JObj [("id", JStr "p1")]);
        ("OR", JArr [JObj [("author", JObj [("id", JStr "u1")])]; JObj [("name", JStr "b")]])].

Definition sampleJoinDoc : list (string * jsval) :=
  [("name", JStr "a"); ("posts", JArr [oidOf "p1"; oidOf "p2"]); ("author", oidOf "u1")].

Lemma adapterMongoose_refines_join_logic_witness :
  inFragment (V := AdapterMongoose.variant (R := sampleRelTokenizer2)) idRelOk sampleJoinFilter = true /\
  orSafe (V := AdapterMongoose.variant (R := sampleRelTokenizer2)) sampleJoinFilter = true /\
  match AdapterMongoose.queryParser (R := sampleRelTokenizer2) sampleJoinFilter [] JUndefined 0 with
  | Ok (r, _) =>
      matchSem (matchTerm r) sampleJoinDoc =
        filterSem (V := AdapterMongoose.variant (R := sampleRelTokenizer2)) sampleLeafSem idRelSem sampleJoinDoc sampleJoinFilter /\
      matchSem (matchTerm r) sampleJoinDoc = Some true
  | Throw _ => False
  end.
Proof.
  split; [vm_compute; reflexivity|]. split; [vm_compute; reflexivity|].
  destruct (AdapterMongoose.queryParser (R := sampleRelTokenizer2) sampleJoinFilter [] JUndefined 0) as [[r s']|e] eqn:E.
  - split.
    + exact (proj1 (adapterMongoose_refines_join_logic (R := sampleRelTokenizer2) sampleLeafSem sampleJoinDoc
               (sampleLeaf_sound sampleJoinDoc) sampleJoinFilter [] JUndefined 0 s' r
               ltac:(vm_compute; reflexivity) ltac:(vm_compute; reflexivity) E)).
    + vm_compute in E. injection E as <- _. vm_compute. reflexivity.
  - vm_compute in E. discriminate E.
Defined.

Lemma adapterMongoose_unsound_cells_reached_witness :
  AdapterMongoose.queryParser (LA := sampleAdapter) (R := sampleRelTokenizer2)
    (JObj [("posts" ++ quantSuffix QSome, JObj [(idPredKey PIdNot, JStr "a")])]) [] JUndefined 0 =
    Ok (mkParseResult (JObj [("posts", buildCond OpNe (oidOf "a"))]) [] []
          (excludeFieldsOf fieldAdapters [] JUndefined), 1) /\
  exists doc, matchSem (JObj [("posts", buildCond OpNe (oidOf "a"))]) doc <>
              Some (joinMatch QSome PIdNot (oidOf "a") (prop_lookup doc "posts")).
Proof.
  refine (adapterMongoose_unsound_cells_reached (LA := sampleAdapter) (R := sampleRelTokenizer2)
            "posts" PIdNot QSome OpNe (JStr "a") (oidOf "a") [] JUndefined 0 1
            (sampleRelTokens "posts" "posts_some_0").1 (sampleRelTokens "posts" "posts_some_0").2
            eq_refl eq_refl ltac:(discriminate) eq_refl ltac:(discriminate) ltac:(discriminate) ltac:(discriminate)
            eq_refl eq_refl eq_refl eq_refl eq_refl _).
  vm_compute. reflexivity.
Defined.
